(** * LeADS D7.4, data explosion utilities: a shallow embedding

    The development follows [src/preprocessing/data_explosion.py]:
    the tokenizer [_split_to_list], the row aligner [_align_lists] and
    [_combine_row], the explosion transform [explode_aligned_columns], the
    indicator materializer [one_hot_multivalue_columns] and the column
    classifier [detect_multivalue_columns].

    Conventions.
    - A Python [str] is a [string]; its characters are the code points
      below 256.
    - A table cell is missing, a string or an integer ([Cell]).  Floating
      point cells are outside the model; the share computed by the
      classifier is an exact rational.
    - A [DataFrame] is column oriented, as in pandas: an ordered list of
      named series plus the length of its index.  Column labels are taken
      to be distinct.  Index labels are not modelled: every operation of
      the source that goes through them works on frames and series sharing
      one index, where pandas assigns by position.
    - Frames of cells live in a store and are addressed by reference, so
      that [df.copy()] and the in-place [out[c] = ...] keep their meaning.
      The frame that [assign] and [explode] build inside
      [explode_aligned_columns] holds lists and tuples besides cells
      ([Obj]); only that function holds it, and it is passed on as a value.
    - A Python exception is the left summand of a [result]. *)

From Stdlib Require Import ZArith QArith Ascii String DecimalString.
From stdpp Require Import base tactics option list sorting gmap strings.

Local Open Scope Z_scope.
Local Open Scope nat_scope.
Local Open Scope stdpp_scope.

(** ** Python strings *)

Module PyStr.

(** [str.isspace] on one character: the ASCII table of CPython
    ([_Py_ascii_whitespace]) and the two Latin-1 code points of Unicode
    White_Space (NEL and NBSP). *)
Definition isspace (a : ascii) : bool :=
  let n := nat_of_ascii a in
  ((9 <=? n) && (n <=? 13)) || ((28 <=? n) && (n <=? 32))
  || (n =? 133) || (n =? 160).

(** [s.lstrip()] *)
Fixpoint lstrip (s : string) : string :=
  match s with
  | EmptyString => EmptyString
  | String a s' => if isspace a then lstrip s' else s
  end.

(** [s.rstrip()]: a character stays when something after it stays or
    when it is not white space. *)
Fixpoint rstrip (s : string) : string :=
  match s with
  | EmptyString => EmptyString
  | String a s' =>
      match rstrip s' with
      | EmptyString => if isspace a then EmptyString else String a EmptyString
      | r => String a r
      end
  end.

(** [s.strip()] *)
Definition strip (s : string) : string := lstrip (rstrip s).

(** [s.startswith(p)] *)
Fixpoint startswith (p s : string) : bool :=
  match p, s with
  | EmptyString, _ => true
  | String a p', String b s' => if decide (a = b) then startswith p' s' else false
  | String _ _, EmptyString => false
  end.

(** [p in s] for strings, which is what
    [Series.str.contains(p, regex=False)] computes on each value. *)
Fixpoint contains (p s : string) : bool :=
  startswith p s ||
  match s with
  | EmptyString => false
  | String _ s' => contains p s'
  end.

(** The pieces of [s.split(sep)] for a non-empty [sep], scanning from the
    left: [skip] counts the characters of a matched separator that are
    still to be passed over; the head of the result is the piece under
    construction. *)
Fixpoint split_go (sep : string) (skip : nat) (s : string) : list string :=
  match s with
  | EmptyString => [EmptyString]
  | String a s' =>
      match skip with
      | S k => split_go sep k s'
      | O =>
          if startswith sep s
          then EmptyString :: split_go sep (String.length sep - 1) s'
          else match split_go sep 0 s' with
               | p :: ps => String a p :: ps
               | [] => [String a EmptyString]
               end
      end
  end.

(** [s.replace(" ", "_")] *)
Fixpoint replace_space (s : string) : string :=
  match s with
  | EmptyString => EmptyString
  | String a s' =>
      String (if decide (a = " "%char) then "_"%char else a) (replace_space s')
  end.

(** [sep.join(l)] *)
Fixpoint join (sep : string) (l : list string) : string :=
  match l with
  | [] => EmptyString
  | [x] => x
  | x :: l' => x +:+ sep +:+ join sep l'
  end.

(** The character [c] occurs in [s]. *)
Fixpoint occurs (c : ascii) (s : string) : Prop :=
  match s with
  | EmptyString => False
  | String a s' => a = c ∨ occurs c s'
  end.

(** [str(z)] for an integer. *)
Definition of_Z (z : Z) : string := NilZero.string_of_int (Z.to_int z).

End PyStr.

(** ** Exceptions and results *)

Inductive value_error : Type :=
  | EmptySeparator
      (* str.split: "empty separator" *)
  | UnequalTokenLengths (idx : nat) (columns : list string) (lengths : gset nat)
      (* _combine_row: "Row {idx} has unequal token lengths in {columns}: {lengths}" *)
  | LengthMismatch (given index : nat)
      (* assigning a list whose length is not that of the index *)
  | ShapeMismatch (passed implied : nat * nat).
      (* DataFrame constructor: "Shape of passed values is ..., indices imply ..." *)

Inductive exn : Type :=
  | KeyError (key : string)
  | IndexError
  | TypeError
  | ValueError (why : value_error).

Definition result (A : Type) : Type := exn + A.

Global Instance result_ret : MRet result := λ A x, inr x.
Global Instance result_bind : MBind result := λ A B f m,
  match m with
  | inl e => inl e
  | inr x => f x
  end.
Global Instance result_fmap : FMap result := λ A B f m,
  match m with
  | inl e => inl e
  | inr x => inr (f x)
  end.

(** ** Cells and the tokenizer *)

Inductive Cell : Type :=
  | NA                (* missing: NaN or None *)
  | Str (s : string)
  | Int (z : Z).

Global Instance Cell_eq_dec : EqDecision Cell.
Proof. solve_decision. Defined.

(** [pd.isna(x)] on a scalar. *)
Definition isna (x : Cell) : bool :=
  match x with
  | NA => true
  | _ => false
  end.

(** [str(x)] of a value that is not missing.  [NA] stands for NaN as well
    as for [None], whose string forms differ; the source takes the string
    form of a cell only after [pd.isna] or [dropna] has set the missing
    ones aside, and nothing here relies on the entry for [NA]. *)
Definition py_str (x : Cell) : string :=
  match x with
  | NA => "nan"
  | Str s => s
  | Int z => PyStr.of_Z z
  end.

(** [s.split(sep)] *)
Definition py_split (s sep : string) : result (list string) :=
  match sep with
  | EmptyString => inl (ValueError EmptySeparator)
  | _ => inr (PyStr.split_go sep 0 s)
  end.

(** [_split_to_list], lines 44-50. *)
Definition _split_to_list (x : Cell) (sep : string) : result (list string) :=
  if isna x then mret []
  else
    parts ← py_split (py_str x) sep;
    mret (PyStr.strip <$> filter (λ p, PyStr.strip p ≠ EmptyString) parts).


(** ** Series and frames *)

Inductive Dtype : Type := object | int64 | float64.

Global Instance Dtype_eq_dec : EqDecision Dtype.
Proof. solve_decision. Defined.

Record Series (A : Type) : Type := mkSeries { dtype : Dtype; values : list A }.
Global Arguments mkSeries {A} _ _.
Global Arguments dtype {A} _.
Global Arguments values {A} _.

(** [nrows] is the length of the index, [cols] the columns in order. *)
Record DataFrame (A : Type) : Type :=
  mkFrame { nrows : nat; cols : list (string * Series A) }.
Global Arguments mkFrame {A} _ _.
Global Arguments nrows {A} _.
Global Arguments cols {A} _.

Global Instance DataFrame_inhabited {A} : Inhabited (DataFrame A) :=
  populate (mkFrame 0 []).

(** [df.columns] *)
Definition df_columns {A} (df : DataFrame A) : list string := (cols df).*1.

(** [df[c]] *)
Fixpoint lookup_column {A} (c : string) (l : list (string * Series A)) : option (Series A) :=
  match l with
  | [] => None
  | (c', s) :: l' => if decide (c' = c) then Some s else lookup_column c l'
  end.

Definition df_getitem {A} (df : DataFrame A) (c : string) : result (Series A) :=
  match lookup_column c (cols df) with
  | Some s => inr s
  | None => inl (KeyError c)
  end.

(** [df[c] = s] for a series [s] on the index of [df]: an existing column
    is replaced where it stands, a new one is appended. *)
Fixpoint set_column {A} (c : string) (s : Series A) (l : list (string * Series A))
    : list (string * Series A) :=
  match l with
  | [] => [(c, s)]
  | (c', s') :: l' =>
      if decide (c' = c) then (c, s) :: l' else (c', s') :: set_column c s l'
  end.

Definition df_setitem {A} (df : DataFrame A) (c : string) (s : Series A) : DataFrame A :=
  mkFrame (nrows df) (set_column c s (cols df)).

(** [df.assign(c=l)] for a Python list [l]: a new frame; the length of [l]
    must be that of the index. *)
Definition df_assign {A} (df : DataFrame A) (c : string) (l : list A)
    : result (DataFrame A) :=
  if decide (length l = nrows df)
  then inr (df_setitem df c (mkSeries object l))
  else inl (ValueError (LengthMismatch (length l) (nrows df))).

(** [df.drop(columns=[c])] *)
Definition df_drop {A} (df : DataFrame A) (c : string) : result (DataFrame A) :=
  if decide (c ∈ df_columns df)
  then inr (mkFrame (nrows df) (filter (λ e, e.1 ≠ c) (cols df)))
  else inl (KeyError c).

(** [l[mask]] by position. *)
Fixpoint mask_list {A} (mask : list bool) (l : list A) : list A :=
  match mask, l with
  | b :: mask', x :: l' => if b then x :: mask_list mask' l' else mask_list mask' l'
  | _, _ => []
  end.

(** [df[mask]] for a boolean series on the index of [df]. *)
Definition df_mask {A} (df : DataFrame A) (mask : list bool) : DataFrame A :=
  mkFrame (length (filter Is_true mask))
    ((λ e, (e.1, mkSeries (dtype e.2) (mask_list mask (values e.2)))) <$> cols df).

(** [df.reset_index(drop=True)]: the index is positional here. *)
Definition reset_index {A} (df : DataFrame A) : DataFrame A := df.

(** The same frame over another type of values. *)
Definition df_map {A B} (f : A → B) (df : DataFrame A) : DataFrame B :=
  mkFrame (nrows df) ((λ e, (e.1, mkSeries (dtype e.2) (f <$> values e.2))) <$> cols df).

(** ** Values of the exploded frame *)

(** A tuple built by [zip]: tokens, and [None] where a list was padded. *)
Abbreviation tuple := (list (option string)) (only parsing).

(** What a cell holds between [assign] and the end of
    [explode_aligned_columns]: a cell of the input, a tuple, or a list of
    tuples. *)
Inductive Obj : Type :=
  | Scalar (c : Cell)
  | Tuple (t : tuple)
  | TupleList (l : list tuple).

(** An element of a tuple as a cell of its own; [None] is missing. *)
Definition of_field (v : option string) : Obj :=
  match v with
  | Some s => Scalar (Str s)
  | None => Scalar NA
  end.

(** [Series.notna()] on one value. *)
Definition obj_notna (v : Obj) : bool :=
  match v with
  | Scalar c => negb (isna c)
  | _ => true
  end.

(** One value under [Series.explode]: a list or tuple gives its elements,
    an empty one gives NaN, anything else stays. *)
Definition explode_value (v : Obj) : list Obj :=
  match v with
  | Scalar c => [Scalar c]
  | Tuple [] => [Scalar NA]
  | Tuple t => of_field <$> t
  | TupleList [] => [Scalar NA]
  | TupleList l => Tuple <$> l
  end.

(** [x] repeated [n] times for each pair of [l] and [counts]. *)
Definition repeat_each {A} (counts : list nat) (l : list A) : list A :=
  mjoin (zip_with (λ n x, replicate n x) counts l).

(** [df.explode(c, ignore_index=True)]: the values of column [c] are
    exploded, every other column repeats its value once per element. *)
Definition df_explode (df : DataFrame Obj) (c : string) : result (DataFrame Obj) :=
  s ← df_getitem df c;
  let exploded := explode_value <$> values s in
  let counts := length <$> exploded in
  mret (mkFrame (sum_list counts)
          ((λ e, if decide (e.1 = c) then (e.1, mkSeries object (mjoin exploded))
                 else (e.1, mkSeries (dtype e.2) (repeat_each counts (values e.2))))
           <$> cols df)).

(** The fields of one record for the [DataFrame] constructor.  In a list
    of tuples ([lib.to_object_array_tuples]) a null record counts as the
    1-tuple of itself; in a list of lists ([lib.to_object_array]) it has
    no length. *)
Definition record_fields (tuples : bool) (v : Obj) : result (list Obj) :=
  match v with
  | Tuple t => inr (of_field <$> t)
  | TupleList l => inr (Tuple <$> l)
  | Scalar NA => if tuples then inr [Scalar NA] else inl TypeError
  | Scalar (Str s) => inr ((λ a, Scalar (Str (String a EmptyString))) <$> list_ascii_of_string s)
  | Scalar (Int _) => inl TypeError
  end.

(** [pd.DataFrame(data, columns=columns, index=index)] for a Python list
    [data] and an index with one label per record.  The first record
    decides how the list is read: a tuple or list makes every record a row
    of fields, short rows being filled with [None]; a scalar makes the list
    one column.  The width found must be the number of column labels. *)
Definition pd_DataFrame (data : list Obj) (columns : list string) : result (DataFrame Obj) :=
  match data with
  | [] => inr (mkFrame 0 ((λ c, (c, mkSeries object [])) <$> columns))
  | Scalar _ :: _ =>
      match columns with
      | [c] => inr (mkFrame (length data) [(c, mkSeries object data)])
      | _ => inl (ValueError (ShapeMismatch (length data, 1) (length data, length columns)))
      end
  | first :: _ =>
      rows ← mapM (record_fields (match first with Tuple _ => true | _ => false end)) data;
      let k := max_list (length <$> rows) in
      if decide (k = length columns)
      then inr (mkFrame (length data)
                  (imap (λ j c, (c, mkSeries object ((λ row, default (Scalar NA) (row !! j)) <$> rows)))
                     columns))
      else inl (ValueError (ShapeMismatch (length data, k) (length data, length columns)))
  end.

(** ** The row aligner *)

(** [_align_lists], lines 53-63. *)
Definition _align_lists (row_lists : list (list string)) : list tuple :=
  let max_len := max_list (length <$> row_lists) in
  (λ L, (Some <$> L) ++ replicate (max_len - length L) None) <$> row_lists.

(** [list(zip( *ls))], line 118: the tuples of the elements at one position, up to the
    end of the shortest list; no list, no tuple. *)
Fixpoint zip_upto {A} (n : nat) (ls : list (list A)) : list (list A) :=
  match n with
  | O => []
  | S n' =>
      match mapM head ls with
      | Some t => t :: zip_upto n' (tail <$> ls)
      | None => []
      end
  end.

Definition zip_star {A} (ls : list (list A)) : list (list A) :=
  match ls with
  | [] => []
  | L :: _ => zip_upto (length L) ls
  end.

(** The test of line 120: some [v] of [t] is not [None] and [str(v).strip()]
    is not empty. *)
Definition has_data (t : tuple) : bool :=
  existsb (λ v, match v with
                | Some s => bool_decide (PyStr.strip s ≠ EmptyString)
                | None => false
                end) t.

(** [d[k]] on a dict *)
Definition dict_getitem {V} (d : gmap string V) (k : string) : result V :=
  match d !! k with
  | Some v => inr v
  | None => inl (KeyError k)
  end.

(** [s.iat[i]] *)
Definition iat {A} (s : list A) (i : nat) : result A :=
  match s !! i with
  | Some v => inr v
  | None => inl IndexError
  end.

(** [_combine_row], lines 108-121: a closure over [columns],
    [strict_equal_lengths] and [split_cols]. *)
Definition _combine_row (columns : list string) (strict_equal_lengths : bool)
    (split_cols : gmap string (list (list string))) (idx : nat) : result (list tuple) :=
  lists ← mapM (λ c, s ← dict_getitem split_cols c; iat s idx) columns;
  aligned ←
    (if strict_equal_lengths then
       let lengths : gset nat := list_to_set (length <$> lists) in
       if decide (1 < size lengths)
       then inl (ValueError (UnequalTokenLengths idx columns lengths))
       else inr (fmap Some <$> lists)
     else inr (_align_lists lists));
  let tuples := zip_star aligned in
  mret (filter (λ t, Is_true (has_data t)) tuples).

(** ** The store of frames *)

(** A reference is a position in the store. *)
Abbreviation ref := nat (only parsing).
Abbreviation Store := (list (DataFrame Cell)) (only parsing).

(** A computation reads and updates the store and ends with a value or
    with an exception. *)
Definition M (A : Type) : Type := Store → result A * Store.

Global Instance M_ret : MRet M := λ A x σ, (inr x, σ).
Global Instance M_bind : MBind M := λ A B f m σ,
  match m σ with
  | (inr x, σ') => f x σ'
  | (inl e, σ') => (inl e, σ')
  end.

(** A pure step: its exception, if any, is raised. *)
Definition lift {A} (x : result A) : M A := λ σ, (x, σ).

Definition load (r : ref) : M (DataFrame Cell) := λ σ, (inr (σ !!! r), σ).
Definition store (r : ref) (df : DataFrame Cell) : M unit := λ σ, (inr (), <[r:=df]> σ).
Definition alloc (df : DataFrame Cell) : M ref := λ σ, (inr (length σ), σ ++ [df]).

(** [for x in l: a = f(a, x)] *)
Fixpoint foldM `{MBind F, MRet F} {A B} (f : A → B → F A) (a : A) (l : list B) : F A :=
  match l with
  | [] => mret a
  | x :: l' => a' ← f a x; foldM f a' l'
  end.

(** [df.copy()] *)
Definition copy (df : ref) : M ref := d ← load df; alloc d.
(** [len(df)] *)
Definition len (df : ref) : M nat := d ← load df; mret (nrows d).
(** [df[c]] *)
Definition getitem (df : ref) (c : string) : M (Series Cell) :=
  d ← load df; lift (df_getitem d c).
(** [df[c] = s] *)
Definition setitem (df : ref) (c : string) (s : Series Cell) : M unit :=
  d ← load df; store df (df_setitem d c s).

(** [s.apply(lambda x: _split_to_list(x, sep))] *)
Definition tokenize_series (s : Series Cell) (sep : string) : result (list (list string)) :=
  mapM (λ x, _split_to_list x sep) (values s).

(** ** The column classifier *)

(** [s.mean()] of a non-empty boolean series. *)
Definition mean (bs : list bool) : Q :=
  Z.of_nat (length (filter Is_true bs)) # Pos.of_nat (length bs).

(** The share of lines 37-38. *)
Definition share_of (s : Series Cell) (sep : string) : Q :=
  let s := py_str <$> filter (λ x, ¬ Is_true (isna x)) (values s) in
  if decide (length s = 0) then 0%Q else mean (PyStr.contains sep <$> s).

(** [detect_multivalue_columns], lines 25-41. *)
Definition detect_multivalue_columns (df : ref) (candidate_columns : option (list string))
    (sep : string) (min_share : Q) : M (list string) :=
  d ← load df;
  let candidate_columns :=
    match candidate_columns with
    | Some cs => cs
    | None => (filter (λ e, dtype e.2 = object) (cols d)).*1
    end in
  foldM (λ flagged c,
           s ← getitem df c;
           let share := share_of s sep in
           mret (if Qle_bool min_share share then flagged ++ [c] else flagged))
    [] candidate_columns.

(** ** The explosion transform *)

(** Lines 129-137: the tuples of [_combined] go back to the selected
    columns. *)
Definition unpack (out : DataFrame Obj) (columns : list string) : result (DataFrame Obj) :=
  match columns with
  | [col] =>
      s ← df_getitem out "_combined";
      mret (df_setitem out col s)
  | _ =>
      s ← df_getitem out "_combined";
      expanded ← pd_DataFrame (values s) columns;
      foldM (λ out c, e ← df_getitem expanded c; mret (df_setitem out c e)) out columns
  end.

(** Lines 124-139, on the frame [assign] starts from. *)
Definition explode_combined (out : DataFrame Cell) (combined : list (list tuple))
    (columns : list string) (keep_empty_rows : bool) : result (DataFrame Obj) :=
  out ← df_assign (df_map Scalar out) "_combined" (TupleList <$> combined);
  out ← df_explode out "_combined";
  out ← (if keep_empty_rows then mret out
         else s ← df_getitem out "_combined"; mret (df_mask out (obj_notna <$> values s)));
  out ← unpack out columns;
  out ← df_drop out "_combined";
  mret (reset_index out).

(** Line 106: the dict of token lists, one entry per selected column. *)
Definition split_columns (out : ref) (columns : list string) (sep : string)
    : M (gmap string (list (list string))) :=
  foldM (λ d c,
           s ← getitem out c;
           toks ← lift (tokenize_series s sep);
           mret (<[c:=toks]> d))
    ∅ columns.

(** [explode_aligned_columns], lines 66-140. *)
Definition explode_aligned_columns (df : ref) (columns : list string) (sep : string)
    (keep_empty_rows strict_equal_lengths : bool) : M (DataFrame Obj) :=
  out ← copy df;
  split_cols ← split_columns out columns sep;
  n ← len out;
  combined ← lift (mapM (_combine_row columns strict_equal_lengths split_cols) (seq 0 n));
  d ← load out;
  lift (explode_combined d combined columns keep_empty_rows).

(** ** The indicator materializer *)

(** Lines 159-162: the frequency table. *)
Definition count_tokens (tokens : list (list string)) : gmap string nat :=
  foldl (λ counts L, foldl (λ counts t, <[t := default 0 (counts !! t) + 1]> counts) counts L)
    ∅ tokens.

(** Lines 163 and 165: [sorted(keep)]. *)
Definition kept_tokens (counts : gmap string nat) (min_count : Z) : list string :=
  let keep : gset string := dom (filter (λ tc, (min_count ≤ Z.of_nat tc.2)%Z) counts) in
  merge_sort String.le (elements keep).

(** Line 166 *)
Definition col_name (pref t : string) : string :=
  PyStr.replace_space (pref +:+ "__" +:+ t).

(** Line 167: [tokens.apply(lambda L, tok=t: int(tok in L))] *)
Definition indicator (tokens : list (list string)) (t : string) : Series Cell :=
  mkSeries int64 ((λ L, Int (if decide (t ∈ L) then 1 else 0)) <$> tokens).

(** Lines 157-167: the body of the loop over [columns]. *)
Definition one_hot_column (out : ref) (sep : string) (min_count : Z)
    (prefix_map : gmap string string) (col : string) : M unit :=
  s ← getitem out col;
  tokens ← lift (tokenize_series s sep);
  let counts := count_tokens tokens in
  let pref := default col (prefix_map !! col) in
  foldM (λ _ t, setitem out (col_name pref t) (indicator tokens t))
    () (kept_tokens counts min_count).

(** [one_hot_multivalue_columns], lines 143-168. *)
Definition one_hot_multivalue_columns (df : ref) (columns : list string) (sep : string)
    (min_count : Z) (prefix_map : option (gmap string string)) : M ref :=
  out ← copy df;
  let prefix_map := default ∅ prefix_map in
  _ ← foldM (λ _ col, one_hot_column out sep min_count prefix_map col) () columns;
  mret out.

(** ** Definitions used by the statements *)

(** Follows the spec's words (4.1, "split on the exact delimiter"): the
    pieces of [s] between the occurrences of the delimiter character, read
    from the left; [cur] is the piece being read. *)
Fixpoint pieces (delimiter : ascii) (cur s : string) : list string :=
  match s with
  | EmptyString => [cur]
  | String a s' =>
      if decide (a = delimiter) then cur :: pieces delimiter EmptyString s'
      else pieces delimiter (cur +:+ String a EmptyString) s'
  end.

(** Follows the spec's words (4.1): missing gives no token; otherwise the
    string form is split on the delimiter, each piece is trimmed, and the
    pieces that are empty after trimming are dropped. *)
Definition tokenize (cell : Cell) (delimiter : ascii) : list string :=
  match cell with
  | NA => []
  | _ => filter (λ p, p ≠ EmptyString) (PyStr.strip <$> pieces delimiter EmptyString (py_str cell))
  end.

(** A token (spec, section 3): a non-empty, whitespace-trimmed string. *)
Definition Token (t : string) : Prop := t ≠ EmptyString ∧ PyStr.strip t = t.

(** The invariant of a pandas frame: distinct column labels, and every
    column as long as the index. *)
Definition wf_frame {A} (df : DataFrame A) : Prop :=
  NoDup (df_columns df) ∧ Forall (λ e, length (values e.2) = nrows df) (cols df).

(** The share of lines 37-38 for the column labelled [c] of [d]. *)
Definition column_share (d : DataFrame Cell) (sep c : string) : Q :=
  match df_getitem d c with
  | inr s => share_of s sep
  | inl _ => 0%Q
  end.

(** How often [t] occurs in [l]. *)
Definition occurrences (t : string) (l : list string) : nat :=
  length (filter (λ x, x = t) l).

(** [for t in l: d[name(t)] = val(t)] on the value of a frame. *)
Definition assign_all {A T} (name : T → string) (val : T → Series A)
    (d : DataFrame A) (l : list T) : DataFrame A :=
  foldl (λ d t, df_setitem d (name t) (val t)) d l.

(** The frame that the body of the loop (lines 157-167) leaves in [out],
    as a function of the frame it finds there. *)
Definition add_indicators (d : DataFrame Cell) (sep : string) (min_count : Z)
    (prefix_map : gmap string string) (col : string) : result (DataFrame Cell) :=
  s ← df_getitem d col;
  tokens ← tokenize_series s sep;
  let pref := default col (prefix_map !! col) in
  mret (assign_all (col_name pref) (indicator tokens) d
          (kept_tokens (count_tokens tokens) min_count)).

(** The dict of line 106, as a function of the frame the columns are read
    from. *)
Definition split_cols_of (d : DataFrame Cell) (columns : list string) (sep : string)
    : result (gmap string (list (list string))) :=
  foldM (λ m c,
           s ← df_getitem d c;
           toks ← tokenize_series s sep;
           mret (<[c:=toks]> m))
    ∅ columns.

(** The value [explode_aligned_columns] ends with, as a function of the
    frame its argument refers to. *)
Definition explode_frame (d : DataFrame Cell) (columns : list string) (sep : string)
    (keep_empty_rows strict_equal_lengths : bool) : result (DataFrame Obj) :=
  split_cols ← split_cols_of d columns sep;
  combined ← mapM (_combine_row columns strict_equal_lengths split_cols) (seq 0 (nrows d));
  explode_combined d combined columns keep_empty_rows.

(** The token lists of the column labelled [c]. *)
Definition column_tokens (d : DataFrame Cell) (sep c : string) : result (list (list string)) :=
  s ← df_getitem d c; tokenize_series s sep.

(** The token lists of row [idx], one per selected column. *)
Definition row_lists (d : DataFrame Cell) (columns : list string) (sep : string) (idx : nat)
    : result (list (list string)) :=
  mapM (λ c, toks ← column_tokens d sep c; iat toks idx) columns.

(** The aligned tuples of row [idx]: what [_combine_row] returns for it
    once line 106 has run. *)
Definition row_tuples (d : DataFrame Cell) (columns : list string) (sep : string)
    (strict_equal_lengths : bool) (idx : nat) : result (list tuple) :=
  split_cols ← split_cols_of d columns sep;
  _combine_row columns strict_equal_lengths split_cols idx.

(** The rows each input row gives: one per tuple, and one for a row
    without tuples that is kept. *)
Definition row_counts (keep_empty_rows : bool) (combined : list (list tuple)) : list nat :=
  (λ l, if keep_empty_rows then max 1 (length l) else length l) <$> combined.

(** The values of [_combined] once exploded and filtered: the tuples of
    each row, and NaN for a row without tuples that is kept. *)
Definition block (keep_empty_rows : bool) (l : list tuple) : list Obj :=
  match l with
  | [] => if keep_empty_rows then [Scalar NA] else []
  | _ => Tuple <$> l
  end.

Definition records (keep_empty_rows : bool) (combined : list (list tuple)) : list Obj :=
  mjoin (block keep_empty_rows <$> combined).

(** A column of the input with each value repeated as the counts say. *)
Definition repeated (counts : list nat) (s : Series Cell) : Series Obj :=
  mkSeries (dtype s) (repeat_each counts (Scalar <$> values s)).

(** The fields of a record that is a tuple or NaN, and the one at
    position [j], missing when the record is too short. *)
Definition fields_of (r : Obj) : list Obj :=
  match r with
  | Tuple t => of_field <$> t
  | _ => [Scalar NA]
  end.

Definition field (j : nat) (r : Obj) : Obj := default (Scalar NA) (fields_of r !! j).

(** The aligned tuple at position [p] of a row: what each token list has
    there, [None] where a list is too short (section 4.3 of the spec). *)
Definition aligned_tuple (lists : list (list string)) (p : nat) : tuple :=
  (λ L, L !! p) <$> lists.

(** The values that reach a selected column, the one at position [j] of
    [columns]: the records themselves on the single-column branch, their
    fields at [j] otherwise. *)
Definition selected_values (columns : list string) (j : nat) (recs : list Obj) : list Obj :=
  match columns with
  | [_] => recs
  | _ => field j <$> recs
  end.

(** A record is NaN or a tuple of [w] elements. *)
Definition record_of_width (w : nat) (r : Obj) : Prop :=
  r = Scalar NA ∨ ∃ t, r = Tuple t ∧ length t = w.

(** The set of the lengths of some token lists (line 111). *)
Definition lengths_of (lists : list (list string)) : gset nat :=
  list_to_set (length <$> lists).

(** Follows the spec's words (4.4, "a degenerate case of the same
    algorithm"): the unpacking of the general path, lines 135-137, whatever
    the number of selected columns. *)
Definition unpack_general (out : DataFrame Obj) (columns : list string)
    : result (DataFrame Obj) :=
  s ← df_getitem out "_combined";
  expanded ← pd_DataFrame (values s) columns;
  foldM (λ out c, e ← df_getitem expanded c; mret (df_setitem out c e)) out columns.

(** Lines 124-139 with the general unpacking. *)
Definition explode_combined_general (out : DataFrame Cell) (combined : list (list tuple))
    (columns : list string) (keep_empty_rows : bool) : result (DataFrame Obj) :=
  out ← df_assign (df_map Scalar out) "_combined" (TupleList <$> combined);
  out ← df_explode out "_combined";
  out ← (if keep_empty_rows then mret out
         else s ← df_getitem out "_combined"; mret (df_mask out (obj_notna <$> values s)));
  out ← unpack_general out columns;
  out ← df_drop out "_combined";
  mret (reset_index out).

(** ** Sample tables *)

(** A frame of [n] rows from its columns, all of dtype [object]. *)
Definition frame_of (n : nat) (l : list (string * list Cell)) : DataFrame Cell :=
  mkFrame n (prod_map id (mkSeries object) <$> l).

(** The scenario of the spec (section 8), with a record identifier. *)
Definition accidents : DataFrame Cell :=
  frame_of 2
    [("ID_accident", [Int 7; Int 8]);
     ("Security_measures", [Str "Seat Belt,Helmet"; Str "Seat Belt"]);
     ("User_of_security_measures", [Str "Yes,Yes"; Str "Yes,No"]);
     ("Sex", [Str "Man,Woman"; Str "Man,Woman"])].

(** One multi-value column beside a column that bears an indicator's
    name. *)
Definition tagged : DataFrame Cell :=
  frame_of 3
    [("X", [Str "a,b,a"; Str "a"; NA]);
     ("X__a", [Str "u"; Str "v"; Str "w"])].

(** A column without any value. *)
Definition hollow : DataFrame Cell :=
  frame_of 2 [("A", [NA; NA]); ("B", [Str "x,y"; Str "z"])].

(** A table with a column named like the scratch column of the
    transform. *)
Definition scratchy : DataFrame Cell :=
  frame_of 2
    [("A", [Str "x,y"; Str "u,v"]);
     ("_combined", [Int 1; Int 2]);
     ("B", [NA; NA]);
     ("C", [Str "p,q"; Str "r,s"])].

(** A record whose multi-value cells are missing, after one that has
    them. *)
Definition gappy : DataFrame Cell :=
  frame_of 2
    [("ID", [Int 1; Int 2]);
     ("A", [Str "x,y"; NA]);
     ("B", [Str "u"; NA])].

(** One record, both of its cells missing. *)
Definition hollow_pair : DataFrame Cell :=
  frame_of 1 [("A", [NA]); ("B", [NA])].

(** What [gappy] explodes to on [A] and [B] when empty rows are kept. *)
Definition gappy_kept : DataFrame Obj :=
  mkFrame 3
    [("ID", mkSeries object [Scalar (Int 1); Scalar (Int 1); Scalar (Int 2)]);
     ("A", mkSeries object [Scalar (Str "x"); Scalar (Str "y"); Scalar NA]);
     ("B", mkSeries object [Scalar (Str "u"); Scalar NA; Scalar NA])].

(** * Further definitions *)

(** ** Used by the statements on the tokenizer *)

(** Every character of [s] passes the test [p]. *)
Fixpoint all_chars (p : ascii → bool) (s : string) : bool :=
  match s with
  | EmptyString => true
  | String a s' => p a && all_chars p s'
  end.

(** A character that cannot be part of a token: the delimiter or white
    space. *)
Definition is_filler (delimiter a : ascii) : bool :=
  bool_decide (a = delimiter) || PyStr.isspace a.

(** ** The tokenizer on any scalar and any alphabet

    [_split_to_list] takes [x: object]: all it needs of [x] is whether
    [pd.isna(x)] holds and the string [str(x)], and all it needs of the
    characters is their equality and [str.isspace].  Here the function is
    written once more with these as parameters: [V] is the type of the
    values a cell can hold, [C] the type of the characters (for Python,
    the code points), a string being the list of its characters.  On the
    cells and strings of this development it is [_split_to_list] above. *)

Module PyText.
Section text.
Context {C : Type} `{!EqDecision C}.

(** [str.isspace] on one character. *)
Variable isspace : C → bool.

(** [s.lstrip()] *)
Fixpoint lstrip (s : list C) : list C :=
  match s with
  | [] => []
  | a :: s' => if isspace a then lstrip s' else s
  end.

(** [s.rstrip()] *)
Fixpoint rstrip (s : list C) : list C :=
  match s with
  | [] => []
  | a :: s' =>
      match rstrip s' with
      | [] => if isspace a then [] else [a]
      | r => a :: r
      end
  end.

(** [s.strip()] *)
Definition strip (s : list C) : list C := lstrip (rstrip s).

(** [s.startswith(p)] *)
Fixpoint startswith (p s : list C) : bool :=
  match p, s with
  | [], _ => true
  | a :: p', b :: s' => if decide (a = b) then startswith p' s' else false
  | _ :: _, [] => false
  end.

(** The pieces of [s.split(sep)] for a non-empty [sep], as in
    [PyStr.split_go]. *)
Fixpoint split_go (sep : list C) (skip : nat) (s : list C) : list (list C) :=
  match s with
  | [] => [[]]
  | a :: s' =>
      match skip with
      | S k => split_go sep k s'
      | O =>
          if startswith sep s
          then [] :: split_go sep (length sep - 1) s'
          else match split_go sep 0 s' with
               | p :: ps => (a :: p) :: ps
               | [] => [[a]]
               end
      end
  end.

(** [s.split(sep)] *)
Definition split (s sep : list C) : result (list (list C)) :=
  match sep with
  | [] => inl (ValueError EmptySeparator)
  | _ => inr (split_go sep 0 s)
  end.

(** [_split_to_list], lines 44-50. *)
Definition _split_to_list {V : Type} (isna : V → bool) (str : V → list C)
    (x : V) (sep : list C) : result (list (list C)) :=
  if isna x then mret []
  else
    parts ← split (str x) sep;
    mret (strip <$> filter (λ p, strip p ≠ []) parts).

End text.
End PyText.

(** ** Used by the statement on the tokenizer *)

(** The characters of a string of this development. *)
Abbreviation chars := list_ascii_of_string (only parsing).

(** The pieces joined by the delimiter. *)
Fixpoint joined {C} (delimiter : C) (pieces : list (list C)) : list C :=
  match pieces with
  | [] => []
  | p :: ps =>
      match ps with
      | [] => p
      | _ => p ++ delimiter :: joined delimiter ps
      end
  end.

(** Follows the spec's words (4.1, "split on the exact delimiter"):
    [pieces] are what lies between the occurrences of the delimiter in
    [s].  Joined by the delimiter they give [s] back, and none of them
    holds the delimiter. *)
Definition split_at {C} (delimiter : C) (s : list C) (pieces : list (list C)) : Prop :=
  pieces ≠ [] ∧ joined delimiter pieces = s ∧ Forall (λ p, delimiter ∉ p) pieces.

(** Follows the spec's words (4.1, "each piece is trimmed"): [t] is [p]
    without the white space at its two ends. *)
Definition trimmed_to {C} (isspace : C → bool) (p t : list C) : Prop :=
  ∃ l r, p = l ++ t ++ r
    ∧ Forall (λ a, isspace a = true) l
    ∧ Forall (λ a, isspace a = true) r
    ∧ (∀ a, head t = Some a → isspace a = false)
    ∧ (∀ a, last t = Some a → isspace a = false).

(** Follows the spec's words (4.1): the tokens of the string [s] are its
    pieces, each trimmed, without those that are empty once trimmed. *)
Definition tokens_of {C} `{!EqDecision C} (isspace : C → bool) (delimiter : C)
    (s : list C) (toks : list (list C)) : Prop :=
  ∃ pieces trimmed,
    split_at delimiter s pieces
    ∧ Forall2 (trimmed_to isspace) pieces trimmed
    ∧ toks = filter (λ t, t ≠ []) trimmed.

(** White space among the code points below 256: TAB, LF, VT, FF, CR,
    the separators FS, GS, RS and US, the space, NEL and the no-break
    space. *)
Definition white_space : list nat := [9; 10; 11; 12; 13; 28; 29; 30; 31; 32; 133; 160].

(** ** Schema checks and ID normalization

    [src/preprocessing/data_validation.py]. *)

(** Lines 19-49. *)
Definition REQUIRED_COLUMNS : list string :=
  ["ID_accident"; "Date_and_hour"; "Security_measures"; "User_of_security_measures";
   "Place"; "Sex"; "Light"; "User_category"; "Intersection"; "Weather_condition";
   "Collision"; "Surface"; "Circulation"; "Width_of_the_roadway";
   "Width_of_the_central_bar"; "Number_of_channels"; "Road_category"; "Plan";
   "Situation"; "Year_of_birth"; "Pedestrian_action"; "Health_condition";
   "Point_of_shock"; "Manuver"; "Vehicle_category";
   "Reserved_lane"; "Infrastructure"; "Profile"].

(** Lines 51-55. *)
Definition _NUMERIC_SUGGESTED : list string :=
  ["Width_of_the_roadway"; "Width_of_the_central_bar"; "Number_of_channels"].

(** The [ValueError] of line 63, with the list its message shows. *)
Inductive validation_error : Type :=
  | MissingRequiredColumns (missing : list string).

(** [validate_required_columns], lines 59-63.  The table is only read;
    [None] is returned when nothing is raised. *)
Definition validate_required_columns {A} (df : DataFrame A) : validation_error + unit :=
  let missing := filter (λ c, c ∉ df_columns df) REQUIRED_COLUMNS in
  match missing with
  | [] => inr ()
  | _ => inl (MissingRequiredColumns missing)
  end.

(** [_ID_CLEAN_RE.sub("", s)] for the pattern of line 57: every comma and
    every white space character (the class [\s], which on the code points
    below 256 is the set of [str.isspace]) is removed. *)
Fixpoint id_clean (s : string) : string :=
  match s with
  | EmptyString => EmptyString
  | String a s' =>
      if bool_decide (a = ","%char) || PyStr.isspace a then id_clean s'
      else String a (id_clean s')
  end.

Section numeric.

(** [pd.to_numeric(s, errors=errors)] and [Series.astype("Int64")] are
    taken as they are given: the parsing of numbers and the cast are
    pandas's, and the statements below hold whatever they do. *)
Variable to_numeric : Series Cell → string → result (Series Cell).
Variable astype_Int64 : Series Cell → result (Series Cell).

(** [Series.astype(str)] on one value, line 80.  A missing value becomes
    a string too, and which one depends on the missing value ([nan] for
    NaN, [None] for [None]); the cells of the model do not tell them
    apart, so that string is given from outside, row by row. *)
Definition astype_str (str_missing : nat → string) (i : nat) (x : Cell) : string :=
  match x with
  | NA => str_missing i
  | _ => py_str x
  end.

(** [normalize_id_column], lines 66-91. *)
Definition normalize_id_column (str_missing : nat → string) (df : ref)
    (id_col target_type : string) : M ref :=
  out ← copy df;
  d ← load out;
  if decide (id_col ∉ df_columns d) then mret out
  else
    s ← getitem out id_col;
    let s := PyStr.strip <$> imap (astype_str str_missing) (values s) in
    let s := mkSeries object (Str <$> (id_clean <$> s)) in
    _ ← (if decide (target_type = "int") then
           tmp ← lift (to_numeric s "coerce");
           if forallb (λ x, negb (isna x)) (values tmp)
           then t ← lift (astype_Int64 tmp); setitem out id_col t
           else setitem out id_col s
         else setitem out id_col s);
    mret out.

(** [coerce_numeric_columns], lines 94-104. *)
Definition coerce_numeric_columns (df : ref) (numeric_columns : list string)
    (errors : string) : M ref :=
  out ← copy df;
  _ ← foldM (λ _ c,
               d ← load out;
               if decide (c ∈ df_columns d) then
                 s ← getitem out c;
                 t ← lift (to_numeric s errors);
                 setitem out c t
               else mret ())
        () numeric_columns;
  mret out.

End numeric.

(** ** Parts of the day

    [src/preprocessing/temporal_features.py]. *)

(** [_part_of_day], lines 56-65, on a cell: a missing hour, an integer
    hour, or a string, which the comparison of line 59 refuses. *)
Definition _part_of_day (hour : Cell) : result string :=
  match hour with
  | NA => inr "unknown"
  | Int h =>
      inr (if (5 <=? h)%Z && (h <? 12)%Z then "morning"
           else if (12 <=? h)%Z && (h <? 17)%Z then "afternoon"
           else if (17 <=? h)%Z && (h <? 21)%Z then "evening"
           else "night")
  | Str _ => inl TypeError
  end.

(** ** The smoke test

    [src/quick_test.py]. *)

(** [guess_col], lines 27-31. *)
Fixpoint guess_col {A} (df : DataFrame A) (candidates : list string) : option string :=
  match candidates with
  | [] => None
  | c :: candidates' =>
      if decide (c ∈ df_columns df) then Some c else guess_col df candidates'
  end.

(** ** More sample tables *)

(** Two tokens that get one indicator name. *)
Definition spaced : DataFrame Cell :=
  frame_of 2 [("X", [Str "a b,a_b"; Str "a_b,a b"])].

(** The same two tokens, each in a row of its own. *)
Definition spaced_apart : DataFrame Cell :=
  frame_of 2 [("X", [Str "a b,a b"; Str "a_b,a_b"])].

(** Identifiers as a spreadsheet exports them. *)
Definition raw_ids : DataFrame Cell :=
  frame_of 2
    [("ID_accident", [Str " 2,01E+11 "; Int 7]);
     ("Sex", [Str "Man"; NA])].

(** [raw_ids] with its identifiers normalized. *)
Definition clean_ids : DataFrame Cell :=
  frame_of 2
    [("ID_accident", [Str "201E+11"; Str "7"]);
     ("Sex", [Str "Man"; NA])].

(** * Properties *)

(** * General lemmas *)

Lemma filter_Forall_id {A} (P : A → Prop) `{!∀ x, Decision (P x)} (l : list A) :
  Forall P l → filter P l = l.
Proof.
  induction 1 as [|x l Hx _ IH]; [done|]. by rewrite filter_cons_True, IH.
Qed.

(** * Properties of the string operations *)

Section strings.
Implicit Types (a c : ascii) (s p t : string).

Lemma lstrip_idemp s : PyStr.lstrip (PyStr.lstrip s) = PyStr.lstrip s.
Proof.
  induction s as [|a s IH]; simpl; [done|].
  destruct (PyStr.isspace a) eqn:Ha; [done|]. simpl. by rewrite Ha.
Qed.

Lemma rstrip_cons a s :
  PyStr.rstrip (String a s) =
    if decide (PyStr.rstrip s = EmptyString)
    then (if PyStr.isspace a then EmptyString else String a EmptyString)
    else String a (PyStr.rstrip s).
Proof. simpl. by destruct (PyStr.rstrip s). Qed.

Lemma rstrip_idemp s : PyStr.rstrip (PyStr.rstrip s) = PyStr.rstrip s.
Proof.
  induction s as [|a s IH]; [done|].
  rewrite rstrip_cons. case_decide as Hs.
  - destruct (PyStr.isspace a) eqn:Ha; [done|]. simpl. by rewrite Ha.
  - rewrite rstrip_cons, IH. by rewrite decide_False.
Qed.

Lemma rstrip_lstrip s : PyStr.rstrip (PyStr.lstrip s) = PyStr.lstrip (PyStr.rstrip s).
Proof.
  induction s as [|a s IH]; [done|].
  cbn [PyStr.lstrip]. destruct (PyStr.isspace a) eqn:Ha.
  - rewrite IH, rstrip_cons. case_decide as Hs.
    + rewrite Ha, Hs. done.
    + simpl. by rewrite Ha.
  - rewrite rstrip_cons. case_decide; rewrite ?Ha; simpl; by rewrite ?Ha.
Qed.

Lemma strip_idemp s : PyStr.strip (PyStr.strip s) = PyStr.strip s.
Proof.
  unfold PyStr.strip.
  by rewrite rstrip_lstrip, lstrip_idemp, rstrip_idemp.
Qed.

Lemma strip_empty : PyStr.strip EmptyString = EmptyString.
Proof. done. Qed.

Lemma string_app_cons a s t : String a s +:+ t = String a (s +:+ t).
Proof. done. Qed.

Lemma string_app_nil_l s : EmptyString +:+ s = s.
Proof. done. Qed.

Lemma string_app_nil_r s : s +:+ EmptyString = s.
Proof. induction s as [|a s IH]; [done|]. by rewrite string_app_cons, IH. Qed.

Lemma string_app_assoc s p t : (s +:+ p) +:+ t = s +:+ (p +:+ t).
Proof. induction s as [|a s IH]; [done|]. by rewrite !string_app_cons, IH. Qed.

Lemma split_go_nonempty sep skip s : PyStr.split_go sep skip s ≠ [].
Proof.
  revert skip. induction s as [|a s IH]; intros skip; [done|].
  simpl. destruct skip; [|done].
  destruct (PyStr.startswith sep (String a s)); [done|].
  by destruct (PyStr.split_go sep 0 s).
Qed.

(** Python's split on a separator of one character is the left-to-right
    scan of the specification. *)
Lemma split_go_pieces c cur s :
  match PyStr.split_go (String c EmptyString) 0 s with
  | p :: ps => (cur +:+ p) :: ps
  | [] => []
  end = pieces c cur s.
Proof.
  revert cur. induction s as [|a s IH]; intros cur.
  { simpl. by rewrite string_app_nil_r. }
  cbn [PyStr.split_go pieces PyStr.startswith String.length Nat.sub].
  destruct (decide (c = a)) as [->|Hca].
  - rewrite decide_True by done.
    rewrite string_app_nil_r. f_equal.
    rewrite <- (IH EmptyString).
    destruct (PyStr.split_go _ 0 s) eqn:E; [|done].
    by apply split_go_nonempty in E.
  - rewrite decide_False by done.
    rewrite <- IH.
    destruct (PyStr.split_go _ 0 s) eqn:E.
    + by apply split_go_nonempty in E.
    + by rewrite string_app_assoc.
Qed.

Lemma py_split_char s c :
  py_split s (String c EmptyString) = inr (pieces c EmptyString s).
Proof.
  unfold py_split. f_equal. rewrite <- split_go_pieces.
  destruct (PyStr.split_go _ 0 s) eqn:E; [|done].
  by apply split_go_nonempty in E.
Qed.

Lemma fmap_filter_strip (l : list string) :
  PyStr.strip <$> filter (λ p, PyStr.strip p ≠ EmptyString) l
  = filter (λ p, p ≠ EmptyString) (PyStr.strip <$> l).
Proof.
  induction l as [|p l IH]; [done|].
  rewrite fmap_cons, !filter_cons. case_decide; by rewrite ?fmap_cons, IH.
Qed.

(** A token: not empty and already trimmed (spec, section 3). *)
Lemma split_to_list_tokens x sep toks :
  _split_to_list x sep = inr toks →
  Forall (λ t, t ≠ EmptyString ∧ PyStr.strip t = t) toks.
Proof.
  unfold _split_to_list. destruct (isna x); [intros [= <-]; constructor|].
  destruct (py_split _ _) as [e|parts]; [done|]. simpl. intros [= <-].
  rewrite fmap_filter_strip. apply Forall_forall. intros t.
  rewrite list_elem_of_filter, list_elem_of_fmap. intros [Ht (p & -> & _)].
  split; [done|]. apply strip_idemp.
Qed.

Lemma split_to_list_total x sep :
  sep ≠ EmptyString → ∃ toks, _split_to_list x sep = inr toks.
Proof.
  intros Hsep. unfold _split_to_list, py_split.
  destruct (isna x); [by eexists|]. destruct sep; [done|]. by eexists.
Qed.

End strings.

Lemma split_to_list_tokenize (x : Cell) (delimiter : ascii) :
  _split_to_list x (String delimiter EmptyString) = inr (tokenize x delimiter).
Proof.
  unfold _split_to_list, tokenize.
  destruct x as [|s|z]; [done|..]; cbn [isna]; rewrite py_split_char; simpl;
    by rewrite fmap_filter_strip.
Qed.

Lemma pieces_app c cur t rest :
  ¬ PyStr.occurs c t → pieces c cur (t +:+ rest) = pieces c (cur +:+ t) rest.
Proof.
  revert cur. induction t as [|a t IH]; intros cur Hc.
  { by rewrite string_app_nil_r. }
  rewrite string_app_cons. cbn [pieces].
  rewrite decide_False by (intros ->; apply Hc; by left).
  rewrite IH by (intros ?; apply Hc; by right).
  by rewrite string_app_assoc.
Qed.

Lemma pieces_join c cur t toks :
  Forall (λ t, ¬ PyStr.occurs c t) (t :: toks) →
  pieces c cur (PyStr.join (String c EmptyString) (t :: toks)) = (cur +:+ t) :: toks.
Proof.
  revert cur t. induction toks as [|t' toks IH]; intros cur t Hall.
  - cbn [PyStr.join]. rewrite <- (string_app_nil_r t) at 1.
    rewrite pieces_app by by inversion Hall. done.
  - inversion Hall as [|?? Ht Hall']; subst.
    change (PyStr.join (String c EmptyString) (t :: t' :: toks))
      with (t +:+ String c (PyStr.join (String c EmptyString) (t' :: toks))).
    rewrite pieces_app by done. cbn [pieces].
    rewrite decide_True by done. by rewrite IH.
Qed.

(** C10, as amended.  Tokenizing the join of a sequence of tokens gives
    the sequence back: for strings that are tokens in the sense of the
    data model (non-empty and trimmed, so without white space at either
    end), hold no occurrence of the delimiter and are not pure white
    space, [_split_to_list] on their join by the delimiter returns the
    same strings in the same order. *)
Theorem tokenize_join_roundtrip (delimiter : ascii) (toks : list string) :
  Forall Token toks →
  Forall (λ t, ¬ PyStr.occurs delimiter t) toks →
  Forall (λ t, PyStr.strip t ≠ EmptyString) toks →
  _split_to_list (Str (PyStr.join (String delimiter EmptyString) toks))
    (String delimiter EmptyString) = inr toks.
Proof.
  intros Htok Hdelim Hblank.
  rewrite split_to_list_tokenize.
  f_equal. unfold tokenize. cbn [py_str].
  destruct toks as [|t toks]; [done|].
  rewrite pieces_join by done. rewrite string_app_nil_l.
  rewrite <- fmap_filter_strip.
  rewrite filter_Forall_id by done.
  clear -Htok. induction Htok as [|t' l [_ Ht] _ IH]; [done|].
  by rewrite fmap_cons, Ht, IH.
Qed.

Lemma tokenize_join_roundtrip_witness :
  _split_to_list (Str (PyStr.join "," ["Seat Belt"; "Helmet"])) "," = inr ["Seat Belt"; "Helmet"].
Proof.
  apply (tokenize_join_roundtrip ","%char ["Seat Belt"; "Helmet"]).
  - repeat constructor; by vm_compute.
  - repeat constructor; vm_compute; intros H; repeat (destruct H as [H|H]; [discriminate H|]); done.
  - repeat constructor; by vm_compute.
Defined.

(** * The store monad *)

Lemma bind_run {A B} (m : M A) (f : A → M B) (σ : Store) :
  (m ≫= f) σ = match m σ with
               | (inr x, σ') => f x σ'
               | (inl e, σ') => (inl e, σ')
               end.
Proof. done. Qed.

Lemma ret_run {A} (x : A) (σ : Store) : (mret x : M A) σ = (inr x, σ).
Proof. done. Qed.

Lemma foldM_app_run {A B} (f : A → B → M A) (a : A) (l1 l2 : list B) (σ : Store) :
  foldM f a (l1 ++ l2) σ =
    match foldM f a l1 σ with
    | (inr a', σ') => foldM f a' l2 σ'
    | (inl e, σ') => (inl e, σ')
    end.
Proof.
  revert a σ. induction l1 as [|x l1 IH]; intros a σ; [done|].
  cbn [foldM app]. rewrite !bind_run. destruct (f a x σ) as [[e|a'] σ']; [done|]. apply IH.
Qed.

Lemma lift_run {A} (x : result A) (σ : Store) : lift x σ = (x, σ).
Proof. done. Qed.

Lemma load_run (σ : Store) r : load r σ = (inr (σ !!! r), σ).
Proof. done. Qed.

Lemma result_bind_inr {A B} (x : A) (f : A → result B) : (inr x ≫= f) = f x.
Proof. done. Qed.

Lemma result_bind_ret {A B} (x : A) (f : A → result B) : (mret x ≫= f) = f x.
Proof. done. Qed.

Lemma result_bind_inl {A B} (e : exn) (f : A → result B) : (inl e ≫= f) = inl e.
Proof. done. Qed.

Lemma copy_run σ r : copy r σ = (inr (length σ), σ ++ [σ !!! r]).
Proof. done. Qed.

Lemma len_run σ r : len r σ = (inr (nrows (σ !!! r)), σ).
Proof. done. Qed.

Lemma getitem_run σ r c : getitem r c σ = (df_getitem (σ !!! r) c, σ).
Proof. done. Qed.

Lemma setitem_run σ r c s :
  setitem r c s σ = (inr (), <[r:=df_setitem (σ !!! r) c s]> σ).
Proof. done. Qed.

Lemma lookup_total_fresh (σ : Store) (d : DataFrame Cell) : (σ ++ [d]) !!! length σ = d.
Proof. by rewrite list_lookup_total_middle. Qed.

Lemma insert_fresh (σ : Store) (d d' : DataFrame Cell) :
  <[length σ:=d']> (σ ++ [d]) = σ ++ [d'].
Proof. by rewrite insert_app_r_alt, Nat.sub_diag by lia. Qed.

Lemma lookup_total_Some (σ : Store) r (d : DataFrame Cell) : σ !! r = Some d → σ !!! r = d.
Proof. intros H. by apply list_lookup_total_correct. Qed.

(** A loop of assignments to one frame acts on that frame alone. *)
Lemma foldM_setitem_run {T} (name : T → string) (val : T → Series Cell) (l : list T) (d : DataFrame Cell) σ :
  foldM (λ _ t, setitem (length σ) (name t) (val t)) () l (σ ++ [d])
  = (inr (), σ ++ [foldl (λ d t, df_setitem d (name t) (val t)) d l]).
Proof.
  revert d. induction l as [|t l IH]; intros d; [done|].
  cbn [foldM foldl]. rewrite bind_run, setitem_run, lookup_total_fresh, insert_fresh.
  apply IH.
Qed.

(** * The tokenizer on any scalar and any alphabet *)

Section text_facts.
Context {C : Type} `{!EqDecision C} (isspace : C → bool).
Implicit Types (a d : C) (s p t : list C).

Lemma text_lstrip_spec s :
  ∃ l, s = l ++ PyText.lstrip isspace s
    ∧ Forall (λ a, isspace a = true) l
    ∧ ∀ a, head (PyText.lstrip isspace s) = Some a → isspace a = false.
Proof.
  induction s as [|a s (l & Hs & Hl & Hhead)]; [by exists []|].
  cbn [PyText.lstrip]. destruct (isspace a) eqn:Ha.
  - exists (a :: l). split_and!; [by rewrite Hs at 1|by constructor|done].
  - exists []. split_and!; [done|done|]. by intros ? [= <-].
Qed.

Lemma text_rstrip_spec s :
  ∃ r, s = PyText.rstrip isspace s ++ r
    ∧ Forall (λ a, isspace a = true) r
    ∧ ∀ a, last (PyText.rstrip isspace s) = Some a → isspace a = false.
Proof.
  induction s as [|a s (r & Hs & Hr & Hlast)]; [by exists []|].
  cbn [PyText.rstrip]. destruct (PyText.rstrip isspace s) as [|b q] eqn:Hq.
  - destruct (isspace a) eqn:Ha.
    + exists (a :: r). split_and!; [by rewrite Hs at 1|by constructor|done].
    + exists r. split_and!; [by rewrite Hs at 1|done|]. by intros ? [= <-].
  - exists r. split_and!; [by rewrite Hs at 1|done|].
    intros a'. rewrite last_cons_cons. apply Hlast.
Qed.

(** Trimming as the code does it is trimming as the spec says it. *)
Lemma text_strip_spec p : trimmed_to isspace p (PyText.strip isspace p).
Proof.
  unfold PyText.strip.
  destruct (text_rstrip_spec p) as (r & Hp & Hr & Hlast).
  destruct (text_lstrip_spec (PyText.rstrip isspace p)) as (l & Hq & Hl & Hhead).
  exists l, r. split_and!; [|done..|].
  - rewrite Hp at 1. rewrite Hq at 1. by rewrite <- app_assoc.
  - intros a Ha. apply Hlast. rewrite Hq, last_app, Ha. done.
Qed.

(** Splitting on one character as the code does it is cutting at every
    occurrence of the delimiter. *)
Lemma text_split_char d s : split_at d s (PyText.split_go [d] 0 s).
Proof.
  induction s as [|a s (Hne & Hjoin & Hfree)].
  { split_and!; [done|done|]. repeat constructor. by intros ?%elem_of_nil. }
  cbn [PyText.split_go PyText.startswith length Nat.sub].
  destruct (decide (d = a)) as [<-|Hda].
  - split_and!; [done| |].
    + cbn [joined]. destruct (PyText.split_go [d] 0 s); [done|]. by rewrite Hjoin.
    + constructor; [by intros ?%elem_of_nil|done].
  - destruct (PyText.split_go [d] 0 s) as [|p ps]; [done|].
    apply Forall_cons in Hfree as [Hp Hps]. split_and!; [done| |].
    + rewrite <- Hjoin. cbn [joined]. by destruct ps.
    + constructor; [|done]. intros [?|?]%elem_of_cons; by simplify_eq.
Qed.

Lemma text_filter_strip (l : list (list C)) :
  PyText.strip isspace <$> filter (λ p, PyText.strip isspace p ≠ []) l
  = filter (λ t, t ≠ []) (PyText.strip isspace <$> l).
Proof.
  induction l as [|p l IH]; [done|].
  rewrite fmap_cons, !filter_cons. case_decide; [by rewrite fmap_cons, IH|done].
Qed.

Lemma text_tokens {V} (isna : V → bool) (str : V → list C) (x : V) d :
  ∃ toks,
    PyText._split_to_list isspace isna str x [d] = inr toks
    ∧ (isna x = true → toks = [])
    ∧ (isna x = false → tokens_of isspace d (str x) toks).
Proof.
  unfold PyText._split_to_list. destruct (isna x).
  { exists []. by split_and!. }
  cbn [PyText.split]. rewrite result_bind_inr. eexists. split; [done|].
  split; [done|]. intros _.
  exists (PyText.split_go [d] 0 (str x)),
    (PyText.strip isspace <$> PyText.split_go [d] 0 (str x)).
  split_and!.
  - apply text_split_char.
  - apply Forall2_fmap_r, Forall_Forall2_diag, Forall_forall. intros p _.
    apply text_strip_spec.
  - apply text_filter_strip.
Qed.

Lemma trimmed_to_ext (isspace' : C → bool) p t :
  (∀ a, isspace a = isspace' a) → trimmed_to isspace p t → trimmed_to isspace' p t.
Proof.
  intros Hext (l & r & Hp & Hl & Hr & Hhead & Hlast). exists l, r.
  split_and!; [done| | | |].
  - eapply Forall_impl; [exact Hl|]. intros a Ha. cbn in *. by rewrite <- Hext.
  - eapply Forall_impl; [exact Hr|]. intros a Ha. cbn in *. by rewrite <- Hext.
  - intros a Ha. rewrite <- Hext. by apply Hhead.
  - intros a Ha. rewrite <- Hext. by apply Hlast.
Qed.

Lemma tokens_of_ext (isspace' : C → bool) d s toks :
  (∀ a, isspace a = isspace' a) →
  tokens_of isspace d s toks → tokens_of isspace' d s toks.
Proof.
  intros Hext (pieces & trimmed & Hsplit & Htrim & Htoks).
  exists pieces, trimmed. split_and!; [done| |done].
  eapply Forall2_impl; [exact Htrim|]. intros p t. by apply trimmed_to_ext.
Qed.

End text_facts.

(** ** The cells and strings of this development *)

Lemma chars_inj (s t : string) : chars s = chars t → s = t.
Proof.
  intros H. rewrite <- (string_of_list_ascii_of_string s), H.
  apply string_of_list_ascii_of_string.
Qed.

Lemma chars_length (s : string) : length (chars s) = String.length s.
Proof. induction s as [|a s IH]; [done|]. cbn. by rewrite IH. Qed.

Lemma chars_lstrip (s : string) :
  chars (PyStr.lstrip s) = PyText.lstrip PyStr.isspace (chars s).
Proof.
  induction s as [|a s IH]; [done|]. cbn [PyStr.lstrip list_ascii_of_string PyText.lstrip].
  by destruct (PyStr.isspace a).
Qed.

Lemma chars_rstrip (s : string) :
  chars (PyStr.rstrip s) = PyText.rstrip PyStr.isspace (chars s).
Proof.
  induction s as [|a s IH]; [done|].
  cbn [PyStr.rstrip list_ascii_of_string PyText.rstrip]. rewrite <- IH.
  destruct (PyStr.rstrip s); cbn [list_ascii_of_string]; [|done].
  by destruct (PyStr.isspace a).
Qed.

Lemma chars_strip (s : string) :
  chars (PyStr.strip s) = PyText.strip PyStr.isspace (chars s).
Proof. unfold PyStr.strip, PyText.strip. by rewrite chars_lstrip, chars_rstrip. Qed.

Lemma chars_startswith (p s : string) :
  PyStr.startswith p s = PyText.startswith (chars p) (chars s).
Proof.
  revert s. induction p as [|a p IH]; intros [|b s]; try done.
  cbn [PyStr.startswith list_ascii_of_string PyText.startswith]. by rewrite IH.
Qed.

Lemma chars_split_go (sep : string) (skip : nat) (s : string) :
  chars <$> PyStr.split_go sep skip s = PyText.split_go (chars sep) skip (chars s).
Proof.
  revert skip. induction s as [|a s IH]; intros skip; [done|].
  cbn [PyStr.split_go list_ascii_of_string PyText.split_go].
  destruct skip as [|k]; [|apply IH].
  change (a :: chars s) with (chars (String a s)).
  rewrite <- chars_startswith, chars_length.
  destruct (PyStr.startswith sep (String a s)).
  - by rewrite fmap_cons, IH.
  - rewrite <- IH. by destruct (PyStr.split_go sep 0 s).
Qed.

(** [_split_to_list] is the tokenizer above on the cells and strings of
    this development. *)
Lemma split_to_list_chars (x : Cell) (sep : string) :
  fmap (fmap chars) (_split_to_list x sep)
  = PyText._split_to_list PyStr.isspace isna (λ x, chars (py_str x)) x (chars sep).
Proof.
  unfold _split_to_list, PyText._split_to_list. destruct (isna x); [done|].
  unfold py_split, PyText.split. destruct sep as [|c sep]; [done|].
  cbn [list_ascii_of_string]. rewrite !result_bind_inr.
  change (c :: chars sep) with (chars (String c sep)). rewrite <- chars_split_go.
  cbn [fmap result_fmap mret result_ret]. f_equal.
  induction (PyStr.split_go (String c sep) 0 (py_str x)) as [|p l IH]; [done|].
  rewrite fmap_cons, !filter_cons.
  destruct (decide (PyStr.strip p ≠ EmptyString)) as [Hp|Hp].
  - rewrite decide_True.
    + rewrite !fmap_cons, IH. by rewrite chars_strip.
    + rewrite <- chars_strip. intros H. apply Hp. by apply chars_inj.
  - rewrite decide_False; [done|]. apply dec_stable in Hp.
    rewrite <- chars_strip, Hp. by intros ?.
Qed.

Lemma isspace_white_space (a : ascii) :
  PyStr.isspace a = bool_decide (nat_of_ascii a ∈ white_space).
Proof. by destruct a as [[] [] [] [] [] [] [] []]; vm_compute. Qed.

(** C6.  The tokenizer is total.  Whatever the values a cell can hold and
    whatever the characters, [_split_to_list] with a one-character
    delimiter raises nothing and returns: for a missing value, no token;
    for any other value, the tokens of its string form, which are the
    pieces between the occurrences of the delimiter (joined by the
    delimiter they give the string back, and none holds the delimiter),
    each without the white space at its two ends, those that are empty
    once trimmed left out.  On the cells of this development, with the
    code points below 256 as characters, this reads: a missing cell gives
    no token, a string gives the tokens of the string itself, an integer
    those of its decimal numeral. *)
Theorem tokenizer_total :
  (∀ (C V : Type) (eq_dec : EqDecision C) (isspace : C → bool) (isna : V → bool)
      (str : V → list C) (x : V) (delimiter : C),
     ∃ toks,
       PyText._split_to_list isspace isna str x [delimiter] = inr toks
       ∧ (isna x = true → toks = [])
       ∧ (isna x = false → tokens_of isspace delimiter (str x) toks))
  ∧ (∀ (x : Cell) (delimiter : ascii),
       ∃ toks,
         _split_to_list x (String delimiter EmptyString) = inr toks
         ∧ match x with
           | NA => toks = []
           | Str s =>
               tokens_of (λ a, bool_decide (nat_of_ascii a ∈ white_space)) delimiter
                 (chars s) (chars <$> toks)
           | Int z =>
               tokens_of (λ a, bool_decide (nat_of_ascii a ∈ white_space)) delimiter
                 (chars (NilZero.string_of_int (Z.to_int z))) (chars <$> toks)
           end).
Proof.
  split.
  { intros C V eq_dec isspace isna str x delimiter. apply text_tokens. }
  intros x delimiter.
  destruct (text_tokens PyStr.isspace isna (λ x, chars (py_str x)) x delimiter)
    as (toksC & Hrun & Hna & Htoks).
  change [delimiter] with (chars (String delimiter EmptyString)) in Hrun.
  rewrite <- split_to_list_chars in Hrun.
  destruct (_split_to_list x (String delimiter EmptyString)) as [e|toks]; [done|].
  injection Hrun as <-. exists toks. split; [done|].
  destruct x as [|s|z].
  - specialize (Hna eq_refl). by apply fmap_nil_inv in Hna.
  - apply (tokens_of_ext PyStr.isspace); [apply isspace_white_space|]. by apply Htoks.
  - apply (tokens_of_ext PyStr.isspace); [apply isspace_white_space|]. by apply Htoks.
Qed.

(** * Frames *)

Section frames.
Context {A : Type}.
Implicit Types (l : list (string * Series A)) (s : Series A) (c k : string) (df : DataFrame A).

Lemma lookup_set_column c c' s l :
  lookup_column c' (set_column c s l) = if decide (c = c') then Some s else lookup_column c' l.
Proof.
  induction l as [|[k s'] l IH]; cbn [set_column lookup_column].
  - by case_decide.
  - destruct (decide (k = c)) as [->|Hkc]; cbn [lookup_column].
    + by case_decide.
    + destruct (decide (k = c')) as [->|Hkc']; [by rewrite decide_False|done].
Qed.

Lemma fst_set_column c s l :
  (set_column c s l).*1 = if decide (c ∈ l.*1) then l.*1 else l.*1 ++ [c].
Proof.
  induction l as [|[k s'] l IH]; cbn [set_column fmap list_fmap].
  - rewrite decide_False; [done|]. by intros ?%elem_of_nil.
  - destruct (decide (k = c)) as [->|Hne]; rewrite !fmap_cons; cbn [fst].
    + rewrite decide_True; [done|]. by left.
    + rewrite IH. destruct (decide (c ∈ l.*1)) as [Hin|Hnin].
      * rewrite decide_True; [done|]. by right.
      * rewrite decide_False; [done|]. intros [?|?]%elem_of_cons; by simplify_eq.
Qed.

Lemma lookup_column_is_Some c l : is_Some (lookup_column c l) ↔ c ∈ l.*1.
Proof.
  induction l as [|[k s'] l IH]; cbn [lookup_column].
  - split; [by intros [? ?]|by intros ?%elem_of_nil].
  - rewrite fmap_cons. cbn [fst]. case_decide; simplify_eq.
    + split; [by left|by eexists].
    + rewrite IH. split; [by right|]. intros [?|?]%elem_of_cons; by simplify_eq.
Qed.

Lemma lookup_column_elem_of c s l : lookup_column c l = Some s → (c, s) ∈ l.
Proof.
  induction l as [|[k s'] l IH]; cbn [lookup_column]; [done|].
  case_decide; simplify_eq.
  - intros [= ->]. by left.
  - intros ?. right. by apply IH.
Qed.

Lemma elem_of_lookup_column c s l : NoDup l.*1 → (c, s) ∈ l → lookup_column c l = Some s.
Proof.
  induction l as [|[k s'] l IH]; cbn [lookup_column]; [by intros _ ?%elem_of_nil|].
  rewrite fmap_cons. cbn [fst].
  intros [Hk Hnd]%NoDup_cons [Heq|Hin]%elem_of_cons.
  - simplify_eq. by rewrite decide_True.
  - rewrite decide_False; [by apply IH|].
    intros ->. apply Hk. apply list_elem_of_fmap. by exists (c, s).
Qed.

Lemma lookup_column_fmap {B} (g : string → Series A → Series B) c l :
  lookup_column c ((λ e, (e.1, g e.1 e.2)) <$> l) = g c <$> lookup_column c l.
Proof.
  induction l as [|[k s'] l IH]; [done|].
  rewrite fmap_cons. cbn [lookup_column fst snd].
  case_decide; by simplify_eq/=.
Qed.

Lemma lookup_column_filter_ne c k l :
  lookup_column c (filter (λ e, e.1 ≠ k) l) = if decide (c = k) then None else lookup_column c l.
Proof.
  induction l as [|[k' s'] l IH]; cbn [lookup_column].
  - by case_decide.
  - rewrite filter_cons. cbn [fst].
    destruct (decide (k' ≠ k)) as [Hk|Hk]; cbn [lookup_column].
    + rewrite IH. destruct (decide (k' = c)) as [->|?]; [by rewrite decide_False|done].
    + apply dec_stable in Hk as ->. rewrite IH.
      destruct (decide (c = k)) as [->|?]; [done|]. by rewrite decide_False.
Qed.

Lemma df_getitem_setitem df c c' s :
  df_getitem (df_setitem df c s) c' = if decide (c = c') then inr s else df_getitem df c'.
Proof.
  unfold df_getitem, df_setitem. simpl. rewrite lookup_set_column. by case_decide.
Qed.

Lemma df_columns_setitem df c s :
  df_columns (df_setitem df c s) =
    if decide (c ∈ df_columns df) then df_columns df else df_columns df ++ [c].
Proof. apply fst_set_column. Qed.

Lemma df_getitem_inr_columns df c s : df_getitem df c = inr s → c ∈ df_columns df.
Proof.
  unfold df_getitem. destruct (lookup_column c (cols df)) eqn:E; [|done].
  intros _. apply lookup_column_is_Some. by eexists.
Qed.

Lemma df_columns_getitem df c : c ∈ df_columns df → ∃ s, df_getitem df c = inr s.
Proof.
  intros [s Hs]%lookup_column_is_Some. exists s. unfold df_getitem. by rewrite Hs.
Qed.

Lemma df_getitem_absent df c : c ∉ df_columns df → df_getitem df c = inl (KeyError c).
Proof.
  intros Hc. unfold df_getitem. destruct (lookup_column c (cols df)) eqn:E; [|done].
  destruct Hc. apply lookup_column_is_Some. by eexists.
Qed.

Lemma wf_frame_length df c s : wf_frame df → df_getitem df c = inr s → length (values s) = nrows df.
Proof.
  intros [_ Hlen]. unfold df_getitem.
  destruct (lookup_column c (cols df)) eqn:E; [|done]. intros [= ->].
  apply lookup_column_elem_of in E. rewrite Forall_forall in Hlen. by apply (Hlen _ E).
Qed.

End frames.

(** * The column classifier *)

Lemma length_filter_fmap_bool {A} (f : A → bool) (l : list A) :
  length (filter Is_true (f <$> l)) = length (filter (λ x, Is_true (f x)) l).
Proof.
  induction l as [|x l IH]; [done|].
  rewrite fmap_cons, !filter_cons. destruct (f x); simpl; by rewrite IH.
Qed.

Lemma detect_loop_run σ df d sep min_share cands acc :
  σ !! df = Some d →
  (∀ c, c ∈ cands → c ∈ df_columns d) →
  foldM (λ flagged c,
           s ← getitem df c;
           let share := share_of s sep in
           mret (if Qle_bool min_share share then flagged ++ [c] else flagged))
    acc cands σ
  = (inr (acc ++ filter (λ c, Is_true (Qle_bool min_share (column_share d sep c))) cands), σ).
Proof.
  intros Hd%lookup_total_Some. revert acc.
  induction cands as [|c cands IH]; intros acc Hin.
  { cbn [foldM]. by rewrite filter_nil, app_nil_r. }
  cbn [foldM]. rewrite bind_run, bind_run, getitem_run, Hd.
  destruct (df_columns_getitem d c) as [s Hs]; [apply Hin; by left|].
  rewrite Hs, ret_run. rewrite IH by (intros ??; apply Hin; by right).
  assert (column_share d sep c = share_of s sep) as Hcs
    by (unfold column_share; by rewrite Hs).
  rewrite filter_cons, Hcs.
  destruct (Qle_bool min_share (share_of s sep)).
  - rewrite decide_True by done. by rewrite <- app_assoc.
  - by rewrite decide_False by (by intros ?).
Qed.

(** C9, as amended.  [detect_multivalue_columns] returns, in the order of
    the candidates, the columns whose share is at least [min_share], and
    leaves the store as it is.  The share of a column is the fraction of
    its non-missing values whose string form contains the delimiter; a
    column without any non-missing value has share 0, and is flagged
    exactly when [min_share ≤ 0]. *)
Theorem detect_flags_by_share (σ : Store) (df : ref) (d : DataFrame Cell)
    (candidate_columns : option (list string)) (sep : string) (min_share : Q) :
  σ !! df = Some d →
  let cands := match candidate_columns with
               | Some cs => cs
               | None => (filter (λ e, dtype e.2 = object) (cols d)).*1
               end in
  (∀ c, c ∈ cands → c ∈ df_columns d) →
  detect_multivalue_columns df candidate_columns sep min_share σ
    = (inr (filter (λ c, Is_true (Qle_bool min_share (column_share d sep c))) cands), σ)
  ∧ ∀ c s, df_getitem d c = inr s →
      let present := filter (λ x, isna x = false) (values s) in
      let hits := filter (λ x, Is_true (PyStr.contains sep (py_str x))) present in
      (present ≠ [] →
         column_share d sep c = Z.of_nat (length hits) # Pos.of_nat (length present))
      ∧ (present = [] →
         column_share d sep c = 0%Q
         ∧ (Is_true (Qle_bool min_share (column_share d sep c)) ↔ (min_share <= 0)%Q)).
Proof.
  intros Hd cands Hin. split.
  - unfold detect_multivalue_columns. rewrite bind_run. unfold load at 1.
    rewrite (lookup_total_Some _ _ _ Hd).
    exact (detect_loop_run σ df d sep min_share cands [] Hd Hin).
  - intros c s Hs present hits. unfold column_share. rewrite Hs. unfold share_of.
    assert (filter (λ x, ¬ Is_true (isna x)) (values s) = present) as ->.
    { apply list_filter_iff. intros x. destruct (isna x); naive_solver. }
    rewrite length_fmap. split.
    + intros Hne. rewrite decide_False by (by destruct present).
      unfold mean. rewrite length_fmap, <- list_fmap_compose.
      by rewrite length_filter_fmap_bool, length_fmap.
    + intros ->. simpl. split; [done|]. by rewrite Is_true_true, Qle_bool_iff.
Qed.

(** * The indicator materializer *)

Lemma count_tokens_inner (t : string) (L : list string) (m : gmap string nat) (n : nat) :
  m !! t = (if decide (n = 0) then None else Some n) →
  foldl (λ counts x, <[x := default 0 (counts !! x) + 1]> counts) m L !! t
  = (if decide (n + occurrences t L = 0) then None else Some (n + occurrences t L)).
Proof.
  revert m n. induction L as [|x L IH]; intros m n Hm.
  { unfold occurrences. rewrite filter_nil. simpl. by rewrite Nat.add_0_r. }
  cbn [foldl]. unfold occurrences. rewrite filter_cons.
  destruct (decide (x = t)) as [->|Hne].
  - rewrite (IH _ (n + 1)).
    + unfold occurrences. cbn [length].
      by rewrite <- Nat.add_assoc.
    + rewrite lookup_insert_eq, Hm.
      rewrite (decide_False (P:=n + 1 = 0)) by lia. f_equal. by case_decide; subst.
  - rewrite (IH _ n); [done|]. by rewrite lookup_insert_ne.
Qed.

Lemma count_tokens_outer (t : string) (tokens : list (list string)) (m : gmap string nat) (n : nat) :
  m !! t = (if decide (n = 0) then None else Some n) →
  foldl (λ counts L, foldl (λ counts x, <[x := default 0 (counts !! x) + 1]> counts) counts L)
    m tokens !! t
  = (if decide (n + occurrences t (mjoin tokens) = 0) then None
     else Some (n + occurrences t (mjoin tokens))).
Proof.
  revert m n. induction tokens as [|L tokens IH]; intros m n Hm.
  { unfold occurrences. simpl. by rewrite Nat.add_0_r. }
  cbn [foldl]. rewrite (IH _ (n + occurrences t L)) by by apply count_tokens_inner.
  unfold occurrences. change (mjoin (L :: tokens)) with (L ++ mjoin tokens).
  rewrite filter_app, length_app.
  by rewrite Nat.add_assoc.
Qed.

(** The frequency table holds, for every token, the number of its
    occurrences in the whole column, and nothing else. *)
Lemma count_tokens_lookup (tokens : list (list string)) (t : string) :
  count_tokens tokens !! t
  = (if decide (occurrences t (mjoin tokens) = 0) then None
     else Some (occurrences t (mjoin tokens))).
Proof. by apply (count_tokens_outer t tokens ∅ 0). Qed.

Lemma occurrences_pos (t : string) (l : list string) : 0 < occurrences t l ↔ t ∈ l.
Proof.
  unfold occurrences. split.
  - intros Hpos. destruct (filter (λ x, x = t) l) as [|x l'] eqn:E; [simpl in Hpos; lia|].
    assert (x ∈ filter (λ x, x = t) l) as Hx by (rewrite E; by left).
    apply list_elem_of_filter in Hx as [-> ?]. done.
  - intros Hin. assert (t ∈ filter (λ x, x = t) l) as Hx by by apply list_elem_of_filter.
    destruct (filter (λ x, x = t) l); [by apply elem_of_nil in Hx|simpl; lia].
Qed.

Lemma elem_of_kept_tokens (counts : gmap string nat) (min_count : Z) (t : string) :
  t ∈ kept_tokens counts min_count ↔ ∃ c, counts !! t = Some c ∧ (min_count ≤ Z.of_nat c)%Z.
Proof.
  unfold kept_tokens. rewrite merge_sort_Permutation, elem_of_elements, elem_of_dom.
  unfold is_Some. setoid_rewrite map_lookup_filter_Some. naive_solver.
Qed.

Lemma kept_tokens_sorted (counts : gmap string nat) (min_count : Z) :
  StronglySorted String.le (kept_tokens counts min_count) ∧ NoDup (kept_tokens counts min_count).
Proof.
  unfold kept_tokens. split.
  - apply (StronglySorted_merge_sort _).
  - rewrite merge_sort_Permutation. apply NoDup_elements.
Qed.

(** Assignments in a row: what they leave of a frame. *)
Section assignments.
Context {A T : Type} (name : T → string) (val : T → Series A).
Implicit Types (d : DataFrame A) (l : list T).

Lemma assign_all_cons d t l :
  assign_all name val d (t :: l) = assign_all name val (df_setitem d (name t) (val t)) l.
Proof. done. Qed.

Lemma assign_all_app d l1 l2 :
  assign_all name val d (l1 ++ l2) = assign_all name val (assign_all name val d l1) l2.
Proof. apply foldl_app. Qed.

Lemma assign_all_untouched d l c :
  (∀ t, t ∈ l → name t ≠ c) → df_getitem (assign_all name val d l) c = df_getitem d c.
Proof.
  revert d. induction l as [|t l IH]; intros d Hl; [done|].
  rewrite assign_all_cons, IH by (intros ??; apply Hl; by right).
  rewrite df_getitem_setitem, decide_False; [done|]. apply Hl. by left.
Qed.

Lemma assign_all_last d l1 t l2 :
  (∀ t', t' ∈ l2 → name t' ≠ name t) →
  df_getitem (assign_all name val d (l1 ++ t :: l2)) (name t) = inr (val t).
Proof.
  intros Hl2. rewrite assign_all_app, assign_all_cons.
  rewrite (assign_all_untouched _ l2) by done.
  by rewrite df_getitem_setitem, decide_True.
Qed.

Lemma assign_all_nrows d l : nrows (assign_all name val d l) = nrows d.
Proof.
  revert d. induction l as [|t l IH]; intros d; [done|]. by rewrite assign_all_cons, IH.
Qed.

Lemma assign_all_columns d l :
  ∃ new, df_columns (assign_all name val d l) = df_columns d ++ new.
Proof.
  revert d. induction l as [|t l IH]; intros d.
  { exists []. by rewrite app_nil_r. }
  rewrite assign_all_cons. destruct (IH (df_setitem d (name t) (val t))) as [new Hnew].
  rewrite Hnew, df_columns_setitem. case_decide.
  - by exists new.
  - exists (name t :: new). by rewrite <- app_assoc.
Qed.

End assignments.

Lemma foldM_setitem_assign_all {T} (name : T → string) (val : T → Series Cell)
    (l : list T) (d : DataFrame Cell) (σ : Store) :
  foldM (λ _ t, setitem (length σ) (name t) (val t)) () l (σ ++ [d])
  = (inr (), σ ++ [assign_all name val d l]).
Proof. apply foldM_setitem_run. Qed.

Lemma one_hot_column_run (σ : Store) (d : DataFrame Cell) sep min_count prefix_map col :
  one_hot_column (length σ) sep min_count prefix_map col (σ ++ [d]) =
    match add_indicators d sep min_count prefix_map col with
    | inr d' => (inr (), σ ++ [d'])
    | inl e => (inl e, σ ++ [d])
    end.
Proof.
  unfold one_hot_column, add_indicators.
  rewrite bind_run, getitem_run, lookup_total_fresh.
  destruct (df_getitem d col) as [e|s]; [done|].
  rewrite bind_run, lift_run, result_bind_inr.
  destruct (tokenize_series s sep) as [e|tokens]; [done|].
  rewrite result_bind_inr. apply foldM_setitem_assign_all.
Qed.

Lemma add_indicators_inr d sep min_count prefix_map col d' :
  add_indicators d sep min_count prefix_map col = inr d' →
  ∃ s tokens, df_getitem d col = inr s ∧ tokenize_series s sep = inr tokens
    ∧ d' = assign_all (col_name (default col (prefix_map !! col))) (indicator tokens) d
             (kept_tokens (count_tokens tokens) min_count).
Proof.
  unfold add_indicators. destruct (df_getitem d col) as [e|s] eqn:Hs; [done|].
  rewrite result_bind_inr. destruct (tokenize_series s sep) as [e|tokens] eqn:Ht; [done|].
  rewrite result_bind_inr. intros [= <-]. by exists s, tokens.
Qed.

(** The loop over [columns] changes the copy only, by assignments to
    indicator names. *)
Lemma one_hot_loop_run (σ : Store) sep min_count prefix_map columns (d : DataFrame Cell) :
  ∃ res d',
    foldM (λ _ col, one_hot_column (length σ) sep min_count prefix_map col) () columns (σ ++ [d])
      = (res, σ ++ [d'])
    ∧ nrows d' = nrows d
    ∧ (∃ new, df_columns d' = df_columns d ++ new)
    ∧ (∀ c, (∀ col t, col ∈ columns → c ≠ col_name (default col (prefix_map !! col)) t) →
         df_getitem d' c = df_getitem d c).
Proof.
  revert d. induction columns as [|col columns IH]; intros d.
  { exists (inr ()), d. split_and!; [done..| |done]. exists []. by rewrite app_nil_r. }
  cbn [foldM]. rewrite bind_run, one_hot_column_run.
  destruct (add_indicators d sep min_count prefix_map col) as [e|d1] eqn:Hadd.
  { exists (inl e), d. split_and!; [done..| |done]. exists []. by rewrite app_nil_r. }
  apply add_indicators_inr in Hadd as (s & tokens & Hs & Htok & ->).
  destruct (IH (assign_all (col_name (default col (prefix_map !! col))) (indicator tokens) d
             (kept_tokens (count_tokens tokens) min_count)))
    as (res & d' & Hrun & Hrows & [new Hcols] & Hget).
  exists res, d'. split_and!.
  - done.
  - by rewrite Hrows, assign_all_nrows.
  - destruct (assign_all_columns (col_name (default col (prefix_map !! col))) (indicator tokens) d
               (kept_tokens (count_tokens tokens) min_count)) as [new' Hnew'].
    exists (new' ++ new). by rewrite Hcols, Hnew', app_assoc.
  - intros c Hc. rewrite Hget by (intros ???; apply Hc; by right).
    apply assign_all_untouched. intros t _ Heq. by apply (Hc col t); [left|].
Qed.

Lemma one_hot_run (σ : Store) df columns sep min_count prefix_map :
  one_hot_multivalue_columns df columns sep min_count prefix_map σ =
    match foldM (λ _ col, one_hot_column (length σ) sep min_count (default ∅ prefix_map) col)
            () columns (σ ++ [σ !!! df]) with
    | (inr _, σ') => (inr (length σ), σ')
    | (inl e, σ') => (inl e, σ')
    end.
Proof.
  unfold one_hot_multivalue_columns. rewrite bind_run, copy_run, bind_run.
  by destruct (@foldM M _ _ _ _ _ _ _ _) as [[e|[]] σ'].
Qed.

Lemma replace_space_length (s : string) :
  String.length (PyStr.replace_space s) = String.length s.
Proof. induction s as [|a s IH]; [done|]. cbn. by rewrite IH. Qed.

Lemma replace_space_get (s : string) (i : nat) :
  String.get i (PyStr.replace_space s)
  = match String.get i s with
    | Some a => Some (if decide (a = " "%char) then "_"%char else a)
    | None => None
    end.
Proof.
  revert i. induction s as [|a s IH]; intros i; [done|].
  destruct i as [|i]; [done|]. cbn. apply IH.
Qed.

Lemma assign_all_name_in_columns {A T} (name : T → string) (val : T → Series A)
    (d : DataFrame A) (l : list T) (t : T) :
  t ∈ l → name t ∈ df_columns (assign_all name val d l).
Proof.
  intros (l1 & l2 & ->)%list_elem_of_split.
  rewrite assign_all_app, assign_all_cons.
  destruct (assign_all_columns name val
              (df_setitem (assign_all name val d l1) (name t) (val t)) l2) as [new ->].
  apply elem_of_app. left. rewrite df_columns_setitem.
  case_decide; [done|]. apply elem_of_app. right. by left.
Qed.


(** * The explosion transform: the store *)

Lemma split_columns_loop_run (σ : Store) out columns sep (m : gmap string (list (list string))) :
  foldM (λ d c,
           s ← getitem out c;
           toks ← lift (tokenize_series s sep);
           mret (<[c:=toks]> d))
    m columns σ
  = (foldM (λ m c,
              s ← df_getitem (σ !!! out) c;
              toks ← tokenize_series s sep;
              mret (<[c:=toks]> m))
       m columns, σ).
Proof.
  revert m. induction columns as [|c columns IH]; intros m; [done|].
  cbn [foldM]. rewrite bind_run, bind_run, getitem_run.
  destruct (df_getitem (σ !!! out) c) as [e|s]; [done|].
  rewrite bind_run, lift_run, !result_bind_inr.
  destruct (tokenize_series s sep) as [e|toks]; [done|].
  rewrite ret_run, !result_bind_inr. apply IH.
Qed.

Lemma split_columns_run (σ : Store) out columns sep :
  split_columns out columns sep σ = (split_cols_of (σ !!! out) columns sep, σ).
Proof. apply split_columns_loop_run. Qed.

(** The transform copies its argument, reads the copy, and builds its
    result from what it read. *)
Lemma explode_run (σ : Store) df columns sep keep strict :
  explode_aligned_columns df columns sep keep strict σ
  = (explode_frame (σ !!! df) columns sep keep strict, σ ++ [σ !!! df]).
Proof.
  unfold explode_aligned_columns, explode_frame.
  rewrite bind_run, copy_run, bind_run, split_columns_run, lookup_total_fresh.
  destruct (split_cols_of (σ !!! df) columns sep) as [e|split_cols]; [done|].
  rewrite bind_run, len_run, lookup_total_fresh, bind_run, lift_run, !result_bind_inr.
  destruct (mapM _ _) as [e|combined]; [done|].
  by rewrite bind_run, load_run, lookup_total_fresh, lift_run, result_bind_inr.
Qed.

Lemma detect_loop_store (σ : Store) df sep min_share cands acc :
  (foldM (λ flagged c,
            s ← getitem df c;
            let share := share_of s sep in
            mret (if Qle_bool min_share share then flagged ++ [c] else flagged))
     acc cands σ).2 = σ.
Proof.
  revert acc. induction cands as [|c cands IH]; intros acc; [done|].
  cbn [foldM]. rewrite bind_run, bind_run, getitem_run.
  destruct (df_getitem (σ !!! df) c) as [e|s]; [done|].
  rewrite ret_run. apply IH.
Qed.

Lemma detect_store (σ : Store) df cc sep min_share :
  (detect_multivalue_columns df cc sep min_share σ).2 = σ.
Proof.
  unfold detect_multivalue_columns. rewrite bind_run, load_run. apply detect_loop_store.
Qed.


(** * Results: loops that may raise *)

Section result_loops.
Context {A B : Type}.
Implicit Types (f : A → result B) (l : list A) (k : list B).

Lemma mapM_result_cons f x l :
  mapM f (x :: l) = y ← f x; k ← mapM f l; mret (y :: k).
Proof. done. Qed.

Lemma mapM_result_inr f l k :
  mapM f l = inr k ↔ Forall2 (λ x y, f x = inr y) l k.
Proof.
  revert k. induction l as [|x l IH]; intros k.
  - split; [intros [= <-]; constructor|by inversion 1].
  - rewrite mapM_result_cons. split.
    + destruct (f x) as [e|y] eqn:Hx; [done|]. rewrite result_bind_inr.
      destruct (mapM f l) as [e|k'] eqn:Hl; [done|]. rewrite result_bind_inr.
      intros [= <-]. constructor; [done|]. by apply IH.
    + inversion 1 as [|???? Hx Hl]; subst. rewrite Hx, result_bind_inr.
      apply IH in Hl. by rewrite Hl.
Qed.

Lemma mapM_result_total f l :
  (∀ x, x ∈ l → ∃ y, f x = inr y) → ∃ k, mapM f l = inr k.
Proof.
  induction l as [|x l IH]; intros Hl; [by eexists|].
  destruct (Hl x) as [y Hy]; [by left|].
  destruct IH as [k Hk]; [intros ??; apply Hl; by right|].
  exists (y :: k). by rewrite mapM_result_cons, Hy, result_bind_inr, Hk.
Qed.

(** The first element on which the body raises decides the loop. *)
Lemma mapM_result_first_error f l1 x l2 e :
  (∀ y, y ∈ l1 → ∃ z, f y = inr z) → f x = inl e → mapM f (l1 ++ x :: l2) = inl e.
Proof.
  induction l1 as [|y l1 IH]; intros Hl1 Hx.
  - cbn [app]. by rewrite mapM_result_cons, Hx.
  - cbn [app]. rewrite mapM_result_cons.
    destruct (Hl1 y) as [z Hz]; [by left|]. rewrite Hz, result_bind_inr.
    rewrite IH; [done| |done]. intros ??; apply Hl1; by right.
Qed.

Lemma mapM_result_ext f (g : A → result B) l :
  (∀ x, x ∈ l → f x = g x) → mapM f l = mapM g l.
Proof.
  induction l as [|x l IH]; intros Hl; [done|].
  rewrite !mapM_result_cons, (Hl x), IH; [done| |by left].
  intros ??; apply Hl; by right.
Qed.

Lemma mapM_result_length f l k : mapM f l = inr k → length k = length l.
Proof. intros H%mapM_result_inr. symmetry. by eapply Forall2_length. Qed.

Lemma mapM_result_lookup f l k i x :
  mapM f l = inr k → l !! i = Some x → ∃ y, k !! i = Some y ∧ f x = inr y.
Proof.
  intros H%mapM_result_inr Hi.
  destruct (Forall2_lookup_l _ _ _ _ _ H Hi) as (y & ? & ?). eauto.
Qed.

End result_loops.

Lemma foldM_result_app {A B} (f : A → B → result A) (a : A) (l1 l2 : list B) :
  foldM f a (l1 ++ l2) = a' ← foldM f a l1; foldM f a' l2.
Proof.
  revert a. induction l1 as [|x l1 IH]; intros a; [done|].
  cbn [foldM app]. destruct (f a x) as [e|a']; [done|]. rewrite !result_bind_inr. apply IH.
Qed.

(** * The tokens of a column *)

Lemma tokenize_series_total (s : Series Cell) (sep : string) :
  sep ≠ EmptyString → ∃ toks, tokenize_series s sep = inr toks.
Proof.
  intros Hsep. apply mapM_result_total. intros x _. by apply split_to_list_total.
Qed.

Lemma tokenize_series_length (s : Series Cell) (sep : string) toks :
  tokenize_series s sep = inr toks → length toks = length (values s).
Proof. apply mapM_result_length. Qed.

Lemma column_tokens_total (d : DataFrame Cell) (sep c : string) :
  sep ≠ EmptyString → c ∈ df_columns d → ∃ toks, column_tokens d sep c = inr toks.
Proof.
  intros Hsep [s Hs]%df_columns_getitem. unfold column_tokens. rewrite Hs, result_bind_inr.
  by apply tokenize_series_total.
Qed.

Lemma column_tokens_length (d : DataFrame Cell) (sep c : string) toks :
  wf_frame d → column_tokens d sep c = inr toks → length toks = nrows d.
Proof.
  intros Hwf. unfold column_tokens. destruct (df_getitem d c) as [e|s] eqn:Hs; [done|].
  rewrite result_bind_inr. intros Ht%tokenize_series_length.
  by rewrite Ht, (wf_frame_length d c s).
Qed.

(** The dict of line 106 holds the token lists of every selected column. *)
Lemma split_cols_loop (d : DataFrame Cell) (sep : string) (columns : list string)
    (m0 : gmap string (list (list string))) :
  (∀ c v, m0 !! c = Some v → column_tokens d sep c = inr v) →
  (∀ c, c ∈ columns → ∃ toks, column_tokens d sep c = inr toks) →
  ∃ m, foldM (λ m c,
                s ← df_getitem d c;
                toks ← tokenize_series s sep;
                mret (<[c:=toks]> m)) m0 columns = inr m
       ∧ (∀ c v, m !! c = Some v → column_tokens d sep c = inr v)
       ∧ (∀ c, c ∈ columns → is_Some (m !! c))
       ∧ (∀ c, is_Some (m0 !! c) → is_Some (m !! c)).
Proof.
  revert m0. induction columns as [|c columns IH]; intros m0 Hm0 Hcols.
  { exists m0. split_and!; [done..| |done]. by intros ? ?%elem_of_nil. }
  destruct (Hcols c) as [toks Htoks]; [by left|].
  cbn [foldM]. pose proof Htoks as Htoks'. unfold column_tokens in Htoks'.
  destruct (df_getitem d c) as [e|s]; [done|]. rewrite result_bind_inr in Htoks'.
  rewrite !result_bind_inr, Htoks', !result_bind_inr.
  destruct (IH (<[c:=toks]> m0)) as (m & Hm & Hcons & Hdom & Hmono).
  - intros c' v. rewrite lookup_insert. case_decide; [by intros [= <-]; subst|apply Hm0].
  - intros ??; apply Hcols; by right.
  - exists m. split_and!; [done..| |].
    + intros c' [->|?]%elem_of_cons; [|by apply Hdom].
      apply Hmono. rewrite lookup_insert_eq. by eexists.
    + intros c' Hc'. apply Hmono. rewrite lookup_insert. by case_decide.
Qed.

Lemma split_cols_of_inr (d : DataFrame Cell) (sep : string) (columns : list string) :
  (∀ c, c ∈ columns → ∃ toks, column_tokens d sep c = inr toks) →
  ∃ m, split_cols_of d columns sep = inr m
       ∧ ∀ c, c ∈ columns → ∃ toks, column_tokens d sep c = inr toks ∧ m !! c = Some toks.
Proof.
  intros Hcols. destruct (split_cols_loop d sep columns ∅) as (m & Hm & Hcons & Hdom & _);
    [by intros ?? ?%lookup_empty_Some|done|].
  exists m. split; [done|]. intros c [v Hv]%Hdom. exists v. split; [by apply Hcons|done].
Qed.

(** A selected column the frame does not have: the lookup of line 106
    raises for the first such column. *)
Lemma split_cols_of_KeyError (d : DataFrame Cell) (sep : string) (pre post : list string) c0 :
  (∀ c, c ∈ pre → ∃ toks, column_tokens d sep c = inr toks) →
  c0 ∉ df_columns d →
  split_cols_of d (pre ++ c0 :: post) sep = inl (KeyError c0).
Proof.
  intros Hpre Hc0. unfold split_cols_of. rewrite foldM_result_app.
  destruct (split_cols_loop d sep pre ∅) as (m & Hm & _);
    [by intros ?? ?%lookup_empty_Some|done|].
  rewrite Hm, result_bind_inr. cbn [foldM]. by rewrite (df_getitem_absent d c0).
Qed.

(** C4, as amended.  When a selected column is absent from the table, the
    selected columns before it are present and the delimiter is not
    empty, [explode_aligned_columns] raises the [KeyError] of that column,
    whatever the flags and the columns selected after it; the store only
    gains the copy made on line 103, the input table is unchanged. *)
Theorem explode_missing_column (σ : Store) (df : ref) (d : DataFrame Cell)
    (pre post : list string) (c0 sep : string) (keep_empty_rows strict_equal_lengths : bool) :
  σ !! df = Some d →
  sep ≠ EmptyString →
  (∀ c, c ∈ pre → c ∈ df_columns d) →
  c0 ∉ df_columns d →
  explode_aligned_columns df (pre ++ c0 :: post) sep keep_empty_rows strict_equal_lengths σ
  = (inl (KeyError c0), σ ++ [d]).
Proof.
  intros Hd%lookup_total_Some Hsep Hpre Hc0. rewrite explode_run, Hd.
  unfold explode_frame. rewrite split_cols_of_KeyError; [done| |done].
  intros c Hc. by apply column_tokens_total, Hpre.
Qed.

(** * The row aligner *)

Lemma least_true (p : nat → bool) (i : nat) :
  p i = true → ∃ j, j ≤ i ∧ p j = true ∧ ∀ k, k < j → p k = false.
Proof.
  assert (∀ n, (∀ k, k < n → p k = false)
             ∨ ∃ j, j < n ∧ p j = true ∧ ∀ k, k < j → p k = false) as H.
  { induction n as [|n [IH|IH]].
    - left. lia.
    - destruct (p n) eqn:Hn.
      + right. exists n. split_and!; [lia|done|done].
      + left. intros k Hk. destruct (decide (k = n)) as [->|]; [done|]. apply IH. lia.
    - right. destruct IH as (j & ? & ? & ?). exists j. split_and!; [lia|done..]. }
  intros Hi. destruct (H (S i)) as [Hnone|(j & ? & ? & ?)].
  - rewrite Hnone in Hi by lia. done.
  - exists j. split_and!; [lia|done..].
Qed.

Lemma dict_getitem_Some {V} (m : gmap string V) k v : m !! k = Some v → dict_getitem m k = inr v.
Proof. unfold dict_getitem. by intros ->. Qed.

(** With the dict of line 106 in hand, line 109 reads the token lists of
    the row off the frame. *)
Lemma combine_row_lists (d : DataFrame Cell) (columns : list string) (sep : string)
    (m : gmap string (list (list string))) (idx : nat) :
  (∀ c, c ∈ columns → ∃ toks, column_tokens d sep c = inr toks ∧ m !! c = Some toks) →
  mapM (λ c, s ← dict_getitem m c; iat s idx) columns = row_lists d columns sep idx.
Proof.
  intros Hm. apply mapM_result_ext. intros c (toks & Hc & Hmc)%Hm.
  by rewrite (dict_getitem_Some _ _ _ Hmc), Hc.
Qed.

Lemma iat_inr {A} (l : list A) (i : nat) : i < length l → ∃ x, iat l i = inr x ∧ l !! i = Some x.
Proof.
  intros Hi. destruct (lookup_lt_is_Some_2 l i Hi) as [x Hx].
  exists x. unfold iat. by rewrite Hx.
Qed.

Lemma row_lists_total (d : DataFrame Cell) (columns : list string) (sep : string) (idx : nat) :
  wf_frame d → sep ≠ EmptyString → (∀ c, c ∈ columns → c ∈ df_columns d) → idx < nrows d →
  ∃ lists, row_lists d columns sep idx = inr lists.
Proof.
  intros Hwf Hsep Hcols Hidx. apply mapM_result_total. intros c Hc.
  destruct (column_tokens_total d sep c Hsep (Hcols c Hc)) as [toks Htoks].
  rewrite Htoks, result_bind_inr.
  destruct (iat_inr toks idx) as (x & Hx & _); [|by eexists].
  by rewrite (column_tokens_length d sep c toks).
Qed.

Lemma row_lists_in_range (d : DataFrame Cell) (columns : list string) (sep : string)
    (idx : nat) lists :
  wf_frame d → row_lists d columns sep idx = inr lists → lists ≠ [] → idx < nrows d.
Proof.
  intros Hwf Hrow Hne. destruct columns as [|c columns].
  { injection Hrow as <-. done. }
  unfold row_lists in Hrow. rewrite mapM_result_cons in Hrow.
  destruct (column_tokens d sep c) as [e|toks] eqn:Htoks; [done|].
  rewrite !result_bind_inr in Hrow.
  unfold iat in Hrow. destruct (toks !! idx) as [x|] eqn:Hx; [|done].
  apply lookup_lt_Some in Hx. by rewrite (column_tokens_length d sep c toks) in Hx.
Qed.

Lemma size_lengths_of_gt_1 (lists : list (list string)) L1 L2 :
  L1 ∈ lists → L2 ∈ lists → length L1 ≠ length L2 → 1 < size (lengths_of lists).
Proof.
  intros H1 H2 Hne.
  assert ({[length L1; length L2]} ⊆ lengths_of lists) as Hsub.
  { unfold lengths_of. intros n Hn.
    apply elem_of_union in Hn as [Hn|Hn]; apply elem_of_singleton in Hn as ->;
      apply elem_of_list_to_set, list_elem_of_fmap; eauto. }
  apply subseteq_size in Hsub.
  rewrite size_union, !size_singleton in Hsub; [lia|].
  intros n Hn1 Hn2. apply elem_of_singleton in Hn1, Hn2. by subst.
Qed.

(** C2.  In strict mode, when the token lists of some row of the selected
    columns are not all of one length, [explode_aligned_columns] raises
    the [ValueError] of line 113 for the first such row [j]: the error
    carries [j], the selected columns and the set of the lengths found in
    that row.  No table is returned, and the input table is unchanged (the
    store only gains the copy made on line 103). *)
Theorem explode_strict_unequal_lengths (σ : Store) (df : ref) (d : DataFrame Cell)
    (columns : list string) (sep : string) (keep_empty_rows : bool)
    (i : nat) (lists : list (list string)) (L1 L2 : list string) :
  σ !! df = Some d →
  wf_frame d →
  sep ≠ EmptyString →
  (∀ c, c ∈ columns → c ∈ df_columns d) →
  row_lists d columns sep i = inr lists →
  L1 ∈ lists → L2 ∈ lists → length L1 ≠ length L2 →
  ∃ j lists_j,
    j ≤ i
    ∧ row_lists d columns sep j = inr lists_j
    ∧ 1 < size (lengths_of lists_j)
    ∧ (∀ k lists_k, k < j → row_lists d columns sep k = inr lists_k →
         size (lengths_of lists_k) ≤ 1)
    ∧ explode_aligned_columns df columns sep keep_empty_rows true σ
      = (inl (ValueError (UnequalTokenLengths j columns (lengths_of lists_j))), σ ++ [d]).
Proof.
  intros Hd%lookup_total_Some Hwf Hsep Hcols Hrow HL1 HL2 Hne.
  pose (p := λ k, match row_lists d columns sep k with
                  | inr ls => bool_decide (1 < size (lengths_of ls))
                  | inl _ => false
                  end).
  assert (p i = true) as Hpi.
  { unfold p. rewrite Hrow. apply bool_decide_eq_true.
    exact (size_lengths_of_gt_1 lists L1 L2 HL1 HL2 Hne). }
  destruct (least_true p i Hpi) as (j & Hji & Hpj & Hleast).
  assert (i < nrows d) as Hi.
  { eapply row_lists_in_range; [done..|]. intros ->. by apply elem_of_nil in HL1. }
  unfold p in Hpj. destruct (row_lists d columns sep j) as [e|lists_j] eqn:Hrowj; [done|].
  apply bool_decide_eq_true in Hpj.
  exists j, lists_j. split_and!; [done..| |].
  { intros k lists_k Hk Hrowk. specialize (Hleast k Hk). unfold p in Hleast.
    rewrite Hrowk in Hleast. apply bool_decide_eq_false in Hleast. lia. }
  rewrite explode_run, Hd. unfold explode_frame.
  destruct (split_cols_of_inr d sep columns) as (m & -> & Hm).
  { intros c Hc. by apply column_tokens_total, Hcols. }
  rewrite result_bind_inr.
  assert (∀ k, _combine_row columns true m k =
     ls ← row_lists d columns sep k;
     aligned ← (if decide (1 < size (lengths_of ls))
                then inl (ValueError (UnequalTokenLengths k columns (lengths_of ls)))
                else inr (@fmap list _ string (option string) Some <$> ls));
     mret (filter (λ t, Is_true (has_data t)) (zip_star aligned))) as Hcomb.
  { intros k. unfold _combine_row. by rewrite (combine_row_lists d columns sep m k Hm). }
  replace (seq 0 (nrows d)) with (seq 0 j ++ j :: seq (S j) (nrows d - S j)).
  2:{ change (j :: seq (S j) (nrows d - S j)) with (seq j (S (nrows d - S j))).
      rewrite <- seq_app. f_equal. lia. }
  rewrite (mapM_result_first_error _ _ _ _
             (ValueError (UnequalTokenLengths j columns (lengths_of lists_j)))); [done| |].
  - intros k Hk%elem_of_seq. rewrite Hcomb.
    destruct (row_lists_total d columns sep k) as [ls Hls]; [done..|lia|].
    specialize (Hleast k ltac:(lia)). unfold p in Hleast. rewrite Hls in Hleast.
    apply bool_decide_eq_false in Hleast.
    rewrite Hls, result_bind_inr, decide_False, result_bind_inr by done. by eexists.
  - by rewrite Hcomb, Hrowj, result_bind_inr, decide_True.
Qed.

(** * Frames: what each operation leaves *)

Lemma fst_fmap_snd {A B} (g : string → Series A → Series B) (l : list (string * Series A)) :
  ((λ e, (e.1, g e.1 e.2)) <$> l).*1 = l.*1.
Proof. rewrite <- list_fmap_compose. by apply list_fmap_ext. Qed.

Lemma df_getitem_lookup {A} (df : DataFrame A) c :
  df_getitem df c = match lookup_column c (cols df) with
                    | Some s => inr s
                    | None => inl (KeyError c)
                    end.
Proof. done. Qed.

Lemma df_getitem_map {A B} (f : A → B) (df : DataFrame A) c :
  df_getitem (df_map f df) c
  = match df_getitem df c with
    | inr s => inr (mkSeries (dtype s) (f <$> values s))
    | inl e => inl e
    end.
Proof.
  rewrite !df_getitem_lookup. unfold df_map. cbn [cols].
  rewrite (lookup_column_fmap (λ _ s, mkSeries (dtype s) (f <$> values s))).
  by destruct (lookup_column c (cols df)).
Qed.

Lemma df_columns_map {A B} (f : A → B) (df : DataFrame A) :
  df_columns (df_map f df) = df_columns df.
Proof. apply (fst_fmap_snd (λ _ s, mkSeries (dtype s) (f <$> values s))). Qed.

Lemma df_getitem_mask {A} (df : DataFrame A) mask c :
  df_getitem (df_mask df mask) c
  = match df_getitem df c with
    | inr s => inr (mkSeries (dtype s) (mask_list mask (values s)))
    | inl e => inl e
    end.
Proof.
  rewrite !df_getitem_lookup. unfold df_mask. cbn [cols].
  rewrite (lookup_column_fmap (λ _ s, mkSeries (dtype s) (mask_list mask (values s)))).
  by destruct (lookup_column c (cols df)).
Qed.

Lemma df_columns_mask {A} (df : DataFrame A) mask :
  df_columns (df_mask df mask) = df_columns df.
Proof. apply (fst_fmap_snd (λ _ s, mkSeries (dtype s) (mask_list mask (values s)))). Qed.

Lemma lookup_column_explode {A} (c c' : string) (X : Series A) (rep : Series A → Series A)
    (l : list (string * Series A)) :
  lookup_column c' ((λ e, if decide (e.1 = c) then (e.1, X) else (e.1, rep e.2)) <$> l)
  = (λ s', if decide (c' = c) then X else rep s') <$> lookup_column c' l.
Proof.
  induction l as [|[k s'] l IH]; [done|].
  rewrite fmap_cons. cbn [fst snd].
  destruct (decide (k = c)) as [->|Hk]; cbn [lookup_column];
    destruct (decide (_ = c')) as [->|Hc']; cbn [fmap option_fmap option_map]; try done.
  - by rewrite decide_True.
  - by rewrite decide_False.
Qed.

Lemma fst_explode {A} (c : string) (X : Series A) (rep : Series A → Series A)
    (l : list (string * Series A)) :
  ((λ e, if decide (e.1 = c) then (e.1, X) else (e.1, rep e.2)) <$> l).*1 = l.*1.
Proof.
  rewrite <- list_fmap_compose. apply list_fmap_ext. intros _ e _. cbn. by case_decide.
Qed.

Lemma df_explode_inr (df : DataFrame Obj) c s :
  df_getitem df c = inr s →
  ∃ out, df_explode df c = inr out
    ∧ nrows out = sum_list (length <$> (explode_value <$> values s))
    ∧ df_columns out = df_columns df
    ∧ df_getitem out c = inr (mkSeries object (mjoin (explode_value <$> values s)))
    ∧ ∀ c', c' ≠ c →
        df_getitem out c'
        = match df_getitem df c' with
          | inr s' => inr (mkSeries (dtype s')
                             (repeat_each (length <$> (explode_value <$> values s)) (values s')))
          | inl e => inl e
          end.
Proof.
  intros Hs. unfold df_explode. rewrite Hs, result_bind_inr.
  set (X := mkSeries object (mjoin (explode_value <$> values s))).
  set (rep := λ s' : Series Obj,
         mkSeries (dtype s')
           (repeat_each (length <$> (explode_value <$> values s)) (values s'))).
  eexists. split; [done|]. cbn [nrows]. split; [done|]. split_and!.
  - apply (fst_explode c X rep).
  - rewrite df_getitem_lookup in Hs |- *. cbn [cols].
    rewrite (lookup_column_explode c c X rep).
    destruct (lookup_column c (cols df)); [|done]. cbn. by rewrite decide_True.
  - intros c' Hc'. rewrite !df_getitem_lookup. cbn [cols].
    rewrite (lookup_column_explode c c' X rep).
    destruct (lookup_column c' (cols df)); [|done]. cbn. by rewrite decide_False.
Qed.

Lemma fst_filter_ne {A} (l : list (string * Series A)) c :
  (filter (λ e, e.1 ≠ c) l).*1 = filter (λ k, k ≠ c) l.*1.
Proof.
  induction l as [|[k s] l IH]; [done|].
  rewrite fmap_cons, !filter_cons. cbn [fst]. case_decide; by rewrite ?fmap_cons, IH.
Qed.

Lemma df_drop_inr {A} (df : DataFrame A) c :
  c ∈ df_columns df →
  ∃ out, df_drop df c = inr out
    ∧ nrows out = nrows df
    ∧ df_columns out = filter (λ k, k ≠ c) (df_columns df)
    ∧ ∀ c', c' ≠ c → df_getitem out c' = df_getitem df c'.
Proof.
  intros Hc. unfold df_drop. rewrite decide_True by done.
  eexists. split; [done|]. split; [done|]. split; [apply fst_filter_ne|].
  intros c' Hc'. rewrite !df_getitem_lookup. cbn [cols].
  by rewrite lookup_column_filter_ne, decide_False.
Qed.

(** * Blocks of rows *)

Lemma repeat_each_cons {A} n counts (x : A) l :
  repeat_each (n :: counts) (x :: l) = replicate n x ++ repeat_each counts l.
Proof. done. Qed.

Lemma repeat_each_nil_l {A} (l : list A) : repeat_each [] l = [].
Proof. done. Qed.

Lemma repeat_each_nil_r {A} counts : repeat_each counts ([] : list A) = [].
Proof. by destruct counts. Qed.

Lemma length_repeat_each {A} counts (l : list A) :
  length counts = length l → length (repeat_each counts l) = sum_list counts.
Proof.
  revert l. induction counts as [|n counts IH]; intros [|x l] Hlen; try done.
  rewrite repeat_each_cons, length_app, length_replicate. cbn [sum_list].
  rewrite IH; [done|]. by injection Hlen.
Qed.

(** The rows that input row [i] gives start after those of the rows
    before it. *)
Lemma lookup_repeat_each {A} counts (l : list A) i n x j :
  counts !! i = Some n → l !! i = Some x → j < n →
  repeat_each counts l !! (sum_list (take i counts) + j) = Some x.
Proof.
  revert l i. induction counts as [|m counts IH]; intros [|y l] i Hc Hl Hj; try done.
  rewrite repeat_each_cons. destruct i as [|i]; simplify_eq/=.
  - rewrite lookup_app_l by (by rewrite length_replicate).
    by apply lookup_replicate_2.
  - rewrite lookup_app_r by (rewrite length_replicate; lia).
    rewrite length_replicate.
    replace (m + sum_list (take i counts) + j - m) with (sum_list (take i counts) + j) by lia.
    by apply IH.
Qed.

Lemma lookup_mjoin_block {A} (ls : list (list A)) i (b : list A) j :
  ls !! i = Some b →
  mjoin ls !! (sum_list (length <$> take i ls) + j) = b !! j ∨ length b ≤ j.
Proof.
  revert i. induction ls as [|b' ls IH]; intros i Hi; [done|].
  destruct (decide (j < length b)) as [Hj|]; [left|right; lia].
  destruct i as [|i]; simplify_eq/=.
  - by rewrite lookup_app_l.
  - rewrite lookup_app_r by lia.
    replace (length b' + sum_list (length <$> take i ls) + j - length b')
      with (sum_list (length <$> take i ls) + j) by lia.
    destruct (IH i Hi) as [?|?]; [done|lia].
Qed.

Lemma sum_list_take_replicate n m i : i ≤ m → sum_list (take i (replicate m n)) = i * n.
Proof.
  revert i. induction m as [|m IH]; intros [|i] Hi; simpl; try done; try lia.
  rewrite IH; lia.
Qed.

Lemma sum_list_replicate n m : sum_list (replicate m n) = m * n.
Proof. induction m as [|m IH]; simpl; [done|]. rewrite IH. lia. Qed.

(** * The exploded frame before unpacking *)

Lemma mask_list_nil_r {A} mask : mask_list mask ([] : list A) = [].
Proof. by destruct mask as [|[] ?]. Qed.

Lemma mask_list_app {A} m1 m2 (l1 l2 : list A) :
  length m1 = length l1 →
  mask_list (m1 ++ m2) (l1 ++ l2) = mask_list m1 l1 ++ mask_list m2 l2.
Proof.
  revert l1. induction m1 as [|b m1 IH]; intros [|x l1] Hlen; try done.
  cbn [app mask_list]. injection Hlen as Hlen. rewrite IH by done. by destruct b.
Qed.

Lemma mask_list_all {A} (f : A → bool) (l : list A) :
  Forall (λ x, f x = true) l → mask_list (f <$> l) l = l.
Proof.
  induction 1 as [|x l Hx _ IH]; [done|]. rewrite fmap_cons. cbn [mask_list].
  by rewrite Hx, IH.
Qed.

Lemma mask_list_replicate {A} n (x : A) : mask_list (replicate n true) (replicate n x) = replicate n x.
Proof. induction n as [|n IH]; [done|]. cbn. by rewrite IH. Qed.

Lemma length_filter_app_bool (m1 m2 : list bool) :
  length (filter Is_true (m1 ++ m2)) = length (filter Is_true m1) + length (filter Is_true m2).
Proof. by rewrite filter_app, length_app. Qed.

Section blocks.
Implicit Types (combined : list (list (list (option string)))) (l : list (list (option string))).

Lemma explode_value_block l : explode_value (TupleList l) = block true l.
Proof. by destruct l. Qed.

Lemma length_block keep l :
  length (block keep l) = if keep then max 1 (length l) else length l.
Proof. destruct l, keep; cbn; by rewrite ?length_fmap. Qed.

Lemma records_cons keep l combined :
  records keep (l :: combined) = block keep l ++ records keep combined.
Proof. done. Qed.

Lemma row_counts_cons keep l combined :
  row_counts keep (l :: combined)
  = (if keep then max 1 (length l) else length l) :: row_counts keep combined.
Proof. done. Qed.

Lemma exploded_records combined :
  mjoin (explode_value <$> (TupleList <$> combined)) = records true combined.
Proof.
  unfold records. f_equal. rewrite <- list_fmap_compose.
  apply list_fmap_ext. intros _ l _. unfold compose. apply explode_value_block.
Qed.

Lemma exploded_counts combined :
  length <$> (explode_value <$> (TupleList <$> combined)) = row_counts true combined.
Proof.
  unfold row_counts. rewrite <- !list_fmap_compose.
  apply list_fmap_ext. intros _ l _. unfold compose.
  by rewrite explode_value_block, length_block.
Qed.

Lemma length_records keep combined :
  length (records keep combined) = sum_list (row_counts keep combined).
Proof.
  induction combined as [|l combined IH]; [done|].
  rewrite records_cons, row_counts_cons, length_app, length_block, IH. done.
Qed.

Lemma mask_block l :
  mask_list (obj_notna <$> block true l) (block true l) = block false l.
Proof.
  destruct l as [|t l]; [done|]. cbn [block].
  apply mask_list_all. apply Forall_forall. by intros ? (? & -> & _)%list_elem_of_fmap.
Qed.

Lemma mask_block_replicate {A} l (x : A) :
  mask_list (obj_notna <$> block true l) (replicate (max 1 (length l)) x)
  = replicate (length l) x.
Proof.
  destruct l as [|t l]; [done|]. cbn [block].
  replace (obj_notna <$> (Tuple <$> t :: l)) with (replicate (length (t :: l)) true).
  - apply mask_list_replicate.
  - generalize (t :: l). intros k. induction k as [|? k IH]; [done|]. cbn. by rewrite IH.
Qed.

Lemma count_block l :
  length (filter Is_true (obj_notna <$> block true l)) = length l.
Proof.
  destruct l as [|t l]; [done|]. cbn [block].
  generalize (t :: l). intros k. induction k as [|? k IH]; [done|].
  rewrite !fmap_cons, filter_cons_True by done. cbn. by rewrite IH.
Qed.

Lemma mask_records combined :
  mask_list (obj_notna <$> records true combined) (records true combined)
  = records false combined.
Proof.
  induction combined as [|l combined IH]; [done|].
  rewrite !records_cons, fmap_app, mask_list_app, mask_block, IH; [done|].
  by rewrite length_fmap.
Qed.

Lemma mask_repeat_each {A} combined (vals : list A) :
  mask_list (obj_notna <$> records true combined) (repeat_each (row_counts true combined) vals)
  = repeat_each (row_counts false combined) vals.
Proof.
  revert vals. induction combined as [|l combined IH]; intros vals.
  { by rewrite !repeat_each_nil_l, mask_list_nil_r. }
  destruct vals as [|x vals].
  { by rewrite !repeat_each_nil_r, mask_list_nil_r. }
  rewrite records_cons, !row_counts_cons, !repeat_each_cons, fmap_app.
  rewrite mask_list_app, mask_block_replicate, IH; [done|].
  by rewrite length_fmap, length_block, length_replicate.
Qed.

Lemma count_records combined :
  length (filter Is_true (obj_notna <$> records true combined))
  = sum_list (row_counts false combined).
Proof.
  induction combined as [|l combined IH]; [done|].
  rewrite records_cons, row_counts_cons, fmap_app, length_filter_app_bool, count_block, IH.
  done.
Qed.

End blocks.

(** Lines 124-127: the frame with its scratch column. *)
Lemma explode_stage (d : DataFrame Cell) (combined : list (list (list (option string))))
    (keep : bool) :
  length combined = nrows d →
  ∃ F1 F2 F3,
    df_assign (df_map Scalar d) "_combined" (TupleList <$> combined) = inr F1
    ∧ df_explode F1 "_combined" = inr F2
    ∧ (if keep then mret F2
       else s ← df_getitem F2 "_combined"; mret (df_mask F2 (obj_notna <$> values s)))
      = inr F3
    ∧ nrows F3 = sum_list (row_counts keep combined)
    ∧ df_columns F3 = (if decide ("_combined" ∈ df_columns d) then df_columns d
                       else df_columns d ++ ["_combined"])
    ∧ df_getitem F3 "_combined" = inr (mkSeries object (records keep combined))
    ∧ ∀ c, c ≠ "_combined" →
        df_getitem F3 c = match df_getitem d c with
                          | inr s => inr (repeated (row_counts keep combined) s)
                          | inl e => inl e
                          end.
Proof.
  intros Hlen. unfold df_assign.
  rewrite decide_True by (by rewrite length_fmap).
  set (F1 := df_setitem (df_map Scalar d) "_combined" (mkSeries object (TupleList <$> combined))).
  assert (df_getitem F1 "_combined" = inr (mkSeries object (TupleList <$> combined))) as HF1.
  { unfold F1. by rewrite df_getitem_setitem, decide_True. }
  destruct (df_explode_inr F1 "_combined" _ HF1) as (F2 & HF2 & Hrows2 & Hcols2 & Hget2 & Hother2).
  cbn [values] in Hrows2, Hget2, Hother2.
  rewrite exploded_counts in Hrows2, Hother2. rewrite exploded_records in Hget2.
  assert (df_columns F2 = (if decide ("_combined" ∈ df_columns d) then df_columns d
                           else df_columns d ++ ["_combined"])) as Hcols2'.
  { rewrite Hcols2. unfold F1. by rewrite df_columns_setitem, df_columns_map. }
  assert (∀ c, c ≠ "_combined" →
            df_getitem F2 c = match df_getitem d c with
                              | inr s => inr (repeated (row_counts true combined) s)
                              | inl e => inl e
                              end) as Hget2'.
  { intros c Hc. rewrite Hother2 by done. unfold F1.
    rewrite df_getitem_setitem, decide_False by done. rewrite df_getitem_map.
    by destruct (df_getitem d c). }
  exists F1, F2. destruct keep.
  - exists F2. by split_and!.
  - eexists. rewrite Hget2, result_bind_inr. cbn [values]. split_and!; try done.
    + cbn [df_mask nrows]. apply count_records.
    + by rewrite df_columns_mask.
    + rewrite df_getitem_mask, Hget2. cbn [dtype values]. by rewrite mask_records.
    + intros c Hc. rewrite df_getitem_mask, Hget2' by done.
      destruct (df_getitem d c) as [e|s]; [done|]. unfold repeated. cbn [dtype values].
      by rewrite mask_repeat_each.
Qed.

(** * Unpacking the tuples *)

Lemma records_shape keep (combined : list (list (list (option string)))) w :
  (∀ l t, l ∈ combined → t ∈ l → length t = w) →
  Forall (record_of_width w) (records keep combined).
Proof.
  intros Hw. apply Forall_forall. intros r Hr. unfold records in Hr.
  apply list_elem_of_join in Hr as (b & Hr & Hb).
  apply list_elem_of_fmap in Hb as (l & -> & Hl).
  destruct l as [|t l].
  - destruct keep; cbn in Hr; [|by apply elem_of_nil in Hr].
    apply list_elem_of_singleton in Hr as ->. by left.
  - cbn [block] in Hr. apply list_elem_of_fmap in Hr as (t' & -> & Ht').
    right. exists t'. split; [done|]. by apply (Hw _ _ Hl).
Qed.

Lemma record_fields_of_width w r :
  record_of_width w r → record_fields true r = inr (fields_of r) ∧ (length (fields_of r) = w ∨ length (fields_of r) = 1).
Proof.
  intros [->|(t & -> & Hw)]; cbn; [by auto|]. split; [done|]. left. by rewrite length_fmap.
Qed.

Lemma mapM_record_fields w recs :
  Forall (record_of_width w) recs →
  mapM (record_fields true) recs = inr (fields_of <$> recs).
Proof.
  intros Hrecs. apply mapM_result_inr. apply Forall2_fmap_r, Forall_Forall2_diag.
  eapply Forall_impl; [done|]. intros r Hr. by apply (record_fields_of_width w).
Qed.

Lemma max_list_fields_le w recs :
  1 ≤ w → Forall (record_of_width w) recs →
  max_list (length <$> (fields_of <$> recs)) ≤ w.
Proof.
  intros Hw Hl. induction Hl as [|r l Hr _ IH]; [cbn; lia|].
  rewrite !fmap_cons. cbn [max_list_with id].
  destruct (record_fields_of_width w r Hr) as [_ [->| ->]]; lia.
Qed.

Lemma max_list_width w recs t0 rest :
  recs = Tuple t0 :: rest → 1 ≤ w → Forall (record_of_width w) recs →
  max_list (length <$> (fields_of <$> recs)) = w.
Proof.
  intros -> Hw Hrecs. apply Nat.le_antisymm; [by apply max_list_fields_le|].
  apply Forall_cons in Hrecs as [[?|(t & [= <-] & Ht)] _]; [done|].
  apply max_list_elem_of_le. rewrite !fmap_cons. cbn [fields_of].
  rewrite length_fmap, Ht. by left.
Qed.

Lemma pd_DataFrame_tuples recs columns t0 rest :
  recs = Tuple t0 :: rest → 1 ≤ length columns →
  Forall (record_of_width (length columns)) recs →
  pd_DataFrame recs columns
  = inr (mkFrame (length recs)
           (imap (λ j c, (c, mkSeries object (field j <$> recs))) columns)).
Proof.
  intros Hrecs Hw Hall. unfold pd_DataFrame. rewrite Hrecs at 1.
  rewrite (mapM_record_fields _ _ Hall), result_bind_inr.
  rewrite (max_list_width _ _ _ _ Hrecs Hw Hall), decide_True by done.
  f_equal. f_equal. apply imap_ext. intros j c _. f_equal. f_equal.
  by rewrite <- list_fmap_compose.
Qed.

Lemma lookup_column_imap {A} (g : nat → Series A) (columns : list string) j c :
  NoDup columns → columns !! j = Some c →
  lookup_column c (imap (λ j c, (c, g j)) columns) = Some (g j).
Proof.
  revert g j. induction columns as [|k columns IH]; intros g j Hnd Hj; [done|].
  rewrite imap_cons. cbn [lookup_column]. apply NoDup_cons in Hnd as [Hk Hnd].
  destruct j as [|j]; simplify_eq/=.
  - by rewrite decide_True.
  - rewrite decide_False.
    + by apply (IH (g ∘ S)).
    + intros ->. apply Hk. by eapply list_elem_of_lookup_2.
Qed.

Lemma lookup_column_const {A} (s : Series A) (columns : list string) c :
  c ∈ columns → lookup_column c ((λ c, (c, s)) <$> columns) = Some s.
Proof.
  induction columns as [|k columns IH]; [by intros ?%elem_of_nil|].
  rewrite fmap_cons. cbn [lookup_column]. intros Hc.
  case_decide; [done|]. apply IH. apply elem_of_cons in Hc as [->|?]; done.
Qed.

(** The loop of lines 136-137. *)
Lemma unpack_loop {A} (E out : DataFrame A) (columns : list string) (g : string → Series A) :
  (∀ c, c ∈ columns → df_getitem E c = inr (g c)) →
  foldM (λ out c, e ← df_getitem E c; mret (df_setitem out c e)) out columns
  = inr (assign_all id g out columns).
Proof.
  revert out. induction columns as [|c columns IH]; intros out Hg; [done|].
  cbn [foldM]. rewrite (Hg c) by by left.
  apply (IH (df_setitem out c (g c))). intros ??; apply Hg; by right.
Qed.

Lemma assign_all_columns_present {A T} (name : T → string) (val : T → Series A)
    (d : DataFrame A) (l : list T) :
  (∀ t, t ∈ l → name t ∈ df_columns d) →
  df_columns (assign_all name val d l) = df_columns d.
Proof.
  revert d. induction l as [|t l IH]; intros d Hl; [done|].
  rewrite assign_all_cons.
  assert (df_columns (df_setitem d (name t) (val t)) = df_columns d) as Heq.
  { rewrite df_columns_setitem, decide_True; [done|]. apply Hl. by left. }
  rewrite IH, Heq; [done|]. intros t' Ht'. rewrite Heq. apply Hl. by right.
Qed.

Lemma assign_all_selected {A} (g : string → Series A) (d : DataFrame A)
    (columns : list string) c :
  c ∈ columns → df_getitem (assign_all id g d columns) c = inr (g c).
Proof.
  intros (l1 & l2 & -> & Hc)%list_elem_of_split_r.
  apply (assign_all_last id g). intros t' Ht' Heq. unfold id in Heq. by subst.
Qed.

Lemma filter_ne_scratch (l : list string) :
  filter (λ k, k ≠ "_combined") (if decide ("_combined" ∈ l) then l else l ++ ["_combined"])
  = filter (λ k, k ≠ "_combined") l.
Proof.
  case_decide; [done|]. rewrite filter_app, filter_cons_False by (by intros ?).
  by rewrite filter_nil, app_nil_r.
Qed.

Lemma scratch_in_columns (l : list string) :
  "_combined" ∈ (if decide ("_combined" ∈ l) then l else l ++ ["_combined"]).
Proof. case_decide; [done|]. apply elem_of_app. right. by left. Qed.

Lemma columns_with_scratch (l : list string) c :
  c ∈ l → c ∈ (if decide ("_combined" ∈ l) then l else l ++ ["_combined"]).
Proof. intros Hc. case_decide; [done|]. apply elem_of_app. by left. Qed.

(** * The result of lines 124-139 *)

Lemma records_elem keep (combined : list (list (list (option string)))) r :
  r ∈ records keep combined →
  r = Scalar NA ∨ ∃ l t, r = Tuple t ∧ l ∈ combined ∧ t ∈ l.
Proof.
  intros Hr. unfold records in Hr.
  apply list_elem_of_join in Hr as (b & Hr & Hb).
  apply list_elem_of_fmap in Hb as (l & -> & Hl).
  destruct l as [|t l].
  - destruct keep; cbn in Hr; [|by apply elem_of_nil in Hr].
    apply list_elem_of_singleton in Hr as ->. by left.
  - cbn [block] in Hr. apply list_elem_of_fmap in Hr as (t' & -> & Ht').
    right. by exists (t :: l), t'.
Qed.

Lemma unpack_multi (out : DataFrame Obj) (columns : list string) :
  (∀ c, columns ≠ [c]) → unpack out columns = unpack_general out columns.
Proof. intros Hne. destruct columns as [|c [|c' columns]]; [done| |done]. by destruct (Hne c). Qed.

Lemma explode_combined_single (d : DataFrame Cell)
    (combined : list (list (list (option string)))) (col : string) (keep : bool) :
  length combined = nrows d →
  col ∈ df_columns d →
  ∃ out, explode_combined d combined [col] keep = inr out
    ∧ nrows out = sum_list (row_counts keep combined)
    ∧ df_columns out = filter (λ k, k ≠ "_combined") (df_columns d)
    ∧ (∀ c, c ≠ "_combined" → c ≠ col →
         df_getitem out c = match df_getitem d c with
                            | inr s => inr (repeated (row_counts keep combined) s)
                            | inl e => inl e
                            end)
    ∧ (col ≠ "_combined" →
         df_getitem out col = inr (mkSeries object (records keep combined))).
Proof.
  intros Hlen Hcol.
  destruct (explode_stage d combined keep Hlen)
    as (F1 & F2 & F3 & H1 & H2 & H3 & Hrows & Hcols & Hscratch & Hother).
  unfold explode_combined.
  rewrite H1, result_bind_inr, H2, result_bind_inr, H3, result_bind_inr.
  cbn [unpack]. rewrite Hscratch, result_bind_inr, result_bind_ret.
  set (R := mkSeries object (records keep combined)).
  assert (df_columns (df_setitem F3 col R) = df_columns F3) as Hcols'.
  { rewrite df_columns_setitem, decide_True; [done|]. rewrite Hcols.
    by apply columns_with_scratch. }
  destruct (df_drop_inr (df_setitem F3 col R) "_combined")
    as (out & -> & Hrows' & Hcols'' & Hget).
  { rewrite Hcols', Hcols. apply scratch_in_columns. }
  rewrite result_bind_inr. exists out. unfold reset_index. split_and!.
  - done.
  - by rewrite Hrows'.
  - by rewrite Hcols'', Hcols', Hcols, filter_ne_scratch.
  - intros c Hc Hc'. rewrite Hget, df_getitem_setitem, decide_False by done. by apply Hother.
  - intros Hc. by rewrite Hget, df_getitem_setitem, decide_True.
Qed.

Lemma explode_combined_multi (d : DataFrame Cell)
    (combined : list (list (list (option string)))) (columns : list string) (keep : bool) :
  length combined = nrows d →
  NoDup columns →
  (∀ c, c ∈ columns → c ∈ df_columns d) →
  (∀ c, columns ≠ [c]) →
  (∀ l t, l ∈ combined → t ∈ l → t ≠ [] ∧ length t = length columns) →
  match records keep combined with
  | Scalar _ :: _ => ∃ e, explode_combined d combined columns keep = inl e
  | _ =>
      ∃ out, explode_combined d combined columns keep = inr out
        ∧ nrows out = sum_list (row_counts keep combined)
        ∧ df_columns out = filter (λ k, k ≠ "_combined") (df_columns d)
        ∧ (∀ c, c ≠ "_combined" → c ∉ columns →
             df_getitem out c = match df_getitem d c with
                                | inr s => inr (repeated (row_counts keep combined) s)
                                | inl e => inl e
                                end)
        ∧ (∀ j c, columns !! j = Some c → c ≠ "_combined" →
             df_getitem out c = inr (mkSeries object (field j <$> records keep combined)))
  end.
Proof.
  intros Hlen Hnd Hcols_in Hmulti Htuples.
  destruct (explode_stage d combined keep Hlen)
    as (F1 & F2 & F3 & H1 & H2 & H3 & Hrows & Hcols & Hscratch & Hother).
  unfold explode_combined.
  rewrite H1, result_bind_inr, H2, result_bind_inr, H3, result_bind_inr.
  rewrite (unpack_multi _ _ Hmulti). unfold unpack_general.
  rewrite Hscratch, result_bind_inr. cbn [values].
  assert (Forall (record_of_width (length columns)) (records keep combined)) as Hshape.
  { apply Forall_forall. intros r [->|(l & t & -> & Hl & Ht)]%records_elem; [by left|].
    right. exists t. split; [done|]. by apply (Htuples l t). }
  assert (∀ E (sel : nat → Series Obj),
    nrows E = nrows E →
    (∀ j c, columns !! j = Some c → df_getitem E c = inr (sel j)) →
    ∃ out,
      (foldM (λ out c, e ← df_getitem E c; mret (df_setitem out c e)) F3 columns
         ≫= λ out, df_drop out "_combined" ≫= λ out, mret (reset_index out)) = inr out
      ∧ nrows out = sum_list (row_counts keep combined)
      ∧ df_columns out = filter (λ k, k ≠ "_combined") (df_columns d)
      ∧ (∀ c, c ≠ "_combined" → c ∉ columns →
           df_getitem out c = match df_getitem d c with
                              | inr s => inr (repeated (row_counts keep combined) s)
                              | inl e => inl e
                              end)
      ∧ (∀ j c, columns !! j = Some c → c ≠ "_combined" → df_getitem out c = inr (sel j)))
    as Hfinish.
  { intros E sel _ HE.
    set (g := λ c, match df_getitem E c with inr s => s | inl _ => mkSeries object [] end).
    assert (∀ c, c ∈ columns → df_getitem E c = inr (g c)) as Hg.
    { intros c (j & Hj)%list_elem_of_lookup_1. unfold g. by rewrite (HE j c Hj). }
    rewrite (unpack_loop E F3 columns g Hg), result_bind_inr.
    assert (df_columns (assign_all id g F3 columns) = df_columns F3) as Hcols'.
    { apply assign_all_columns_present. intros c Hc. rewrite Hcols.
      by apply columns_with_scratch, Hcols_in. }
    destruct (df_drop_inr (assign_all id g F3 columns) "_combined")
      as (out & -> & Hrows' & Hcols'' & Hget).
    { rewrite Hcols', Hcols. apply scratch_in_columns. }
    rewrite result_bind_inr. exists out. unfold reset_index. split_and!.
    - done.
    - by rewrite Hrows', assign_all_nrows.
    - by rewrite Hcols'', Hcols', Hcols, filter_ne_scratch.
    - intros c Hc Hc'. rewrite Hget by done.
      rewrite (assign_all_untouched id g) by (intros t Ht <-; done). by apply Hother.
    - intros j c Hj Hc. rewrite Hget by done.
      rewrite assign_all_selected by (by eapply list_elem_of_lookup_2).
      unfold g. by rewrite (HE j c Hj). }
  destruct (records keep combined) as [|[x|t0|l0] rest] eqn:Hrecs.
  - (* no record *)
    cbn [pd_DataFrame]. rewrite result_bind_inr.
    apply (Hfinish _ (λ _, mkSeries object [])); [done|].
    intros j c Hj. rewrite df_getitem_lookup. cbn [cols].
    by rewrite lookup_column_const by (by eapply list_elem_of_lookup_2).
  - (* the first record is a scalar *)
    cbn [pd_DataFrame]. destruct columns as [|c [|c' columns]]; [by eexists| |by eexists].
    by destruct (Hmulti c).
  - (* the first record is a tuple *)
    assert (1 ≤ length columns) as Hw.
    { assert (Tuple t0 ∈ records keep combined) as Hin by (rewrite Hrecs; by left).
      apply records_elem in Hin as [?|(l & t & [= <-] & Hl & Ht)]; [done|].
      destruct (Htuples l t0 Hl Ht) as [Hne <-]. destruct t0; [done|cbn; lia]. }
    rewrite (pd_DataFrame_tuples _ columns t0 rest eq_refl Hw Hshape), result_bind_inr.
    apply (Hfinish _ (λ j, mkSeries object (field j <$> Tuple t0 :: rest))); [done|].
    intros j c Hj. rewrite df_getitem_lookup. cbn [cols].
    by rewrite (lookup_column_imap (λ j, mkSeries object (field j <$> Tuple t0 :: rest))
                  columns j c Hnd Hj).
  - (* a list cannot be a record *)
    apply Forall_cons in Hshape as [[?|(? & ? & _)] _]; done.
Qed.

(** * The tuples of a row *)

Lemma zip_upto_length {A} n (ls : list (list A)) t :
  t ∈ zip_upto n ls → length t = length ls.
Proof.
  revert ls. induction n as [|n IH]; intros ls; [by intros ?%elem_of_nil|].
  cbn [zip_upto]. destruct (mapM head ls) as [t0|] eqn:Hheads; [|by intros ?%elem_of_nil].
  intros [->|Ht]%elem_of_cons.
  - symmetry. by eapply length_mapM.
  - rewrite (IH _ Ht). by rewrite length_fmap.
Qed.

Lemma zip_star_length {A} (ls : list (list A)) t : t ∈ zip_star ls → length t = length ls.
Proof. destruct ls as [|L ls]; [by intros ?%elem_of_nil|]. apply zip_upto_length. Qed.

Lemma has_data_nonempty t : Is_true (has_data t) → t ≠ [].
Proof. by destruct t. Qed.

Lemma combine_row_shape columns strict (m : gmap string (list (list string))) idx tuples t :
  _combine_row columns strict m idx = inr tuples → t ∈ tuples →
  t ≠ [] ∧ length t = length columns.
Proof.
  unfold _combine_row.
  destruct (mapM _ columns) as [e|lists] eqn:Hlists; [done|]. rewrite result_bind_inr.
  apply mapM_result_length in Hlists.
  assert (∀ aligned : list (list (option string)), length aligned = length lists →
            t ∈ filter (λ t, Is_true (has_data t)) (zip_star aligned) →
            t ≠ [] ∧ length t = length columns) as Hgo.
  { intros aligned Hlen [Hdata Ht]%list_elem_of_filter. split; [by apply has_data_nonempty|].
    rewrite (zip_star_length _ _ Ht). congruence. }
  destruct strict.
  - case_decide; [done|]. rewrite result_bind_inr. intros [= <-]. apply Hgo.
    by rewrite length_fmap.
  - rewrite result_bind_inr. intros [= <-]. apply Hgo. unfold _align_lists.
    by rewrite length_fmap.
Qed.

Lemma split_cols_of_inr_inv (d : DataFrame Cell) (sep : string) (columns : list string) m :
  split_cols_of d columns sep = inr m →
  ∀ c, c ∈ columns → ∃ toks, column_tokens d sep c = inr toks ∧ m !! c = Some toks.
Proof.
  intros Hm.
  assert (∀ c, c ∈ columns → ∃ toks, column_tokens d sep c = inr toks) as Hall.
  { revert Hm. unfold split_cols_of. generalize (∅ : gmap string (list (list string))).
    induction columns as [|c columns IH]; intros m0 Hm c' Hc'; [by apply elem_of_nil in Hc'|].
    cbn [foldM] in Hm. unfold column_tokens.
    destruct (df_getitem d c) as [e|s] eqn:Hs; [done|]. rewrite result_bind_inr in Hm.
    destruct (tokenize_series s sep) as [e|toks] eqn:Htoks; [done|].
    rewrite !result_bind_inr in Hm.
    apply elem_of_cons in Hc' as [->|Hc'].
    - rewrite Hs, result_bind_inr. eauto.
    - by apply (IH _ Hm). }
  destruct (split_cols_of_inr d sep columns Hall) as (m' & Hm' & Hfacts).
  rewrite Hm in Hm'. by injection Hm' as <-.
Qed.

(** What a successful call went through. *)
Lemma explode_frame_inr (d : DataFrame Cell) columns sep keep strict out :
  explode_frame d columns sep keep strict = inr out →
  ∃ m combined,
    split_cols_of d columns sep = inr m
    ∧ mapM (_combine_row columns strict m) (seq 0 (nrows d)) = inr combined
    ∧ explode_combined d combined columns keep = inr out
    ∧ length combined = nrows d
    ∧ (∀ c, c ∈ columns → c ∈ df_columns d)
    ∧ (∀ l t, l ∈ combined → t ∈ l → t ≠ [] ∧ length t = length columns)
    ∧ (∀ i, i < nrows d → ∃ l, combined !! i = Some l ∧ row_tuples d columns sep strict i = inr l).
Proof.
  unfold explode_frame.
  destruct (split_cols_of d columns sep) as [e|m] eqn:Hm; [done|]. rewrite result_bind_inr.
  destruct (mapM _ (seq 0 (nrows d))) as [e|combined] eqn:Hcomb; [done|].
  rewrite result_bind_inr. intros Hout. exists m, combined. split_and!; try done.
  - by rewrite (mapM_result_length _ _ _ Hcomb), length_seq.
  - intros c Hc. destruct (split_cols_of_inr_inv d sep columns m Hm c Hc) as (toks & Htoks & _).
    unfold column_tokens in Htoks. destruct (df_getitem d c) eqn:Hs; [done|].
    by eapply df_getitem_inr_columns.
  - intros l t (i & Hi)%list_elem_of_lookup_1 Ht.
    apply mapM_result_inr in Hcomb.
    destruct (Forall2_lookup_r _ _ _ _ _ Hcomb Hi) as (idx & _ & Hrow).
    by eapply combine_row_shape.
  - intros i Hi.
    destruct (mapM_result_lookup _ _ _ i i Hcomb) as (l & Hl & Hrow).
    { by apply lookup_seq. }
    exists l. split; [done|]. unfold row_tuples. by rewrite Hm, result_bind_inr.
Qed.

(** The frame a successful call returns. *)
Lemma explode_combined_inr (d : DataFrame Cell)
    (combined : list (list (list (option string)))) (columns : list string) (keep : bool) out :
  length combined = nrows d →
  NoDup columns →
  (∀ c, c ∈ columns → c ∈ df_columns d) →
  (∀ l t, l ∈ combined → t ∈ l → t ≠ [] ∧ length t = length columns) →
  explode_combined d combined columns keep = inr out →
  nrows out = sum_list (row_counts keep combined)
  ∧ df_columns out = filter (λ k, k ≠ "_combined") (df_columns d)
  ∧ (∀ c, c ≠ "_combined" → c ∉ columns →
       df_getitem out c = match df_getitem d c with
                          | inr s => inr (repeated (row_counts keep combined) s)
                          | inl e => inl e
                          end)
  ∧ (∀ j c, columns !! j = Some c → c ≠ "_combined" →
       df_getitem out c
       = inr (mkSeries object (selected_values columns j (records keep combined)))).
Proof.
  intros Hlen Hnd Hcols Htuples Hout.
  assert ((∃ c, columns = [c]) ∨ (∀ c, columns ≠ [c])) as [[col ->]|Hmulti'].
  { destruct columns as [|c [|c' columns]]; [by right|left; by exists c|by right]. }
  - destruct (explode_combined_single d combined col keep Hlen)
      as (out' & Hout' & Hrows & Hnames & Hother & Hsel).
    { apply Hcols. by left. }
    rewrite Hout in Hout'. injection Hout' as <-. split_and!; try done.
    + intros c Hc Hc'. apply Hother; [done|]. intros ->. apply Hc'. by left.
    + intros [|j] c Hj Hc; [|done]. injection Hj as <-. by apply Hsel.
  - pose proof (explode_combined_multi d combined columns keep Hlen Hnd Hcols Hmulti' Htuples)
      as Hcases.
    assert (∀ j recs, selected_values columns j recs = field j <$> recs) as Hsv.
    { intros j recs. unfold selected_values.
      destruct columns as [|c [|c' columns]]; [done| |done]. by destruct (Hmulti' c). }
    destruct (records keep combined) as [|[x|t0|l0] rest] eqn:Hrecs.
    + destruct Hcases as (out' & Hout' & Hrows & Hnames & Hother & Hsel).
      rewrite Hout in Hout'. injection Hout' as <-. split_and!; try done.
      intros j c Hj Hc. by rewrite (Hsel j c Hj Hc), Hsv.
    + destruct Hcases as [e He]. by rewrite Hout in He.
    + destruct Hcases as (out' & Hout' & Hrows & Hnames & Hother & Hsel).
      rewrite Hout in Hout'. injection Hout' as <-. split_and!; try done.
      intros j c Hj Hc. by rewrite (Hsel j c Hj Hc), Hsv.
    + destruct Hcases as (out' & Hout' & Hrows & Hnames & Hother & Hsel).
      rewrite Hout in Hout'. injection Hout' as <-. split_and!; try done.
      intros j c Hj Hc. by rewrite (Hsel j c Hj Hc), Hsv.
Qed.

(** * Rows without tuples *)

Lemma records_lookup_empty (combined : list (list (list (option string)))) i :
  combined !! i = Some [] →
  records true combined !! sum_list (take i (row_counts true combined)) = Some (Scalar NA).
Proof.
  revert i. induction combined as [|l combined IH]; intros i Hi; [done|].
  rewrite records_cons, row_counts_cons. destruct i as [|i]; simplify_eq/=; [done|].
  rewrite lookup_app_r by (rewrite length_block; lia).
  rewrite length_block.
  replace (1 `max` length l + sum_list (take i (row_counts true combined)) - 1 `max` length l)
    with (sum_list (take i (row_counts true combined))) by lia.
  by apply IH.
Qed.

Lemma selected_values_lookup columns j recs k r :
  recs !! k = Some r →
  selected_values columns j recs !! k
  = Some (match columns with [_] => r | _ => field j r end).
Proof.
  intros Hk. unfold selected_values.
  destruct columns as [|c [|c' columns]]; by rewrite ?list_lookup_fmap, Hk.
Qed.

(** Rows without tuples, when the call returns.  Let row [i] of the
    input have no aligned tuple, and let [explode_aligned_columns] return a
    table.  Then the rows of that
    table are those the input rows give, [counts] of them for each, in
    order, where row [i] gives none when [keep_empty_rows] is false and
    exactly one when it is true; every unselected column other than
    [_combined] repeats its values accordingly.  When [keep_empty_rows] is
    true, the one row that row [i] gives holds, in every column other than
    [_combined], a missing value if the column is selected and the value
    of row [i] otherwise.  This holds for any number of selected
    columns. *)
Theorem explode_empty_rows (σ σ' : Store) (df : ref) (d : DataFrame Cell)
    (columns : list string) (sep : string) (keep_empty_rows strict_equal_lengths : bool)
    (out : DataFrame Obj) (i : nat) :
  σ !! df = Some d →
  wf_frame d →
  NoDup columns →
  explode_aligned_columns df columns sep keep_empty_rows strict_equal_lengths σ
    = (inr out, σ') →
  i < nrows d →
  row_tuples d columns sep strict_equal_lengths i = inr [] →
  ∃ counts : list nat,
    length counts = nrows d
    ∧ nrows out = sum_list counts
    ∧ counts !! i = Some (if keep_empty_rows then 1 else 0)
    ∧ (∀ c s, df_getitem d c = inr s → c ≠ "_combined" → c ∉ columns →
         df_getitem out c = inr (repeated counts s))
    ∧ (keep_empty_rows = true →
       ∀ c s x, df_getitem d c = inr s → c ≠ "_combined" → values s !! i = Some x →
         ∃ s', df_getitem out c = inr s'
           ∧ values s' !! sum_list (take i counts)
             = Some (if decide (c ∈ columns) then Scalar NA else Scalar x)).
Proof.
  intros Hd%lookup_total_Some Hwf Hnd Hrun Hi Hrow.
  rewrite explode_run, Hd in Hrun. injection Hrun as Hout _.
  destruct (explode_frame_inr _ _ _ _ _ _ Hout)
    as (m & combined & Hm & Hcomb & Hout' & Hlen & Hcols & Htuples & Hrows).
  destruct (explode_combined_inr d combined columns keep_empty_rows out Hlen Hnd Hcols
              Htuples Hout') as (Hnrows & Hnames & Hother & Hsel).
  destruct (Hrows i Hi) as (l & Hl & Hrow'). rewrite Hrow in Hrow'. injection Hrow' as <-.
  assert (row_counts keep_empty_rows combined !! i = Some (if keep_empty_rows then 1 else 0))
    as Hcount.
  { unfold row_counts. rewrite list_lookup_fmap, Hl. by destruct keep_empty_rows. }
  exists (row_counts keep_empty_rows combined). split_and!.
  - unfold row_counts. by rewrite length_fmap.
  - done.
  - done.
  - intros c s Hs Hc Hc'. by rewrite Hother, Hs.
  - intros -> c s x Hs Hc Hx. destruct (decide (c ∈ columns)) as [Hin|Hnin].
    + apply list_elem_of_lookup_1 in Hin as [j Hj].
      eexists. split; [by apply (Hsel j c)|]. cbn [values].
      rewrite (selected_values_lookup _ _ _ _ (Scalar NA)) by by apply records_lookup_empty.
      assert (field j (Scalar NA) = Scalar NA) as Hf by (by destruct j).
      clear -Hf. by destruct columns as [|? [|? ?]]; rewrite ?Hf.
    + eexists. split; [by rewrite Hother, Hs|]. unfold repeated. cbn [values].
      rewrite <- (Nat.add_0_r (sum_list _)).
      apply (lookup_repeat_each _ _ i 1); [done| |lia].
      by rewrite list_lookup_fmap, Hx.
Qed.

(** * Alignment *)

Section zip.
Context {A : Type} `{!Inhabited A}.
Implicit Types (ls : list (list A)).

Lemma mapM_head_rect n ls :
  Forall (λ L, length L = S n) ls → mapM head ls = Some ((λ L, L !!! 0) <$> ls).
Proof.
  intros Hls. apply mapM_Some. apply Forall2_fmap_r, Forall_Forall2_diag.
  eapply Forall_impl; [done|]. by intros [|x L].
Qed.

Lemma zip_upto_rect n ls :
  ls ≠ [] → Forall (λ L, length L = n) ls →
  zip_upto n ls = (λ p, (λ L, L !!! p) <$> ls) <$> seq 0 n.
Proof.
  revert ls. induction n as [|n IH]; intros ls Hne Hls; [done|].
  cbn [zip_upto]. rewrite (mapM_head_rect n) by done.
  change (seq 0 (S n)) with (0 :: seq 1 n). rewrite fmap_cons. f_equal.
  rewrite IH.
  - rewrite <- fmap_S_seq, <- list_fmap_compose. apply list_fmap_ext. intros _ p _.
    unfold compose. rewrite <- list_fmap_compose. apply list_fmap_ext. intros _ L _.
    unfold compose. by destruct L.
  - by destruct ls.
  - apply Forall_fmap. eapply Forall_impl; [done|]. intros [|x L]; cbn; [done|]. lia.
Qed.

Lemma zip_star_rect n ls :
  Forall (λ L, length L = n) ls →
  zip_star ls = match ls with
                | [] => []
                | _ => (λ p, (λ L, L !!! p) <$> ls) <$> seq 0 n
                end.
Proof.
  intros Hls. destruct ls as [|L ls]; [done|]. cbn [zip_star].
  pose proof (Forall_inv Hls) as ->. by apply zip_upto_rect.
Qed.

End zip.

Lemma padded_lookup_total (L : list string) k p :
  ((Some <$> L) ++ replicate k None) !!! p = L !! p.
Proof.
  rewrite list_lookup_total_alt.
  destruct (L !! p) as [x|] eqn:Hp.
  - rewrite lookup_app_l by (rewrite length_fmap; by eapply lookup_lt_Some).
    by rewrite list_lookup_fmap, Hp.
  - apply lookup_ge_None in Hp.
    rewrite lookup_app_r by (by rewrite length_fmap).
    destruct (replicate k None !! _) as [y|] eqn:Hy; [|done].
    by apply lookup_replicate in Hy as [-> _].
Qed.

(** Padding mode: the tuples are the aligned tuples at the positions below
    the longest list. *)
Lemma align_lists_rect (lists : list (list string)) :
  Forall (λ L, length L = max_list (length <$> lists)) (_align_lists lists).
Proof.
  unfold _align_lists. apply Forall_fmap, Forall_forall. intros L HL.
  cbn. rewrite length_app, length_fmap, length_replicate.
  assert (length L ≤ max_list (length <$> lists)); [|lia].
  apply max_list_elem_of_le, list_elem_of_fmap. eauto.
Qed.

Lemma zip_star_align_lists (lists : list (list string)) :
  zip_star (_align_lists lists)
  = aligned_tuple lists <$> seq 0 (max_list (length <$> lists)).
Proof.
  rewrite (zip_star_rect _ _ (align_lists_rect lists)).
  destruct (_align_lists lists) as [|P Ps] eqn:E.
  - apply fmap_nil_inv in E as ->. done.
  - rewrite <- E. apply list_fmap_ext. intros _ p _. unfold aligned_tuple, _align_lists.
    rewrite <- list_fmap_compose. apply list_fmap_ext. intros _ L' _.
    unfold compose. apply padded_lookup_total.
Qed.

Lemma lengths_of_equal (lists : list (list string)) L :
  size (lengths_of lists) ≤ 1 → L ∈ lists → length L = max_list (length <$> lists).
Proof.
  intros Hsize HL.
  assert (length <$> lists ≠ []) as Hne.
  { intros Hnil%fmap_nil_inv. rewrite Hnil in HL. by apply elem_of_nil in HL. }
  apply max_list_elem_of in Hne. apply list_elem_of_fmap in Hne as (L' & Hmax & HL').
  rewrite Hmax. destruct (decide (length L = length L')) as [|Hne]; [done|].
  pose proof (size_lengths_of_gt_1 lists L L' HL HL' Hne). lia.
Qed.

(** Strict mode on lists of one length is padding mode. *)
Lemma strict_align_lists (lists : list (list string)) :
  size (lengths_of lists) ≤ 1 →
  @fmap list _ string (option string) Some <$> lists = _align_lists lists.
Proof.
  intros Hsize. unfold _align_lists. apply list_fmap_ext. intros _ L HL%list_elem_of_lookup_2.
  rewrite <- (lengths_of_equal lists L Hsize HL), Nat.sub_diag. cbn. by rewrite app_nil_r.
Qed.

(** The tuples of a row, from its token lists. *)
Lemma combine_row_tuples (d : DataFrame Cell) (columns : list string) (sep : string)
    (strict : bool) (m : gmap string (list (list string))) (idx : nat) lists :
  (∀ c, c ∈ columns → ∃ toks, column_tokens d sep c = inr toks ∧ m !! c = Some toks) →
  row_lists d columns sep idx = inr lists →
  (strict = true → size (lengths_of lists) ≤ 1) →
  _combine_row columns strict m idx
  = inr (filter (λ t, Is_true (has_data t))
           (aligned_tuple lists <$> seq 0 (max_list (length <$> lists)))).
Proof.
  intros Hm Hlists Hstrict. unfold _combine_row.
  rewrite (combine_row_lists d columns sep m idx Hm), Hlists, result_bind_inr.
  destruct strict.
  - fold (lengths_of lists). rewrite decide_False by (specialize (Hstrict eq_refl); lia).
    rewrite result_bind_inr, strict_align_lists by auto.
    by rewrite zip_star_align_lists.
  - by rewrite result_bind_inr, zip_star_align_lists.
Qed.

(** * Rows that all give [n] tuples *)

Section rectangular.
Context (d : DataFrame Cell) (columns : list string) (sep : string) (n : nat).
Context (Hwf : wf_frame d).
Context (Hcols : ∀ c, c ∈ columns → c ∈ df_columns d).
Context (Hrect : ∀ c s x, c ∈ columns → df_getitem d c = inr s → x ∈ values s →
                   ∃ L, _split_to_list x sep = inr L ∧ length L = n).

Lemma rect_column_tokens c :
  c ∈ columns →
  ∃ s toks, df_getitem d c = inr s ∧ tokenize_series s sep = inr toks
    ∧ column_tokens d sep c = inr toks ∧ length toks = nrows d.
Proof using Hwf Hcols Hrect.
  intros Hc. destruct (df_columns_getitem d c (Hcols c Hc)) as [s Hs].
  destruct (mapM_result_total (λ x, _split_to_list x sep) (values s)) as [toks Htoks].
  { intros x Hx. destruct (Hrect c s x Hc Hs Hx) as (L & HL & _). eauto. }
  exists s, toks. split_and!; [done..| |].
  - unfold column_tokens. by rewrite Hs, result_bind_inr.
  - rewrite (tokenize_series_length s sep toks Htoks). by apply (wf_frame_length d c s).
Qed.

(** The token lists of a row. *)
Lemma rect_row_lists i :
  i < nrows d →
  ∃ lists, row_lists d columns sep i = inr lists
    ∧ length lists = length columns
    ∧ (∀ q c s x L, columns !! q = Some c → df_getitem d c = inr s →
         values s !! i = Some x → _split_to_list x sep = inr L → lists !! q = Some L)
    ∧ Forall (λ L, length L = n ∧ Forall (λ t, PyStr.strip t ≠ EmptyString) L) lists.
Proof using Hwf Hcols Hrect.
  intros Hi.
  destruct (mapM_result_total (λ c, toks ← column_tokens d sep c; iat toks i) columns)
    as [lists Hlists].
  { intros c Hc. destruct (rect_column_tokens c Hc) as (s & toks & _ & _ & -> & Hlen).
    rewrite result_bind_inr. destruct (iat_inr toks i) as (L & -> & _); [lia|]. eauto. }
  assert (∀ q c L, columns !! q = Some c → lists !! q = Some L →
            ∃ s x, df_getitem d c = inr s ∧ values s !! i = Some x
                   ∧ _split_to_list x sep = inr L) as Hcell.
  { intros q c L Hq HL.
    destruct (mapM_result_lookup _ _ _ q c Hlists Hq) as (L' & HL' & Hiat).
    rewrite HL in HL'. injection HL' as <-.
    destruct (rect_column_tokens c) as (s & toks & Hs & Htoks & Hct & Hlen).
    { by eapply list_elem_of_lookup_2. }
    rewrite Hct, result_bind_inr in Hiat. unfold iat in Hiat.
    destruct (toks !! i) as [L'|] eqn:Htoki; [|done]. injection Hiat as ->.
    apply mapM_result_inr in Htoks.
    destruct (Forall2_lookup_r _ _ _ _ _ Htoks Htoki) as (x & Hx & Hsplit).
    by exists s, x. }
  exists lists. split_and!.
  - done.
  - by apply mapM_result_length in Hlists.
  - intros q c s x L Hq Hs Hx HL.
    destruct (mapM_result_lookup _ _ _ q c Hlists Hq) as (L' & HL' & _).
    destruct (Hcell q c L' Hq HL') as (s' & x' & Hs' & Hx' & HL'').
    rewrite Hs in Hs'. injection Hs' as <-. rewrite Hx in Hx'. injection Hx' as <-.
    rewrite HL in HL''. by injection HL'' as <-.
  - apply Forall_forall. intros L (q & Hq)%list_elem_of_lookup_1.
    destruct (lookup_lt_is_Some_2 columns q) as [c Hc].
    { rewrite <- (mapM_result_length _ _ _ Hlists). by eapply lookup_lt_Some. }
    destruct (Hcell q c L Hc Hq) as (s & x & Hs & Hx & HL). split.
    + destruct (Hrect c s x) as (L' & HL' & Hlen);
        [by eapply list_elem_of_lookup_2|done|by eapply list_elem_of_lookup_2|].
      rewrite HL in HL'. by injection HL' as <-.
    + eapply Forall_impl; [by eapply split_to_list_tokens|].
      intros t [Ht Hstrip]. by rewrite Hstrip.
Qed.

End rectangular.

Lemma has_data_aligned_tuple (lists : list (list string)) n p :
  lists ≠ [] →
  Forall (λ L, length L = n ∧ Forall (λ t, PyStr.strip t ≠ EmptyString) L) lists →
  p < n → Is_true (has_data (aligned_tuple lists p)).
Proof.
  intros Hne Hall Hp. destruct lists as [|L lists]; [done|].
  apply Forall_cons in Hall as [[Hlen Htok] _].
  destruct (lookup_lt_is_Some_2 L p) as [t Ht]; [lia|].
  unfold has_data, aligned_tuple. rewrite fmap_cons, Ht. cbn [existsb].
  rewrite bool_decide_true; [done|].
  by apply (proj1 (Forall_forall _ _) Htok), list_elem_of_lookup_2 with p.
Qed.

Lemma lengths_of_rect (lists : list (list string)) n :
  Forall (λ L, length L = n) lists → size (lengths_of lists) ≤ 1.
Proof.
  intros Hall.
  destruct (decide (size (lengths_of lists) ≤ 1)) as [|Hgt]; [done|].
  assert (lengths_of lists ⊆ {[ n ]}) as Hsub.
  { intros k. unfold lengths_of. rewrite elem_of_list_to_set, list_elem_of_fmap.
    intros (L & -> & HL). apply elem_of_singleton.
    by apply (proj1 (Forall_forall _ _) Hall). }
  apply subseteq_size in Hsub. rewrite size_singleton in Hsub. lia.
Qed.

Lemma max_list_rect (lists : list (list string)) n :
  lists ≠ [] → Forall (λ L, length L = n) lists → max_list (length <$> lists) = n.
Proof.
  intros Hne Hall. destruct lists as [|L lists]; [done|].
  symmetry. rewrite <- (proj1 (Forall_forall _ _) Hall L) by left.
  apply lengths_of_equal; [by eapply lengths_of_rect|left].
Qed.

(** What line 123 computes on a table whose selected cells all hold [n]
    tokens: for each row, the [n] aligned tuples of its token lists. *)
Lemma rect_combined (d : DataFrame Cell) (columns : list string) (sep : string) (n : nat)
    (strict : bool) (m : gmap string (list (list string))) :
  wf_frame d →
  (∀ c, c ∈ columns → c ∈ df_columns d) →
  columns ≠ [] →
  (∀ c s x, c ∈ columns → df_getitem d c = inr s → x ∈ values s →
     ∃ L, _split_to_list x sep = inr L ∧ length L = n) →
  (∀ c, c ∈ columns → ∃ toks, column_tokens d sep c = inr toks ∧ m !! c = Some toks) →
  ∃ combined,
    mapM (_combine_row columns strict m) (seq 0 (nrows d)) = inr combined
    ∧ length combined = nrows d
    ∧ ∀ i, i < nrows d →
        ∃ lists, combined !! i = Some (aligned_tuple lists <$> seq 0 n)
          ∧ length lists = length columns
          ∧ ∀ q c s x L, columns !! q = Some c → df_getitem d c = inr s →
              values s !! i = Some x → _split_to_list x sep = inr L → lists !! q = Some L.
Proof.
  intros Hwf Hcols Hne Hrect Hm.
  assert (∀ i, i < nrows d →
            ∃ lists, _combine_row columns strict m i = inr (aligned_tuple lists <$> seq 0 n)
              ∧ length lists = length columns
              ∧ ∀ q c s x L, columns !! q = Some c → df_getitem d c = inr s →
                  values s !! i = Some x → _split_to_list x sep = inr L →
                  lists !! q = Some L) as Hrow.
  { intros i Hi.
    destruct (rect_row_lists d columns sep n Hwf Hcols Hrect i Hi)
      as (lists & Hlists & Hlen & Hcells & Hall).
    assert (lists ≠ []) as Hlne.
    { intros ->. by destruct columns. }
    assert (Forall (λ L : list string, length L = n) lists) as Hall'.
    { eapply Forall_impl; [exact Hall|]. by intros L [? _]. }
    exists lists. split_and!; [|done..].
    rewrite (combine_row_tuples d columns sep strict m i lists Hm Hlists)
      by (intros _; by eapply lengths_of_rect).
    rewrite (max_list_rect lists n Hlne Hall'). f_equal.
    apply filter_Forall_id, Forall_forall.
    intros t (p & -> & Hp%elem_of_seq)%list_elem_of_fmap.
    apply (has_data_aligned_tuple lists n p Hlne Hall). lia. }
  destruct (mapM_result_total (_combine_row columns strict m) (seq 0 (nrows d)))
    as [combined Hcombined].
  { intros i Hi%elem_of_seq. destruct (Hrow i) as (lists & -> & _); [lia|]. eauto. }
  exists combined. split_and!; [done| |].
  - rewrite (mapM_result_length _ _ _ Hcombined). apply length_seq.
  - intros i Hi. destruct (Hrow i Hi) as (lists & Hrowi & Hlen & Hcells).
    destruct (mapM_result_lookup _ _ _ i i Hcombined) as (l & Hl & Hl').
    { by apply lookup_seq. }
    rewrite Hrowi in Hl'. injection Hl' as <-. by exists lists.
Qed.

Lemma row_counts_rect keep (combined : list (list (list (option string)))) n :
  1 ≤ n → Forall (λ l, length l = n) combined →
  row_counts keep combined = replicate (length combined) n.
Proof.
  intros Hn. unfold row_counts. induction 1 as [|l combined Hl _ IH]; [done|].
  rewrite fmap_cons, IH. cbn [length replicate]. f_equal.
  destruct keep; [|done]. rewrite Hl. lia.
Qed.

Lemma block_rect keep (l : list (list (option string))) :
  l ≠ [] → block keep l = Tuple <$> l.
Proof. by destruct l. Qed.

Lemma records_rect_lookup keep (combined : list (list (list (option string)))) n i l j t :
  1 ≤ n → Forall (λ l, length l = n) combined →
  combined !! i = Some l → l !! j = Some t →
  records keep combined !! (i * n + j) = Some (Tuple t).
Proof.
  intros Hn Hall Hi Hj. unfold records.
  assert (j < n) as Hjn.
  { rewrite <- (proj1 (Forall_forall _ _) Hall l) by (by eapply list_elem_of_lookup_2).
    by eapply lookup_lt_Some. }
  apply (join_lookup_Some_same_length' n); [|done|].
  - apply Forall_fmap. eapply Forall_impl; [exact Hall|]. intros l' Hl'. cbn.
    rewrite block_rect by (intros ->; cbn in Hl'; lia). by rewrite length_fmap.
  - exists (Tuple <$> l). split.
    + rewrite list_lookup_fmap, Hi. cbn. f_equal. apply block_rect.
      intros ->. by rewrite lookup_nil in Hj.
    + by rewrite list_lookup_fmap, Hj.
Qed.

Lemma explode_combined_rect_success (d : DataFrame Cell)
    (combined : list (list (list (option string)))) (columns : list string) (keep : bool) :
  length combined = nrows d → NoDup columns → columns ≠ [] →
  (∀ c, c ∈ columns → c ∈ df_columns d) →
  (∀ l t, l ∈ combined → t ∈ l → t ≠ [] ∧ length t = length columns) →
  Forall (λ l, l ≠ []) combined →
  ∃ out, explode_combined d combined columns keep = inr out.
Proof.
  intros Hlen Hnd Hne Hcols Hshape Hall.
  destruct columns as [|c [|c' cs]]; [done| |].
  - destruct (explode_combined_single d combined c keep Hlen) as (out & Hout & _);
      [apply Hcols; left|]. eauto.
  - pose proof (explode_combined_multi d combined (c :: c' :: cs) keep Hlen Hnd Hcols) as H.
    assert (match records keep combined with
            | Scalar _ :: _ => False
            | _ => True
            end) as Hhead.
    { destruct combined as [|l rest]; [done|].
      apply Forall_cons in Hall as [Hl _]. destruct l as [|t l]; [done|]. done. }
    destruct (records keep combined) as [|[x|t|ts] recs]; [|done| |];
      (destruct H as (out & Hout & _); [done|done|eauto]).
Qed.

(** * The row-count law *)

(** The row-count law, for the columns other than [_combined].  On a
    table whose selected cells all tokenize to exactly [n] tokens, [n ≥ 1], [explode_aligned_columns] returns a table
    with [n] rows for each input row, in the order of the input rows and,
    within a row, of the token positions: output row [i * n + j] comes from
    input row [i] and token position [j].  Its columns are those of the
    input other than [_combined], in their order.  Every unselected column
    other than [_combined] holds at row [i * n + j] the value the input has
    at row [i]; a selected column holds there the token at position [j] of
    that cell, wrapped in a 1-tuple when one column is selected. *)
Theorem explode_row_count (σ : Store) (df : ref) (d : DataFrame Cell)
    (columns : list string) (sep : string) (keep_empty_rows strict_equal_lengths : bool)
    (n : nat) :
  σ !! df = Some d →
  wf_frame d →
  NoDup columns →
  columns ≠ [] →
  (∀ c, c ∈ columns → c ∈ df_columns d) →
  1 ≤ n →
  (∀ c s x, c ∈ columns → df_getitem d c = inr s → x ∈ values s →
     ∃ L, _split_to_list x sep = inr L ∧ length L = n) →
  ∃ out,
    explode_aligned_columns df columns sep keep_empty_rows strict_equal_lengths σ
      = (inr out, σ ++ [d])
    ∧ nrows out = nrows d * n
    ∧ df_columns out = filter (λ k, k ≠ "_combined") (df_columns d)
    ∧ (∀ c s, df_getitem d c = inr s → c ≠ "_combined" → c ∉ columns →
         ∃ s', df_getitem out c = inr s'
           ∧ dtype s' = dtype s
           ∧ length (values s') = nrows d * n
           ∧ ∀ i j x, values s !! i = Some x → j < n →
               values s' !! (i * n + j) = Some (Scalar x))
    ∧ (∀ c s, c ∈ columns → df_getitem d c = inr s → c ≠ "_combined" →
         ∃ s', df_getitem out c = inr s'
           ∧ length (values s') = nrows d * n
           ∧ ∀ i j x L tok, values s !! i = Some x → _split_to_list x sep = inr L →
               L !! j = Some tok →
               values s' !! (i * n + j)
               = Some (match columns with
                       | [_] => Tuple [Some tok]
                       | _ => Scalar (Str tok)
                       end)).
Proof.
  intros Hd Hwf Hnd Hne Hcols Hn Hrect.
  rewrite explode_run, (list_lookup_total_correct _ _ _ Hd).
  destruct (split_cols_of_inr d sep columns) as (m & Hm & Hmc).
  { intros c Hc.
    destruct (rect_column_tokens d columns sep n Hwf Hcols Hrect c Hc)
      as (s & toks & _ & _ & H & _). eauto. }
  destruct (rect_combined d columns sep n strict_equal_lengths m Hwf Hcols Hne Hrect Hmc)
    as (combined & Hcomb & Hlen & Hrows).
  assert (∀ l, l ∈ combined → ∃ lists, l = aligned_tuple lists <$> seq 0 n
                                        ∧ length lists = length columns) as Hl.
  { intros l (i & Hi)%list_elem_of_lookup_1.
    destruct (Hrows i) as (lists & Hi' & Hlists & _).
    { rewrite <- Hlen. by eapply lookup_lt_Some. }
    rewrite Hi in Hi'. injection Hi' as ->. eauto. }
  assert (Forall (λ l : list (list (option string)), length l = n) combined) as Hall.
  { apply Forall_forall. intros l (lists & -> & _)%Hl. by rewrite length_fmap, length_seq. }
  assert (∀ l t, l ∈ combined → t ∈ l → t ≠ [] ∧ length t = length columns) as Hshape.
  { intros l t (lists & -> & Hlists)%Hl (p & -> & _)%list_elem_of_fmap.
    unfold aligned_tuple. rewrite <- Hlists. split; [|by rewrite length_fmap].
    intros Hnil%fmap_nil_inv. rewrite Hnil in Hlists. by destruct columns. }
  destruct (explode_combined_rect_success d combined columns keep_empty_rows)
    as [out Hout]; [done..| |].
  { eapply Forall_impl; [exact Hall|]. intros l Hlen' ->. cbn in Hlen'. lia. }
  destruct (explode_combined_inr d combined columns keep_empty_rows out)
    as (Hnrows & Hcolumns & Hunsel & Hsel); [done..|].
  rewrite (row_counts_rect keep_empty_rows combined n Hn Hall), Hlen in Hnrows, Hunsel.
  rewrite sum_list_replicate in Hnrows.
  exists out. split_and!.
  - unfold explode_frame. by rewrite Hm, result_bind_inr, Hcomb, result_bind_inr, Hout.
  - done.
  - done.
  - intros c s Hs Hc Hnin. rewrite (Hunsel c Hc Hnin), Hs.
    pose proof (wf_frame_length d c s Hwf Hs) as Hlens.
    eexists. split; [done|]. cbn [repeated dtype values]. split_and!; [done| |].
    + rewrite length_repeat_each by (by rewrite length_replicate, length_fmap).
      apply sum_list_replicate.
    + intros i j x Hx Hj.
      assert (i < nrows d) as Hi by (rewrite <- Hlens; by eapply lookup_lt_Some).
      rewrite <- (sum_list_take_replicate n (nrows d) i) by lia.
      apply lookup_repeat_each with n; [|by rewrite list_lookup_fmap, Hx|done].
      by apply lookup_replicate_2.
  - intros c s Hc Hs Hne'.
    apply list_elem_of_lookup_1 in Hc as [q Hq].
    rewrite (Hsel q c Hq Hne').
    pose proof (wf_frame_length d c s Hwf Hs) as Hlens.
    eexists. split; [done|]. cbn [values]. split.
    + assert (length (records keep_empty_rows combined) = nrows d * n) as Hrecs.
      { rewrite length_records, (row_counts_rect keep_empty_rows combined n Hn Hall), Hlen.
        apply sum_list_replicate. }
      unfold selected_values. destruct columns as [|? [|? ?]];
        by rewrite ?length_fmap.
    + intros i j x L tok Hx HL Hj.
      assert (i < nrows d) as Hi by (rewrite <- Hlens; by eapply lookup_lt_Some).
      destruct (Hrows i Hi) as (lists & Hci & Hlists & Hcells).
      pose proof (Hcells q c s x L Hq Hs Hx HL) as HqL.
      assert (j < n) as Hjn.
      { destruct (Hrect c s x) as (L' & HL' & <-);
          [by eapply list_elem_of_lookup_2|done|by eapply list_elem_of_lookup_2|].
        rewrite HL in HL'. injection HL' as <-. by eapply lookup_lt_Some. }
      rewrite (selected_values_lookup columns q _ (i * n + j)
                 (Tuple (aligned_tuple lists j))).
      2:{ apply (records_rect_lookup keep_empty_rows combined n i
                   (aligned_tuple lists <$> seq 0 n)); [done..|].
          rewrite list_lookup_fmap, lookup_seq_lt by done. done. }
      f_equal. destruct columns as [|c0 [|c1 cs]]; [done| |].
      * destruct lists as [|L0 [|? ?]]; [done| |done].
        destruct q; [|by rewrite lookup_cons, lookup_nil in Hq].
        cbn in HqL. injection HqL as ->. unfold aligned_tuple. cbn. by rewrite Hj.
      * unfold field, fields_of, aligned_tuple.
        by rewrite !list_lookup_fmap, HqL; cbn; rewrite Hj.
Qed.

(** * Rows whose selected cells are all missing *)

(** Such a row has no aligned tuple, in either mode. *)
Lemma row_tuples_all_missing (d : DataFrame Cell) (columns : list string) (sep : string)
    (strict : bool) (i : nat) :
  wf_frame d →
  (∀ c, c ∈ columns → ∃ toks, column_tokens d sep c = inr toks) →
  i < nrows d →
  (∀ c s, c ∈ columns → df_getitem d c = inr s → values s !! i = Some NA) →
  row_tuples d columns sep strict i = inr [].
Proof.
  intros Hwf Htoks Hi Hna.
  destruct (split_cols_of_inr d sep columns Htoks) as (m & Hm & Hmc).
  unfold row_tuples. rewrite Hm, result_bind_inr.
  assert (∀ c, c ∈ columns → (toks ← column_tokens d sep c; iat toks i) = inr []) as Hcell.
  { intros c Hc. destruct (Htoks c Hc) as [toks Hc'].
    rewrite Hc', result_bind_inr. unfold column_tokens in Hc'.
    destruct (df_getitem d c) as [e|s] eqn:Hs; [done|]. rewrite result_bind_inr in Hc'.
    pose proof (wf_frame_length d c s Hwf Hs) as Hlen.
    pose proof (tokenize_series_length s sep toks Hc') as Hlen'.
    destruct (iat_inr toks i) as (L & HL & HiL); [lia|]. rewrite HL. f_equal.
    apply mapM_result_inr in Hc'.
    destruct (Forall2_lookup_r _ _ _ _ _ Hc' HiL) as (x & Hx & Hsplit).
    rewrite (Hna c s Hc Hs) in Hx. injection Hx as <-.
    by injection Hsplit as <-. }
  assert (row_lists d columns sep i = inr (replicate (length columns) [])) as Hlists.
  { unfold row_lists. clear -Hcell. induction columns as [|c columns IH]; [done|].
    rewrite mapM_result_cons, Hcell, result_bind_inr by left.
    rewrite IH by (intros ??; apply Hcell; by right). done. }
  rewrite (combine_row_tuples d columns sep strict m i _ Hmc Hlists).
  - assert (max_list (length <$> replicate (length columns) (@nil string)) = 0) as ->; [|done].
    clear. by induction (length columns) as [|k IH]; [|cbn; rewrite IH].
  - intros _. apply (lengths_of_rect _ 0), Forall_replicate. done.
Qed.

(** * The statements on sample tables *)

Lemma wf_frame_accidents : wf_frame accidents.
Proof. split; [compute_done|repeat constructor]. Qed.

Lemma explode_strict_unequal_lengths_witness :
  ∃ j lists_j,
    j ≤ 1
    ∧ row_lists accidents ["Security_measures"; "User_of_security_measures"; "Sex"] "," j
      = inr lists_j
    ∧ 1 < size (lengths_of lists_j)
    ∧ (∀ k lists_k, k < j →
         row_lists accidents ["Security_measures"; "User_of_security_measures"; "Sex"] "," k
         = inr lists_k →
         size (lengths_of lists_k) ≤ 1)
    ∧ explode_aligned_columns 0 ["Security_measures"; "User_of_security_measures"; "Sex"]
        "," false true [accidents]
      = (inl (ValueError (UnequalTokenLengths j
                ["Security_measures"; "User_of_security_measures"; "Sex"]
                (lengths_of lists_j))), [accidents] ++ [accidents]).
Proof.
  apply (explode_strict_unequal_lengths [accidents] 0 accidents
           ["Security_measures"; "User_of_security_measures"; "Sex"] "," false 1
           [["Seat Belt"]; ["Yes"; "No"]; ["Man"; "Woman"]] ["Seat Belt"] ["Yes"; "No"]).
  - reflexivity.
  - exact wf_frame_accidents.
  - discriminate.
  - apply (proj1 (Forall_forall (λ c, c ∈ df_columns accidents) _)). compute_done.
  - reflexivity.
  - by left.
  - right. by left.
  - simpl. lia.
Defined.

Lemma explode_missing_column_witness :
  explode_aligned_columns 0 (["Sex"] ++ "Age" :: ["Security_measures"]) "," false true
    [accidents]
  = (inl (KeyError "Age"), [accidents] ++ [accidents]).
Proof.
  apply (explode_missing_column [accidents] 0 accidents ["Sex"] ["Security_measures"]
           "Age" "," false true).
  - reflexivity.
  - discriminate.
  - intros c ->%list_elem_of_singleton. compute_done.
  - compute_done.
Defined.

(** C4 as stated fails: without any selected column nothing is raised. *)
Lemma explode_no_columns_no_error :
  (explode_aligned_columns 0 [] "," false false [hollow]).1
  = inr (mkFrame 0 [("A", mkSeries object []); ("B", mkSeries object [])]).
Proof. reflexivity. Qed.

(** C3: on one selected column the cells that come out are 1-tuples,
    where the general path leaves the tokens themselves. *)
Theorem explode_single_column_leaves_tuples :
  (explode_aligned_columns 0 ["X"] "," false false [frame_of 1 [("X", [Str "a,b"])]]).1
  = inr (mkFrame 2 [("X", mkSeries object [Tuple [Some "a"]; Tuple [Some "b"]])])
  ∧ explode_combined_general (frame_of 1 [("X", [Str "a,b"])]) [[[Some "a"]; [Some "b"]]]
      ["X"] false
    = inr (mkFrame 2 [("X", mkSeries object [Scalar (Str "a"); Scalar (Str "b")])]).
Proof. split; reflexivity. Qed.

(** C10 as stated fails: the string [ a] holds no delimiter and is not
    pure white space, and the join of the one-element sequence tokenizes
    to [a], line 50 having trimmed it. *)
Lemma tokenize_join_trims :
  _split_to_list (Str (PyStr.join "," [" a"])) "," = inr ["a"]
  ∧ PyStr.contains "," " a" = false
  ∧ PyStr.strip " a" = "a".
Proof. split_and!; reflexivity. Qed.





Lemma detect_flags_by_share_witness :
  detect_multivalue_columns 0 None "," (1 # 100) [hollow] = (inr ["B"], [hollow]).
Proof.
  refine (proj1 (detect_flags_by_share [hollow] 0 hollow None "," (1 # 100) _ _)).
  - reflexivity.
  - apply (proj1 (Forall_forall (λ c, c ∈ df_columns hollow) _)). compute_done.
Defined.

(** C9 as stated fails: with [min_share = 0] a column without any value is
    flagged. *)
Lemma detect_flags_hollow_column :
  (detect_multivalue_columns 0 (Some ["A"]) "," 0 [hollow]).1 = inr ["A"]
  ∧ filter (λ x, isna x = false) [NA; NA] = []
  ∧ df_getitem hollow "A" = inr (mkSeries object [NA; NA]).
Proof. split_and!; reflexivity. Qed.

(** * The explosion laws on sample tables *)

Lemma wf_frame_gappy : wf_frame gappy.
Proof. split; [compute_done|repeat constructor]. Qed.

Lemma explode_row_count_witness :
  ∃ out,
    explode_aligned_columns 0 ["User_of_security_measures"; "Sex"] "," false false [accidents]
      = (inr out, [accidents] ++ [accidents])
    ∧ nrows out = 2 * 2
    ∧ df_columns out
      = ["ID_accident"; "Security_measures"; "User_of_security_measures"; "Sex"].
Proof.
  destruct (explode_row_count [accidents] 0 accidents ["User_of_security_measures"; "Sex"]
              "," false false 2) as (out & Hrun & Hnrows & Hcolumns & _).
  - reflexivity.
  - exact wf_frame_accidents.
  - compute_done.
  - discriminate.
  - apply (proj1 (Forall_forall (λ c, c ∈ df_columns accidents) _)). compute_done.
  - lia.
  - intros c s x Hc Hs Hx.
    apply elem_of_cons in Hc as [->|Hc];
      [|apply list_elem_of_singleton in Hc as ->];
      injection Hs as <-; cbn [values] in Hx;
      repeat (apply elem_of_cons in Hx as [->|Hx]; [by eexists|]);
      by apply elem_of_nil in Hx.
  - exists out. by split_and!.
Defined.

(** C1.  An unselected column is not always passed through.  Here both
    selected columns hold two tokens in each row, and the unselected
    column [_combined] of the input is absent from the result: line 124
    takes its name for the scratch column, which line 139 drops. *)
Lemma explode_drops_scratch_column :
  (explode_aligned_columns 0 ["A"; "C"] "," false false [scratchy]).1
  = inr (mkFrame 4
           [("A", mkSeries object
                    [Scalar (Str "x"); Scalar (Str "y"); Scalar (Str "u"); Scalar (Str "v")]);
            ("B", mkSeries object [Scalar NA; Scalar NA; Scalar NA; Scalar NA]);
            ("C", mkSeries object
                    [Scalar (Str "p"); Scalar (Str "q"); Scalar (Str "r"); Scalar (Str "s")])])
  ∧ column_tokens scratchy "," "A" = inr [["x"; "y"]; ["u"; "v"]]
  ∧ column_tokens scratchy "," "C" = inr [["p"; "q"]; ["r"; "s"]]
  ∧ df_getitem scratchy "_combined" = inr (mkSeries object [Int 1; Int 2]).
Proof. split_and!; reflexivity. Qed.

Lemma explode_empty_rows_witness :
  ∃ counts : list nat,
    length counts = 2
    ∧ nrows gappy_kept = sum_list counts
    ∧ counts !! 1 = Some 1
    ∧ (∀ c s, df_getitem gappy c = inr s → c ≠ "_combined" → c ∉ ["A"; "B"] →
         df_getitem gappy_kept c = inr (repeated counts s))
    ∧ (true = true →
       ∀ c s x, df_getitem gappy c = inr s → c ≠ "_combined" → values s !! 1 = Some x →
         ∃ s', df_getitem gappy_kept c = inr s'
           ∧ values s' !! sum_list (take 1 counts)
             = Some (if decide (c ∈ ["A"; "B"]) then Scalar NA else Scalar x)).
Proof.
  apply (explode_empty_rows [gappy] ([gappy] ++ [gappy]) 0 gappy ["A"; "B"] "," true false
           gappy_kept 1).
  - reflexivity.
  - exact wf_frame_gappy.
  - compute_done.
  - reflexivity.
  - simpl. lia.
  - reflexivity.
Defined.

(** A kept row loses its value in a column named [_combined] as well:
    row 0 has no aligned tuple and is kept, and the row that comes out is
    the original row with [B] missing but for that column, which is
    gone. *)
Lemma explode_keep_empty_drops_scratch_column :
  (explode_aligned_columns 0 ["B"] "," true false [scratchy]).1
  = inr (mkFrame 2
           [("A", mkSeries object [Scalar (Str "x,y"); Scalar (Str "u,v")]);
            ("B", mkSeries object [Scalar NA; Scalar NA]);
            ("C", mkSeries object [Scalar (Str "p,q"); Scalar (Str "r,s")])])
  ∧ row_tuples scratchy ["B"] "," false 0 = inr []
  ∧ df_getitem scratchy "_combined" = inr (mkSeries object [Int 1; Int 2]).
Proof. split_and!; reflexivity. Qed.

(** C5.  A row without aligned tuples is not always kept once.  With two
    selected columns and [keep_empty_rows] true, the one row of this
    table, whose selected cells are both missing, makes line 135 raise:
    the first record is NaN, so [pd.DataFrame] builds one column where two
    labels are given.  With [keep_empty_rows] false the row is dropped and
    a table without rows is returned. *)
Lemma explode_keep_empty_first_row_raises :
  row_tuples hollow_pair ["A"; "B"] "," false 0 = inr []
  ∧ (explode_aligned_columns 0 ["A"; "B"] "," true false [hollow_pair]).1
    = inl (ValueError (ShapeMismatch (1, 1) (1, 2)))
  ∧ (explode_aligned_columns 0 ["A"; "B"] "," false false [hollow_pair]).1
    = inr (mkFrame 0 [("A", mkSeries object []); ("B", mkSeries object [])]).
Proof. split_and!; reflexivity. Qed.

(** * The row aligner on any row *)

(** The token lists of a row hold tokens only. *)
Lemma row_lists_tokens (d : DataFrame Cell) (columns : list string) (sep : string)
    (i : nat) lists :
  row_lists d columns sep i = inr lists →
  Forall (Forall (λ t, PyStr.strip t ≠ EmptyString)) lists.
Proof.
  intros Hlists%mapM_result_inr. apply Forall_forall.
  intros L (q & Hq)%list_elem_of_lookup_1.
  destruct (Forall2_lookup_r _ _ _ _ _ Hlists Hq) as (c & _ & Hc).
  unfold column_tokens in Hc.
  destruct (df_getitem d c) as [e|s]; [done|]. rewrite result_bind_inr in Hc.
  destruct (tokenize_series s sep) as [e|toks] eqn:Htoks; [done|].
  rewrite result_bind_inr in Hc. unfold iat in Hc.
  destruct (toks !! i) as [L'|] eqn:Hi; [|done]. injection Hc as ->.
  apply mapM_result_inr in Htoks.
  destruct (Forall2_lookup_r _ _ _ _ _ Htoks Hi) as (x & _ & Hx).
  eapply Forall_impl; [by eapply split_to_list_tokens|].
  intros t [Hne Ht]. by rewrite Ht.
Qed.

(** At a position below the longest list some list has a token. *)
Lemma has_data_below_max (lists : list (list string)) p :
  Forall (Forall (λ t, PyStr.strip t ≠ EmptyString)) lists →
  p < max_list (length <$> lists) →
  Is_true (has_data (aligned_tuple lists p)).
Proof.
  intros Htok Hp.
  assert (length <$> lists ≠ []) as Hne.
  { intros Hnil. rewrite Hnil in Hp. cbn in Hp. lia. }
  apply max_list_elem_of in Hne. apply list_elem_of_fmap in Hne as (L & Hmax & HL).
  destruct (lookup_lt_is_Some_2 L p) as [t Ht]; [lia|].
  unfold has_data, aligned_tuple. apply Is_true_true, existsb_exists.
  exists (Some t). split.
  - apply list_elem_of_In, list_elem_of_fmap. exists L. by rewrite Ht.
  - apply bool_decide_eq_true.
    apply (proj1 (Forall_forall _ _) (proj1 (Forall_forall _ _) Htok L HL)).
    by eapply list_elem_of_lookup_2.
Qed.

(** The tuples of a row whose token lists pass the test of line 112, and
    of any row in padding mode: none is dropped on line 120. *)
Lemma combine_row_all_tuples (d : DataFrame Cell) (columns : list string) (sep : string)
    (strict : bool) (m : gmap string (list (list string))) (i : nat) lists :
  (∀ c, c ∈ columns → ∃ toks, column_tokens d sep c = inr toks ∧ m !! c = Some toks) →
  row_lists d columns sep i = inr lists →
  (strict = true → size (lengths_of lists) ≤ 1) →
  _combine_row columns strict m i
  = inr (aligned_tuple lists <$> seq 0 (max_list (length <$> lists))).
Proof.
  intros Hm Hlists Hstrict.
  rewrite (combine_row_tuples d columns sep strict m i lists Hm Hlists Hstrict). f_equal.
  apply filter_Forall_id, Forall_forall.
  intros t (p & -> & Hp%elem_of_seq)%list_elem_of_fmap.
  apply has_data_below_max; [by eapply row_lists_tokens|lia].
Qed.

(** What line 123 computes when no row is refused: the tuples of every
    row, none dropped. *)
Lemma combined_all_tuples (d : DataFrame Cell) (columns : list string) (sep : string)
    (strict : bool) (m : gmap string (list (list string))) :
  wf_frame d →
  sep ≠ EmptyString →
  (∀ c, c ∈ columns → c ∈ df_columns d) →
  (∀ c, c ∈ columns → ∃ toks, column_tokens d sep c = inr toks ∧ m !! c = Some toks) →
  (strict = true →
   ∀ i lists, row_lists d columns sep i = inr lists → size (lengths_of lists) ≤ 1) →
  ∃ combined,
    mapM (_combine_row columns strict m) (seq 0 (nrows d)) = inr combined
    ∧ length combined = nrows d
    ∧ ∀ i, i < nrows d →
        ∃ lists, row_lists d columns sep i = inr lists
          ∧ _combine_row columns strict m i
            = inr (aligned_tuple lists <$> seq 0 (max_list (length <$> lists)))
          ∧ combined !! i = Some (aligned_tuple lists <$> seq 0 (max_list (length <$> lists))).
Proof.
  intros Hwf Hsep Hcols Hm Hstrict.
  assert (∀ i, i < nrows d →
            ∃ lists, row_lists d columns sep i = inr lists
              ∧ _combine_row columns strict m i
                = inr (aligned_tuple lists <$> seq 0 (max_list (length <$> lists)))) as Hrow.
  { intros i Hi.
    destruct (row_lists_total d columns sep i Hwf Hsep Hcols Hi) as [lists Hlists].
    exists lists. split; [done|].
    apply (combine_row_all_tuples d columns sep strict m i lists Hm Hlists).
    intros Hs. by apply (Hstrict Hs i). }
  destruct (mapM_result_total (_combine_row columns strict m) (seq 0 (nrows d)))
    as [combined Hcombined].
  { intros i Hi%elem_of_seq. destruct (Hrow i) as (lists & _ & ->); [lia|]. eauto. }
  exists combined. split_and!; [done| |].
  - rewrite (mapM_result_length _ _ _ Hcombined). apply length_seq.
  - intros i Hi. destruct (Hrow i Hi) as (lists & Hlists & Hrowi).
    destruct (mapM_result_lookup _ _ _ i i Hcombined) as (l & Hl & Hl').
    { by apply lookup_seq. }
    rewrite Hrowi in Hl'. injection Hl' as <-. by exists lists.
Qed.

(** In padding mode a row gives as many aligned tuples as its longest
    token list has tokens.  The tuple at position [p] holds, for each
    selected column in order, the token at position [p] of its list, or
    [None] where the list is shorter: no tuple is dropped, no token is
    lost, and every tuple has one entry per selected column. *)
Theorem padding_row_tuples (d : DataFrame Cell) (columns : list string) (sep : string)
    (i : nat) :
  wf_frame d →
  sep ≠ EmptyString →
  (∀ c, c ∈ columns → c ∈ df_columns d) →
  i < nrows d →
  ∃ lists tuples,
    row_lists d columns sep i = inr lists
    ∧ row_tuples d columns sep false i = inr tuples
    ∧ tuples = aligned_tuple lists <$> seq 0 (max_list (length <$> lists))
    ∧ length tuples = max_list (length <$> lists)
    ∧ Forall (λ t, length t = length columns) tuples
    ∧ ∀ q L p tok, lists !! q = Some L → L !! p = Some tok →
        ∃ t, tuples !! p = Some t ∧ t !! q = Some (Some tok).
Proof.
  intros Hwf Hsep Hcols Hi.
  destruct (split_cols_of_inr d sep columns) as (m & Hm & Hmc).
  { intros c Hc. by apply column_tokens_total, Hcols. }
  destruct (row_lists_total d columns sep i Hwf Hsep Hcols Hi) as [lists Hlists].
  exists lists, (aligned_tuple lists <$> seq 0 (max_list (length <$> lists))).
  split_and!; [done| |done| | |].
  - unfold row_tuples. rewrite Hm, result_bind_inr.
    by apply (combine_row_all_tuples d columns sep false m i lists Hmc Hlists).
  - by rewrite length_fmap, length_seq.
  - apply Forall_fmap, Forall_forall. intros p _. cbn. unfold aligned_tuple.
    rewrite length_fmap. unfold row_lists in Hlists.
    by apply mapM_result_length in Hlists.
  - intros q L p tok Hq Hp.
    assert (p < max_list (length <$> lists)) as Hlt.
    { apply Nat.lt_le_trans with (length L); [by eapply lookup_lt_Some|].
      apply max_list_elem_of_le, list_elem_of_fmap. exists L.
      split; [done|by eapply list_elem_of_lookup_2]. }
    exists (aligned_tuple lists p). split.
    + by rewrite list_lookup_fmap, lookup_seq_lt.
    + unfold aligned_tuple. by rewrite list_lookup_fmap, Hq; cbn; rewrite Hp.
Qed.

(** Strict mode only adds the test of line 112: on a table in which the
    token lists of every row are of one length, strict mode and padding
    mode do the same, whether they return a table or raise. *)
Theorem strict_agrees_with_padding (σ : Store) (df : ref) (d : DataFrame Cell)
    (columns : list string) (sep : string) (keep_empty_rows : bool) :
  σ !! df = Some d →
  (∀ i lists, row_lists d columns sep i = inr lists → size (lengths_of lists) ≤ 1) →
  explode_aligned_columns df columns sep keep_empty_rows true σ
  = explode_aligned_columns df columns sep keep_empty_rows false σ.
Proof.
  intros Hd Hrows. rewrite !explode_run, (list_lookup_total_correct _ _ _ Hd).
  f_equal. unfold explode_frame.
  destruct (split_cols_of d columns sep) as [e|m] eqn:Hm; [done|].
  rewrite !result_bind_inr.
  pose proof (split_cols_of_inr_inv d sep columns m Hm) as Hmc.
  assert (mapM (_combine_row columns true m) (seq 0 (nrows d))
          = mapM (_combine_row columns false m) (seq 0 (nrows d))) as ->; [|done].
  apply mapM_result_ext. intros i _. unfold _combine_row.
  rewrite (combine_row_lists d columns sep m i Hmc).
  destruct (row_lists d columns sep i) as [e|lists] eqn:Hlists; [done|].
  rewrite !result_bind_inr. pose proof (Hrows i lists Hlists) as Hsize.
  unfold lengths_of in Hsize. rewrite decide_False by lia.
  by rewrite (strict_align_lists lists Hsize).
Qed.

(** * When the explosion returns and when it raises *)

Lemma records_false_tuples (combined : list (list (list (option string)))) :
  match records false combined with
  | Scalar _ :: _ => False
  | _ => True
  end.
Proof.
  induction combined as [|l combined IH]; [done|].
  unfold records in *. rewrite fmap_cons. cbn [mjoin].
  destruct l as [|t l]; [exact IH|done].
Qed.

Lemma explode_combined_returns (d : DataFrame Cell)
    (combined : list (list (list (option string)))) (columns : list string) (keep : bool) :
  length combined = nrows d → NoDup columns →
  (∀ c, c ∈ columns → c ∈ df_columns d) →
  (∀ l t, l ∈ combined → t ∈ l → t ≠ [] ∧ length t = length columns) →
  keep = false ∨ (∃ c, columns = [c]) ∨ combined = []
    ∨ (∃ t l rest, combined = (t :: l) :: rest) →
  ∃ out, explode_combined d combined columns keep = inr out.
Proof.
  intros Hlen Hnd Hcols Hshape Hcase.
  assert ((∃ c, columns = [c]) ∨ ∀ c, columns ≠ [c]) as [[c ->]|Hmulti].
  { destruct columns as [|c [|c' cs]]; [by right|left; by exists c|by right]. }
  { destruct (explode_combined_single d combined c keep Hlen) as (out & Hout & _);
      [apply Hcols; left|]. eauto. }
  pose proof (explode_combined_multi d combined columns keep Hlen Hnd Hcols Hmulti Hshape) as H.
  assert (match records keep combined with
          | Scalar _ :: _ => False
          | _ => True
          end) as Hhead.
  { destruct Hcase as [->|[[c ->]|[->|(t & l & rest & ->)]]].
    - apply records_false_tuples.
    - by destruct (Hmulti c).
    - done.
    - done. }
  destruct (records keep combined) as [|[x|t|ts] recs]; [|done| |];
    (destruct H as (out & Hout & _); eauto).
Qed.

Lemma explode_combined_first_empty (d : DataFrame Cell)
    (rest : list (list (list (option string)))) (columns : list string) :
  length ([] :: rest) = nrows d →
  (∀ c, columns ≠ [c]) →
  explode_combined d ([] :: rest) columns true
  = inl (ValueError (ShapeMismatch (sum_list (row_counts true ([] :: rest)), 1)
                       (sum_list (row_counts true ([] :: rest)), length columns))).
Proof.
  intros Hlen Hmulti.
  destruct (explode_stage d ([] :: rest) true Hlen)
    as (F1 & F2 & F3 & H1 & H2 & H3 & _ & _ & Hscratch & _).
  unfold explode_combined.
  rewrite H1, result_bind_inr, H2, result_bind_inr, H3, result_bind_inr.
  rewrite (unpack_multi _ _ Hmulti). unfold unpack_general.
  rewrite Hscratch, result_bind_inr. cbn [values].
  rewrite <- (length_records true ([] :: rest)).
  change (records true ([] :: rest)) with (Scalar NA :: records true rest).
  cbn [pd_DataFrame]. destruct columns as [|c [|c' columns]]; [done| |done].
  by destruct (Hmulti c).
Qed.

(** [explode_aligned_columns] returns a table on every well-formed table
    that has the selected columns, for a non-empty delimiter, as soon as
    no row is refused by strict mode and one of these holds: empty rows
    are not kept, one column is selected, the table has no row, or its
    first row has an aligned tuple. *)
Theorem explode_returns (σ : Store) (df : ref) (d : DataFrame Cell)
    (columns : list string) (sep : string) (keep_empty_rows strict_equal_lengths : bool) :
  σ !! df = Some d →
  wf_frame d →
  sep ≠ EmptyString →
  NoDup columns →
  (∀ c, c ∈ columns → c ∈ df_columns d) →
  (strict_equal_lengths = true →
   ∀ i lists, row_lists d columns sep i = inr lists → size (lengths_of lists) ≤ 1) →
  keep_empty_rows = false ∨ (∃ c, columns = [c]) ∨ nrows d = 0
    ∨ (∃ t l, row_tuples d columns sep strict_equal_lengths 0 = inr (t :: l)) →
  ∃ out,
    explode_aligned_columns df columns sep keep_empty_rows strict_equal_lengths σ
    = (inr out, σ ++ [d]).
Proof.
  intros Hd Hwf Hsep Hnd Hcols Hstrict Hcase.
  rewrite explode_run, (list_lookup_total_correct _ _ _ Hd).
  destruct (split_cols_of_inr d sep columns) as (m & Hm & Hmc).
  { intros c Hc. by apply column_tokens_total, Hcols. }
  destruct (combined_all_tuples d columns sep strict_equal_lengths m Hwf Hsep Hcols Hmc Hstrict)
    as (combined & Hcomb & Hlen & Hrows).
  destruct (explode_combined_returns d combined columns keep_empty_rows) as [out Hout];
    [done..| | |].
  - intros l t (i & Hi)%list_elem_of_lookup_1 Ht.
    assert (i < nrows d) as Hlt by (rewrite <- Hlen; by eapply lookup_lt_Some).
    apply (combine_row_shape columns strict_equal_lengths m i l); [|done].
    destruct (mapM_result_lookup _ _ _ i i Hcomb) as (l' & Hl' & Hrow);
      [by apply lookup_seq|]. rewrite Hi in Hl'. by injection Hl' as <-.
  - destruct Hcase as [?|[?|[Hzero|(t & l & Hfirst)]]]; [by left|by right; left| |].
    + right; right; left. apply nil_length_inv. by rewrite Hlen.
    + destruct combined as [|l0 rest]; [by right; right; left|].
      right; right; right.
      destruct (Hrows 0) as (lists & _ & Hrow0 & Hc0).
      { rewrite <- Hlen. cbn. lia. }
      unfold row_tuples in Hfirst. rewrite Hm, result_bind_inr, Hrow0 in Hfirst.
      cbn in Hc0. injection Hc0 as ->. injection Hfirst as Hfirst.
      rewrite Hfirst. by exists t, l, rest.
  - exists out. unfold explode_frame.
    by rewrite Hm, result_bind_inr, Hcomb, result_bind_inr, Hout.
Qed.

Lemma row_counts_true_ge (combined : list (list (list (option string)))) :
  length combined ≤ sum_list (row_counts true combined).
Proof.
  induction combined as [|l combined IH]; [done|].
  unfold row_counts in *. rewrite fmap_cons. simpl. lia.
Qed.

(** Line 135 raises when empty rows are kept, the selection is not a
    single column and the first row has no aligned tuple (the rows being
    such that line 123 raises nothing): the first record handed to the
    [DataFrame] constructor is then NaN, so the constructor builds one
    column where it is given the labels of [columns].  The [ValueError]
    carries both shapes, [n] being the number of records; no table is
    returned and the input table is unchanged. *)
Theorem explode_first_row_empty_raises (σ : Store) (df : ref) (d : DataFrame Cell)
    (columns : list string) (sep : string) (strict_equal_lengths : bool) :
  σ !! df = Some d →
  (∀ c, columns ≠ [c]) →
  (∀ i, i < nrows d → ∃ l, row_tuples d columns sep strict_equal_lengths i = inr l) →
  0 < nrows d →
  row_tuples d columns sep strict_equal_lengths 0 = inr [] →
  ∃ n, nrows d ≤ n
    ∧ explode_aligned_columns df columns sep true strict_equal_lengths σ
      = (inl (ValueError (ShapeMismatch (n, 1) (n, length columns))), σ ++ [d]).
Proof.
  intros Hd Hmulti Hrows Hpos Hrow0.
  rewrite explode_run, (list_lookup_total_correct _ _ _ Hd).
  unfold explode_frame. unfold row_tuples in Hrow0, Hrows.
  destruct (split_cols_of d columns sep) as [e|m] eqn:Hm; [done|].
  rewrite result_bind_inr in Hrow0.
  destruct (mapM_result_total (_combine_row columns strict_equal_lengths m) (seq 0 (nrows d)))
    as [combined Hcomb].
  { intros i Hi%elem_of_seq. destruct (Hrows i) as [l Hl]; [lia|].
    rewrite result_bind_inr in Hl. eauto. }
  pose proof (mapM_result_length _ _ _ Hcomb) as Hlen. rewrite length_seq in Hlen.
  destruct (mapM_result_lookup _ _ _ 0 0 Hcomb) as (l0 & Hl0 & Hl0').
  { by apply lookup_seq. }
  rewrite Hrow0 in Hl0'. injection Hl0' as <-.
  destruct combined as [|l rest]; [done|]. cbn in Hl0. injection Hl0 as ->.
  exists (sum_list (row_counts true ([] :: rest))). split.
  - rewrite <- Hlen. apply row_counts_true_ge.
  - rewrite !result_bind_inr, Hcomb, result_bind_inr.
    by rewrite (explode_combined_first_empty d rest columns Hlen Hmulti).
Qed.

(** * The table the explosion returns *)

Lemma records_lookup_tuple keep (combined : list (list (list (option string)))) i l j t :
  combined !! i = Some l → l !! j = Some t →
  records keep combined !! (sum_list (take i (row_counts keep combined)) + j)
  = Some (Tuple t).
Proof.
  revert i. induction combined as [|l0 combined IH]; intros i Hi Hj; [done|].
  rewrite records_cons, row_counts_cons. destruct i as [|i]; simplify_eq/=.
  - rewrite lookup_app_l by (rewrite length_block; apply lookup_lt_Some in Hj;
                             destruct keep; lia).
    destruct l as [|t0 l]; [done|]. cbn [block]. by rewrite list_lookup_fmap, Hj.
  - rewrite lookup_app_r by (rewrite length_block; lia).
    rewrite length_block.
    match goal with
    | |- records _ _ !! ?k = _ =>
        replace k with (sum_list (take i (row_counts keep combined)) + j) by lia
    end.
    by apply IH.
Qed.

Lemma wf_frame_intro {A} (df : DataFrame A) :
  NoDup (df_columns df) →
  (∀ c, c ∈ df_columns df → ∃ s, df_getitem df c = inr s ∧ length (values s) = nrows df) →
  wf_frame df.
Proof.
  intros Hnd Hcols. split; [done|]. apply Forall_forall. intros [c s] Hin.
  destruct (Hcols c) as (s' & Hs' & Hlen).
  { apply list_elem_of_fmap. by exists (c, s). }
  unfold df_getitem in Hs'. rewrite (elem_of_lookup_column c s (cols df) Hnd Hin) in Hs'.
  by injection Hs' as <-.
Qed.

Lemma length_selected_values columns j recs :
  length (selected_values columns j recs) = length recs.
Proof. unfold selected_values. destruct columns as [|? [|? ?]]; by rewrite ?length_fmap. Qed.

(** Whenever [explode_aligned_columns] returns a table, that table is
    well formed (distinct labels, every column as long as the index); its
    columns are those of the input other than [_combined], in their order;
    and it has, for every input row in turn, one row per aligned tuple of
    that row, or one row for a row without tuples when empty rows are
    kept. *)
Theorem explode_result_shape (σ σ' : Store) (df : ref) (d : DataFrame Cell)
    (columns : list string) (sep : string) (keep_empty_rows strict_equal_lengths : bool)
    (out : DataFrame Obj) :
  σ !! df = Some d →
  wf_frame d →
  NoDup columns →
  explode_aligned_columns df columns sep keep_empty_rows strict_equal_lengths σ
    = (inr out, σ') →
  ∃ counts : list nat,
    length counts = nrows d
    ∧ (∀ i, i < nrows d →
         ∃ l, row_tuples d columns sep strict_equal_lengths i = inr l
           ∧ counts !! i = Some (if keep_empty_rows then max 1 (length l) else length l))
    ∧ nrows out = sum_list counts
    ∧ df_columns out = filter (λ k, k ≠ "_combined") (df_columns d)
    ∧ wf_frame out.
Proof.
  intros Hd%lookup_total_Some Hwf Hnd Hrun.
  rewrite explode_run, Hd in Hrun. injection Hrun as Hout _.
  destruct (explode_frame_inr _ _ _ _ _ _ Hout)
    as (m & combined & Hm & Hcomb & Hout' & Hlen & Hcols & Htuples & Hrows).
  destruct (explode_combined_inr d combined columns keep_empty_rows out Hlen Hnd Hcols
              Htuples Hout') as (Hnrows & Hnames & Hother & Hsel).
  assert (length (row_counts keep_empty_rows combined) = nrows d) as Hcounts.
  { unfold row_counts. by rewrite length_fmap. }
  exists (row_counts keep_empty_rows combined). split_and!; [done| |done|done|].
  - intros i Hi. destruct (Hrows i Hi) as (l & Hl & Hrow). exists l. split; [done|].
    unfold row_counts. by rewrite list_lookup_fmap, Hl.
  - apply wf_frame_intro.
    + rewrite Hnames. apply NoDup_filter, Hwf.
    + intros c. rewrite Hnames. intros [Hc Hin]%list_elem_of_filter.
      destruct (df_columns_getitem d c Hin) as [s Hs].
      pose proof (wf_frame_length d c s Hwf Hs) as Hlens.
      destruct (decide (c ∈ columns)) as [Hsel'|Hnsel].
      * apply list_elem_of_lookup_1 in Hsel' as [j Hj].
        eexists. split; [by apply (Hsel j c)|]. cbn [values].
        by rewrite length_selected_values, length_records.
      * rewrite (Hother c Hc Hnsel), Hs. eexists. split; [done|].
        cbn [repeated values]. rewrite length_repeat_each; [done|].
        by rewrite length_fmap, Hcounts.
Qed.

(** What the returned table holds.  Let input row [i] have the aligned
    tuples [l], and let [t] be the one at position [j].  The output row
    this tuple gives is row [offset + j], where [offset] is the number of
    output rows of the input rows before [i].  There every unselected column
    (other than [_combined]) holds the value the input has at row [i], and
    the selected column at position [q] of [columns] holds entry [q] of
    [t], a token or, for a padded entry, a missing value; on the
    single-column branch it holds the 1-tuple [t] itself. *)
Theorem explode_cells (σ σ' : Store) (df : ref) (d : DataFrame Cell)
    (columns : list string) (sep : string) (keep_empty_rows strict_equal_lengths : bool)
    (out : DataFrame Obj) (i j : nat) (l : list (list (option string)))
    (t : list (option string)) :
  σ !! df = Some d →
  wf_frame d →
  NoDup columns →
  explode_aligned_columns df columns sep keep_empty_rows strict_equal_lengths σ
    = (inr out, σ') →
  i < nrows d →
  row_tuples d columns sep strict_equal_lengths i = inr l →
  l !! j = Some t →
  ∃ counts : list nat,
    length counts = nrows d
    ∧ (∀ k, k < nrows d →
         ∃ lk, row_tuples d columns sep strict_equal_lengths k = inr lk
           ∧ counts !! k = Some (if keep_empty_rows then max 1 (length lk) else length lk))
    ∧ let offset := sum_list (take i counts) in
      offset + j < nrows out
      ∧ (∀ c s x, df_getitem d c = inr s → c ≠ "_combined" → c ∉ columns →
           values s !! i = Some x →
           ∃ s', df_getitem out c = inr s' ∧ values s' !! (offset + j) = Some (Scalar x))
      ∧ (∀ q c v, columns !! q = Some c → c ≠ "_combined" → t !! q = Some v →
           ∃ s', df_getitem out c = inr s'
             ∧ values s' !! (offset + j)
               = Some (match columns with
                       | [_] => Tuple t
                       | _ => of_field v
                       end)).
Proof.
  intros Hd%lookup_total_Some Hwf Hnd Hrun Hi Hrow Hj.
  rewrite explode_run, Hd in Hrun. injection Hrun as Hout _.
  destruct (explode_frame_inr _ _ _ _ _ _ Hout)
    as (m & combined & Hm & Hcomb & Hout' & Hlen & Hcols & Htuples & Hrows).
  destruct (explode_combined_inr d combined columns keep_empty_rows out Hlen Hnd Hcols
              Htuples Hout') as (Hnrows & Hnames & Hother & Hsel).
  destruct (Hrows i Hi) as (l' & Hl & Hrow'). rewrite Hrow in Hrow'. injection Hrow' as <-.
  pose proof (records_lookup_tuple keep_empty_rows combined i l j t Hl Hj) as Hrec.
  set (counts := row_counts keep_empty_rows combined) in *.
  exists counts. split; [|split].
  { unfold counts, row_counts. by rewrite length_fmap. }
  { intros k Hk. destruct (Hrows k Hk) as (lk & Hlk & Hrowk). exists lk. split; [done|].
    unfold counts, row_counts. by rewrite list_lookup_fmap, Hlk. }
  cbv zeta. split_and!.
  - rewrite Hnrows. unfold counts. rewrite <- length_records. by eapply lookup_lt_Some.
  - intros c s x Hs Hc Hnsel Hx. rewrite (Hother c Hc Hnsel), Hs.
    eexists. split; [done|]. cbn [repeated values].
    apply lookup_repeat_each
      with (if keep_empty_rows then max 1 (length l) else length l).
    + unfold counts, row_counts. by rewrite list_lookup_fmap, Hl.
    + by rewrite list_lookup_fmap, Hx.
    + apply lookup_lt_Some in Hj. destruct keep_empty_rows; lia.
  - intros q c v Hq Hc Hv. eexists. split; [by apply (Hsel q c)|]. cbn [values].
    rewrite (selected_values_lookup _ _ _ _ (Tuple t)) by done. f_equal.
    destruct columns as [|c0 [|c1 cs]]; [done|done|].
    unfold field, fields_of. by rewrite list_lookup_fmap, Hv.
Qed.

(** * Keeping empty rows when there is none *)

Lemma cols_ext {A} (a b : list (string * Series A)) :
  a.*1 = b.*1 → NoDup a.*1 →
  (∀ c, c ∈ a.*1 → lookup_column c a = lookup_column c b) →
  a = b.
Proof.
  revert b. induction a as [|[c s] a IH]; intros [|[c' s'] b] Hfst Hnd Hget; try done.
  rewrite !fmap_cons in Hfst. cbn [fst] in Hfst. injection Hfst as <- Hfst.
  rewrite fmap_cons in Hnd. cbn [fst] in Hnd. apply NoDup_cons in Hnd as [Hc Hnd].
  f_equal.
  - pose proof (Hget c) as Hc'. cbn [lookup_column] in Hc'.
    rewrite !decide_True in Hc' by done. f_equal. apply (inj Some), Hc'.
    rewrite fmap_cons. by left.
  - apply IH; [done..|]. intros k Hk.
    pose proof (Hget k) as Hk'. cbn [lookup_column] in Hk'.
    rewrite !decide_False in Hk' by (by intros ->). apply Hk'.
    rewrite fmap_cons. by right.
Qed.

Lemma frame_ext {A} (a b : DataFrame A) :
  nrows a = nrows b → df_columns a = df_columns b → NoDup (df_columns a) →
  (∀ c, c ∈ df_columns a → df_getitem a c = df_getitem b c) →
  a = b.
Proof.
  destruct a as [n a], b as [n' b]. unfold df_columns, df_getitem. cbn [nrows cols].
  intros -> Hfst Hnd Hget. f_equal. apply cols_ext; [done..|].
  intros c Hc. specialize (Hget c Hc).
  destruct (lookup_column c a), (lookup_column c b); by simplify_eq.
Qed.

Lemma records_no_empty (combined : list (list (list (option string)))) :
  Forall (λ l, l ≠ []) combined →
  records true combined = records false combined
  ∧ row_counts true combined = row_counts false combined.
Proof.
  induction 1 as [|l combined Hl _ [IH1 IH2]]; [done|].
  rewrite !records_cons, !row_counts_cons, IH1, IH2.
  destruct l as [|t l]; [done|]. split; [done|]. by f_equal.
Qed.

Lemma explode_combined_no_empty (d : DataFrame Cell)
    (combined : list (list (list (option string)))) (columns : list string) :
  wf_frame d → length combined = nrows d →
  Forall (λ l, l ≠ []) combined →
  explode_combined d combined columns true = explode_combined d combined columns false.
Proof.
  intros [Hnd _] Hlen Hne.
  destruct (explode_stage d combined true Hlen)
    as (F1 & F2 & F3 & H1 & H2 & H3 & Hrows & Hcols & Hscratch & Hother).
  destruct (explode_stage d combined false Hlen)
    as (F1' & F2' & F3' & H1' & H2' & H3' & Hrows' & Hcols' & Hscratch' & Hother').
  rewrite H1 in H1'. injection H1' as <-. rewrite H2 in H2'. injection H2' as <-.
  destruct (records_no_empty combined Hne) as [Hrecs Hcounts].
  rewrite <- Hrecs in Hscratch'. rewrite <- Hcounts in Hrows', Hother'.
  assert (F3 = F3') as <-.
  { apply frame_ext.
    - by rewrite Hrows, Hrows'.
    - by rewrite Hcols, Hcols'.
    - rewrite Hcols. case_decide; [done|]. apply NoDup_app. split_and!; [done| |].
      + intros c Hc ->%list_elem_of_singleton. done.
      + apply NoDup_singleton.
    - intros c _. destruct (decide (c = "_combined")) as [->|Hc].
      + by rewrite Hscratch, Hscratch'.
      + by rewrite Hother, Hother'. }
  unfold explode_combined.
  by rewrite H1, !result_bind_inr, H2, !result_bind_inr, H3, H3'.
Qed.

(** [keep_empty_rows] only matters for rows without aligned tuples: on a
    well-formed table in which every row has one, the call does the same
    with [keep_empty_rows] true and false, whether it returns a table or
    raises. *)
Theorem keep_empty_rows_without_empty_rows (σ : Store) (df : ref) (d : DataFrame Cell)
    (columns : list string) (sep : string) (strict_equal_lengths : bool) :
  σ !! df = Some d →
  wf_frame d →
  (∀ i l, i < nrows d →
     row_tuples d columns sep strict_equal_lengths i = inr l → l ≠ []) →
  explode_aligned_columns df columns sep true strict_equal_lengths σ
  = explode_aligned_columns df columns sep false strict_equal_lengths σ.
Proof.
  intros Hd Hwf Hrows. rewrite !explode_run, (list_lookup_total_correct _ _ _ Hd).
  f_equal. unfold explode_frame.
  destruct (split_cols_of d columns sep) as [e|m] eqn:Hm; [done|].
  rewrite !result_bind_inr.
  destruct (mapM _ (seq 0 (nrows d))) as [e|combined] eqn:Hcomb; [done|].
  rewrite !result_bind_inr.
  pose proof (mapM_result_length _ _ _ Hcomb) as Hlen. rewrite length_seq in Hlen.
  apply explode_combined_no_empty; [done..|].
  apply Forall_forall. intros l (i & Hi)%list_elem_of_lookup_1.
  assert (i < nrows d) as Hlt by (rewrite <- Hlen; by eapply lookup_lt_Some).
  apply (Hrows i l Hlt). unfold row_tuples. rewrite Hm, result_bind_inr.
  apply mapM_result_inr in Hcomb.
  destruct (Forall2_lookup_r _ _ _ _ _ Hcomb Hi) as (i' & Hi' & Hrow).
  apply lookup_seq in Hi' as [-> _]. exact Hrow.
Qed.

(** * More on the tokenizer *)

Section tokens.
Implicit Types (a c : ascii) (s p t cur : string).

Lemma all_chars_app q s t : all_chars q (s +:+ t) = all_chars q s && all_chars q t.
Proof.
  induction s as [|a s IH]; [by rewrite string_app_nil_l|].
  rewrite string_app_cons. cbn [all_chars]. by rewrite IH, andb_assoc.
Qed.

Lemma all_chars_rstrip s :
  all_chars PyStr.isspace (PyStr.rstrip s) = all_chars PyStr.isspace s.
Proof.
  induction s as [|a s IH]; [done|].
  rewrite rstrip_cons. cbn [all_chars]. case_decide as Hs.
  - rewrite <- IH, Hs. cbn [all_chars]. destruct (PyStr.isspace a) eqn:Ha; [done|].
    cbn [all_chars]. by rewrite Ha.
  - cbn [all_chars]. by rewrite IH.
Qed.

Lemma lstrip_empty_iff s :
  PyStr.lstrip s = EmptyString ↔ all_chars PyStr.isspace s = true.
Proof.
  induction s as [|a s IH]; [done|].
  cbn [PyStr.lstrip all_chars]. by destruct (PyStr.isspace a).
Qed.

Lemma strip_empty_iff s :
  PyStr.strip s = EmptyString ↔ all_chars PyStr.isspace s = true.
Proof. unfold PyStr.strip. by rewrite lstrip_empty_iff, all_chars_rstrip. Qed.

(** No piece holds anything but white space exactly when the string holds
    nothing but delimiters and white space. *)
Lemma pieces_blank c cur s :
  Forall (λ p, PyStr.strip p = EmptyString) (pieces c cur s)
  ↔ all_chars PyStr.isspace cur = true ∧ all_chars (is_filler c) s = true.
Proof.
  revert cur. induction s as [|a s IH]; intros cur; cbn [pieces all_chars].
  - rewrite Forall_singleton, strip_empty_iff. intuition congruence.
  - unfold is_filler at 1. case_decide as Ha.
    + rewrite Forall_cons, IH, strip_empty_iff, bool_decide_true by done.
      cbn [all_chars orb andb]. intuition congruence.
    + rewrite IH, all_chars_app, bool_decide_false by done. cbn [all_chars orb].
      rewrite andb_true_r, !andb_true_iff. intuition congruence.
Qed.

Lemma occurs_app c s t : PyStr.occurs c (s +:+ t) ↔ PyStr.occurs c s ∨ PyStr.occurs c t.
Proof.
  induction s as [|a s IH]; [rewrite string_app_nil_l; cbn; intuition congruence|].
  rewrite string_app_cons. cbn [PyStr.occurs]. rewrite IH. intuition congruence.
Qed.

Lemma occurs_lstrip c s : PyStr.occurs c (PyStr.lstrip s) → PyStr.occurs c s.
Proof.
  induction s as [|a s IH]; [done|]. cbn [PyStr.lstrip].
  destruct (PyStr.isspace a); [|done]. intros ?%IH. by right.
Qed.

Lemma occurs_rstrip c s : PyStr.occurs c (PyStr.rstrip s) → PyStr.occurs c s.
Proof.
  induction s as [|a s IH]; [done|]. rewrite rstrip_cons. case_decide as Hs.
  - destruct (PyStr.isspace a); [done|]. cbn [PyStr.occurs]. intuition congruence.
  - cbn [PyStr.occurs]. intuition congruence.
Qed.

Lemma occurs_strip c s : PyStr.occurs c (PyStr.strip s) → PyStr.occurs c s.
Proof. unfold PyStr.strip. by intros ?%occurs_lstrip%occurs_rstrip. Qed.

Lemma pieces_without_delimiter c cur s :
  ¬ PyStr.occurs c cur → Forall (λ p, ¬ PyStr.occurs c p) (pieces c cur s).
Proof.
  revert cur. induction s as [|a s IH]; intros cur Hcur; cbn [pieces].
  - by apply Forall_singleton.
  - case_decide as Ha.
    + apply Forall_cons. split; [done|]. apply IH. by intros [].
    + apply IH. rewrite occurs_app. cbn [PyStr.occurs]. intuition congruence.
Qed.

End tokens.

Lemma tokenize_without_delimiter (x : Cell) (c : ascii) :
  Forall (λ t, ¬ PyStr.occurs c t) (tokenize x c).
Proof.
  assert (Forall (λ t, ¬ PyStr.occurs c t)
            (filter (λ p, p ≠ EmptyString)
               (PyStr.strip <$> pieces c EmptyString (py_str x)))) as H.
  { apply Forall_forall. intros t [_ Ht]%list_elem_of_filter.
    apply list_elem_of_fmap in Ht as (p & -> & Hp). intros Hocc%occurs_strip.
    by apply (proj1 (Forall_forall _ _)
                (pieces_without_delimiter c EmptyString (py_str x) (λ H, H)) p Hp). }
  by destruct x.
Qed.

Lemma split_join_tokens (c : ascii) (toks : list string) :
  Forall Token toks →
  Forall (λ t, ¬ PyStr.occurs c t) toks →
  _split_to_list (Str (PyStr.join (String c EmptyString) toks)) (String c EmptyString)
  = inr toks.
Proof.
  intros Htok Hdelim. rewrite split_to_list_tokenize.
  f_equal. unfold tokenize. cbn [py_str].
  destruct toks as [|t toks]; [done|].
  rewrite pieces_join by done. rewrite string_app_nil_l.
  rewrite <- fmap_filter_strip.
  rewrite filter_Forall_id
    by (eapply Forall_impl; [exact Htok|]; intros t' [Hne Ht']; by rewrite Ht').
  clear -Htok. induction Htok as [|t' l [_ Ht] _ IH]; [done|].
  by rewrite fmap_cons, Ht, IH.
Qed.

(** A token never holds the delimiter: whatever the cell, no token that
    [_split_to_list] returns for a one-character delimiter has an
    occurrence of that character (nor is it empty or untrimmed). *)
Theorem tokens_hold_no_delimiter (x : Cell) (delimiter : ascii) (toks : list string) :
  _split_to_list x (String delimiter EmptyString) = inr toks →
  Forall (λ t, ¬ PyStr.occurs delimiter t ∧ Token t) toks.
Proof.
  intros Hsplit. apply Forall_and. split.
  - rewrite split_to_list_tokenize in Hsplit. injection Hsplit as <-.
    apply tokenize_without_delimiter.
  - by eapply split_to_list_tokens.
Qed.

(** Tokenizing is idempotent through the join: the tokens of any cell,
    joined by the delimiter and tokenized again, are the same tokens in
    the same order. *)
Theorem tokenize_join_idempotent (x : Cell) (delimiter : ascii) (toks : list string) :
  _split_to_list x (String delimiter EmptyString) = inr toks →
  _split_to_list (Str (PyStr.join (String delimiter EmptyString) toks))
    (String delimiter EmptyString) = inr toks.
Proof.
  intros Hsplit. apply split_join_tokens.
  - by eapply split_to_list_tokens.
  - rewrite split_to_list_tokenize in Hsplit. injection Hsplit as <-.
    apply tokenize_without_delimiter.
Qed.

(** A cell gives no token exactly when it is missing or its string form
    holds nothing but delimiters and white space. *)
Theorem no_token_iff_blank (x : Cell) (delimiter : ascii) :
  _split_to_list x (String delimiter EmptyString) = inr []
  ↔ isna x = true ∨ all_chars (is_filler delimiter) (py_str x) = true.
Proof.
  rewrite split_to_list_tokenize.
  assert (filter (λ p, p ≠ EmptyString)
            (PyStr.strip <$> pieces delimiter EmptyString (py_str x)) = []
          ↔ all_chars (is_filler delimiter) (py_str x) = true) as Hblank.
  { transitivity (Forall (λ p, PyStr.strip p = EmptyString)
                    (pieces delimiter EmptyString (py_str x)));
      [|rewrite pieces_blank; cbn [all_chars]; intuition congruence].
    induction (pieces delimiter EmptyString (py_str x)) as [|p l IH]; [done|].
    rewrite fmap_cons, filter_cons, Forall_cons.
    destruct (decide (PyStr.strip p ≠ EmptyString)) as [Hp|Hp%dec_stable].
    - split; [done|]. by intros [? _].
    - rewrite IH. by split; [|intros [_ ?]]. }
  destruct x as [|s|z]; cbn [tokenize isna].
  - intuition congruence.
  - split; [intros [= H]; right; by apply Hblank|].
    intros [?|H]; [done|]. f_equal. by apply Hblank.
  - split; [intros [= H]; right; by apply Hblank|].
    intros [?|H]; [done|]. f_equal. by apply Hblank.
Qed.

(** * More on the column classifier *)

Lemma detect_run (σ : Store) (df : ref) (d : DataFrame Cell)
    (candidate_columns : option (list string)) (sep : string) (min_share : Q) :
  σ !! df = Some d →
  let cands := match candidate_columns with
               | Some cs => cs
               | None => (filter (λ e, dtype e.2 = object) (cols d)).*1
               end in
  (∀ c, c ∈ cands → c ∈ df_columns d) →
  detect_multivalue_columns df candidate_columns sep min_share σ
  = (inr (filter (λ c, Is_true (Qle_bool min_share (column_share d sep c))) cands), σ).
Proof.
  intros Hd cands Hin.
  unfold detect_multivalue_columns. rewrite bind_run. unfold load at 1.
  rewrite (lookup_total_Some _ _ _ Hd).
  exact (detect_loop_run σ df d sep min_share cands [] Hd Hin).
Qed.

Lemma filter_none {A} (P : A → Prop) `{!∀ x, Decision (P x)} (l : list A) :
  Forall (λ x, ¬ P x) l → filter P l = [].
Proof.
  induction 1 as [|x l Hx _ IH]; [done|]. by rewrite filter_cons_False.
Qed.

Lemma Zpos_of_nat (n : nat) : n ≠ 0 → Z.pos (Pos.of_nat n) = Z.of_nat n.
Proof. intros Hn. destruct n as [|n]; [done|]. by rewrite <- Pos.of_nat_succ, Zpos_P_of_succ_nat, Nat2Z.inj_succ. Qed.

Lemma share_of_range (s : Series Cell) (sep : string) :
  (0 <= share_of s sep)%Q ∧ (share_of s sep <= 1)%Q.
Proof.
  unfold share_of. case_decide as Hlen; [done|]. unfold mean.
  set (bs := PyStr.contains sep <$> _) in *.
  assert (length bs ≠ 0) as Hbs by (unfold bs; by rewrite length_fmap).
  pose proof (length_filter Is_true bs) as Hle.
  unfold Qle. cbn [Qnum Qden]. rewrite Zpos_of_nat by done. lia.
Qed.

Lemma column_share_range (d : DataFrame Cell) (sep c : string) :
  (0 <= column_share d sep c)%Q ∧ (column_share d sep c <= 1)%Q.
Proof.
  unfold column_share. destruct (df_getitem d c); [done|]. apply share_of_range.
Qed.

(** Raising the threshold only removes columns: the columns flagged for
    [min_share'] are, in the same order, among those flagged for a smaller
    [min_share], which are among the candidates, in their order. *)
Theorem detect_monotone_in_min_share (σ : Store) (df : ref) (d : DataFrame Cell)
    (candidate_columns : option (list string)) (sep : string) (min_share min_share' : Q) :
  σ !! df = Some d →
  let cands := match candidate_columns with
               | Some cs => cs
               | None => (filter (λ e, dtype e.2 = object) (cols d)).*1
               end in
  (∀ c, c ∈ cands → c ∈ df_columns d) →
  (min_share <= min_share')%Q →
  ∃ flagged flagged',
    detect_multivalue_columns df candidate_columns sep min_share σ = (inr flagged, σ)
    ∧ detect_multivalue_columns df candidate_columns sep min_share' σ = (inr flagged', σ)
    ∧ flagged' `sublist_of` flagged
    ∧ flagged `sublist_of` cands.
Proof.
  intros Hd cands Hin Hle.
  exists (filter (λ c, Is_true (Qle_bool min_share (column_share d sep c))) cands),
    (filter (λ c, Is_true (Qle_bool min_share' (column_share d sep c))) cands).
  split; [exact (detect_run σ df d candidate_columns sep min_share Hd Hin)|].
  split; [exact (detect_run σ df d candidate_columns sep min_share' Hd Hin)|].
  split; [|apply sublist_filter].
  assert (filter (λ c, Is_true (Qle_bool min_share' (column_share d sep c))) cands
          = filter (λ c, Is_true (Qle_bool min_share' (column_share d sep c)))
              (filter (λ c, Is_true (Qle_bool min_share (column_share d sep c))) cands)) as ->.
  { rewrite list_filter_filter. apply list_filter_iff. intros c. split; [|by intros [? _]].
    intros H. split; [done|]. apply Is_true_true, Qle_bool_iff.
    apply Is_true_true, Qle_bool_iff in H. by eapply Qle_trans. }
  apply sublist_filter.
Qed.

(** A share is a fraction between 0 and 1, so the thresholds at the ends
    decide by themselves: with [min_share ≤ 0] every candidate is flagged,
    with [min_share > 1] none is. *)
Theorem detect_extreme_thresholds (σ : Store) (df : ref) (d : DataFrame Cell)
    (candidate_columns : option (list string)) (sep : string) (min_share : Q) :
  σ !! df = Some d →
  let cands := match candidate_columns with
               | Some cs => cs
               | None => (filter (λ e, dtype e.2 = object) (cols d)).*1
               end in
  (∀ c, c ∈ cands → c ∈ df_columns d) →
  (∀ c, (0 <= column_share d sep c)%Q ∧ (column_share d sep c <= 1)%Q)
  ∧ ((min_share <= 0)%Q →
     detect_multivalue_columns df candidate_columns sep min_share σ = (inr cands, σ))
  ∧ ((1 < min_share)%Q →
     detect_multivalue_columns df candidate_columns sep min_share σ = (inr [], σ)).
Proof.
  intros Hd cands Hin. split; [intros c; apply column_share_range|].
  rewrite (detect_run σ df d candidate_columns sep min_share Hd Hin). fold cands.
  split; intros Hq; do 2 f_equal.
  - apply filter_Forall_id, Forall_forall. intros c _.
    apply Is_true_true, Qle_bool_iff.
    eapply Qle_trans; [exact Hq|]. apply column_share_range.
  - apply filter_none, Forall_forall. intros c _ H.
    apply Is_true_true, Qle_bool_iff in H.
    apply (Qlt_irrefl 1). eapply Qlt_le_trans; [exact Hq|].
    eapply Qle_trans; [exact H|]. apply column_share_range.
Qed.

(** A candidate that is not a column of the table makes the classifier
    raise the [KeyError] of that column, once the candidates before it
    have been read; no list is returned. *)
Theorem detect_missing_candidate (σ : Store) (df : ref) (d : DataFrame Cell)
    (pre post : list string) (c0 sep : string) (min_share : Q) :
  σ !! df = Some d →
  (∀ c, c ∈ pre → c ∈ df_columns d) →
  c0 ∉ df_columns d →
  detect_multivalue_columns df (Some (pre ++ c0 :: post)) sep min_share σ
  = (inl (KeyError c0), σ).
Proof.
  intros Hd Hpre Hc0.
  unfold detect_multivalue_columns. rewrite bind_run, load_run. cbv beta iota zeta.
  pose proof (detect_loop_run σ df d sep min_share pre [] Hd Hpre) as Hloop.
  cbv zeta in Hloop. rewrite foldM_app_run, Hloop.
  cbn [foldM]. rewrite !bind_run, getitem_run, (lookup_total_Some _ _ _ Hd).
  by rewrite (df_getitem_absent d c0 Hc0).
Qed.

(** * More on the indicator materializer *)

(** One more target column, on the frame the columns before it left. *)
Lemma one_hot_step_run (σ : Store) (df : ref) (columns post : list string) (col sep : string)
    (min_count : Z) (prefix_map : option (gmap string string)) (mid : DataFrame Cell) :
  one_hot_multivalue_columns df columns sep min_count prefix_map σ
    = (inr (length σ), σ ++ [mid]) →
  one_hot_multivalue_columns df (columns ++ col :: post) sep min_count prefix_map σ
  = match add_indicators mid sep min_count (default ∅ prefix_map) col with
    | inr d' =>
        match foldM (λ _ col, one_hot_column (length σ) sep min_count (default ∅ prefix_map) col)
                () post (σ ++ [d']) with
        | (inr _, σ') => (inr (length σ), σ')
        | (inl e, σ') => (inl e, σ')
        end
    | inl e => (inl e, σ ++ [mid])
    end.
Proof.
  intros Hrun. rewrite one_hot_run in Hrun |- *. rewrite foldM_app_run.
  destruct (@foldM M _ _ _ _ _ () columns _) as [[e|[]] σ'] eqn:E; [done|].
  injection Hrun as ->. cbn [foldM]. rewrite bind_run, one_hot_column_run.
  by destruct (add_indicators mid sep min_count (default ∅ prefix_map) col).
Qed.

Lemma indicator_ones (tokens : list (list string)) (t : string) :
  length (filter (λ v, v = Int 1) (values (indicator tokens t)))
  = length (filter (λ L, t ∈ L) tokens).
Proof.
  cbn [indicator values]. induction tokens as [|L tokens IH]; [done|].
  rewrite fmap_cons, !filter_cons. destruct (decide (t ∈ L)) as [Hin|Hnin].
  - rewrite decide_True by done. cbn [length]. by rewrite IH.
  - by rewrite decide_False by done.
Qed.

Lemma occurrences_mjoin (tokens : list (list string)) (t : string) :
  length (filter (λ L, t ∈ L) tokens) ≤ occurrences t (mjoin tokens).
Proof.
  induction tokens as [|L tokens IH]; [done|].
  change (mjoin (L :: tokens)) with (L ++ mjoin tokens).
  unfold occurrences in *. rewrite filter_app, length_app, filter_cons.
  destruct (decide (t ∈ L)) as [Hin|Hnin]; [|lia].
  apply occurrences_pos in Hin. unfold occurrences in Hin. cbn [length]. lia.
Qed.

(** No indicator column is empty of ones: for a token that is kept, the
    indicator holds 1 in at least one row, and in no more rows than the
    token has occurrences, since the rows are counted once where the
    occurrences are counted one by one. *)
Theorem one_hot_indicator_has_ones (tokens : list (list string)) (min_count : Z) (t : string) :
  t ∈ kept_tokens (count_tokens tokens) min_count →
  let ones := length (filter (λ v, v = Int 1) (values (indicator tokens t))) in
  ones = length (filter (λ L, t ∈ L) tokens)
  ∧ 1 ≤ ones
  ∧ ones ≤ occurrences t (mjoin tokens)
  ∧ (min_count ≤ Z.of_nat (occurrences t (mjoin tokens)))%Z.
Proof.
  intros Hkept ones. subst ones. rewrite indicator_ones.
  apply elem_of_kept_tokens in Hkept as (n & Hn & Hmin).
  rewrite count_tokens_lookup in Hn. case_decide as Hocc; [done|]. injection Hn as <-.
  split_and!; [done| |apply occurrences_mjoin|done].
  assert (t ∈ mjoin tokens) as Hin by (apply occurrences_pos; lia).
  apply list_elem_of_join in Hin as (L & Ht & HL).
  assert (L ∈ filter (λ L, t ∈ L) tokens) as HLf by (by apply list_elem_of_filter).
  destruct (filter (λ L, t ∈ L) tokens); [by apply elem_of_nil in HLf|cbn; lia].
Qed.


(** A target column that the frame does not have when its turn comes,
    neither from the input nor from the indicators added before, makes
    [one_hot_multivalue_columns] raise the [KeyError] of that column; the
    input table is unchanged. *)
Theorem one_hot_missing_column (σ : Store) (df : ref) (d : DataFrame Cell)
    (columns post : list string) (col sep : string) (min_count : Z)
    (prefix_map : option (gmap string string)) (mid : DataFrame Cell) :
  σ !! df = Some d →
  one_hot_multivalue_columns df columns sep min_count prefix_map σ
    = (inr (length σ), σ ++ [mid]) →
  col ∉ df_columns mid →
  one_hot_multivalue_columns df (columns ++ col :: post) sep min_count prefix_map σ
    = (inl (KeyError col), σ ++ [mid])
  ∧ (σ ++ [mid]) !! df = Some d.
Proof.
  intros Hd Hrun Hcol. split.
  - rewrite (one_hot_step_run σ df columns post col sep min_count prefix_map mid Hrun).
    unfold add_indicators. by rewrite (df_getitem_absent mid col Hcol).
  - by apply lookup_app_l_Some.
Qed.

(** * Schema checks and ID normalization *)

(** [validate_required_columns] passes exactly the tables that have all
    the columns of [REQUIRED_COLUMNS] (the three listed as sparse
    included), whatever else they have.  Otherwise the error lists the
    required columns the table lacks, all of them and only them, in the
    order of [REQUIRED_COLUMNS]. *)
Theorem validate_required_columns_iff {A} (df : DataFrame A) :
  (validate_required_columns df = inr ()
   ↔ ∀ c, c ∈ REQUIRED_COLUMNS → c ∈ df_columns df)
  ∧ (∀ missing, validate_required_columns df = inl (MissingRequiredColumns missing) →
       missing ≠ []
       ∧ missing `sublist_of` REQUIRED_COLUMNS
       ∧ ∀ c, c ∈ missing ↔ c ∈ REQUIRED_COLUMNS ∧ c ∉ df_columns df)
  ∧ (∀ c, c ∈ REQUIRED_COLUMNS → c ∉ df_columns df →
       ∃ missing, validate_required_columns df = inl (MissingRequiredColumns missing)
                  ∧ c ∈ missing).
Proof.
  unfold validate_required_columns.
  set (missing := filter (λ c, c ∉ df_columns df) REQUIRED_COLUMNS).
  assert (∀ c, c ∈ missing ↔ c ∈ REQUIRED_COLUMNS ∧ c ∉ df_columns df) as Hmissing.
  { intros c. unfold missing. rewrite list_elem_of_filter. tauto. }
  split_and!.
  - split.
    + intros Hok c Hc. destruct (decide (c ∈ df_columns df)) as [|Hnin]; [done|].
      assert (c ∈ missing) as Hin by (by apply Hmissing).
      destruct missing; [by apply elem_of_nil in Hin|done].
    + intros Hall. destruct missing as [|c l] eqn:E; [done|].
      assert (c ∈ c :: l) as Hin by left. apply Hmissing in Hin as [Hc Hnin].
      by destruct (Hnin (Hall c Hc)).
  - intros l Hl. destruct missing as [|c l'] eqn:E; [done|]. injection Hl as <-.
    split_and!; [done| |done]. rewrite <- E. apply sublist_filter.
  - intros c Hc Hnin. assert (c ∈ missing) as Hin by (by apply Hmissing).
    destruct missing as [|c' l]; [by apply elem_of_nil in Hin|]. by eexists.
Qed.

Section cleaning.
Implicit Types (a : ascii) (s : string).

Lemma id_clean_lstrip s : id_clean (PyStr.lstrip s) = id_clean s.
Proof.
  induction s as [|a s IH]; [done|]. cbn [PyStr.lstrip id_clean].
  destruct (PyStr.isspace a) eqn:Ha; [|by cbn [id_clean]; rewrite Ha].
  by rewrite orb_true_r.
Qed.

Lemma id_clean_rstrip s : id_clean (PyStr.rstrip s) = id_clean s.
Proof.
  induction s as [|a s IH]; [done|]. rewrite rstrip_cons. cbn [id_clean].
  case_decide as Hs.
  - rewrite Hs in IH. cbn [id_clean] in IH. rewrite <- IH.
    destruct (PyStr.isspace a) eqn:Ha; [by rewrite orb_true_r|].
    cbn [id_clean]. by rewrite Ha.
  - cbn [id_clean]. by rewrite IH.
Qed.

Lemma id_clean_strip s : id_clean (PyStr.strip s) = id_clean s.
Proof. unfold PyStr.strip. by rewrite id_clean_lstrip, id_clean_rstrip. Qed.

Lemma id_clean_no_filler s :
  all_chars (λ a, negb (is_filler ","%char a)) (id_clean s) = true.
Proof.
  induction s as [|a s IH]; [done|]. cbn [id_clean].
  destruct (bool_decide (a = ","%char) || PyStr.isspace a) eqn:Ha; [done|].
  cbn [all_chars]. unfold is_filler at 1. by rewrite Ha, IH.
Qed.

Lemma id_clean_fixed s :
  all_chars (λ a, negb (is_filler ","%char a)) s = true → id_clean s = s.
Proof.
  induction s as [|a s IH]; [done|]. cbn [all_chars id_clean]. unfold is_filler at 1.
  intros [Ha Hs]%andb_true_iff. apply negb_true_iff in Ha. by rewrite Ha, IH.
Qed.

Lemma id_clean_idemp s : id_clean (id_clean s) = id_clean s.
Proof. apply id_clean_fixed, id_clean_no_filler. Qed.

End cleaning.

Lemma set_column_idemp {A} (c : string) (s : Series A) (l : list (string * Series A)) :
  set_column c s (set_column c s l) = set_column c s l.
Proof.
  induction l as [|[k s'] l IH]; cbn [set_column].
  - by rewrite decide_True.
  - case_decide as Hk; cbn [set_column].
    + by rewrite decide_True.
    + by rewrite decide_False, IH.
Qed.

(** The cleaned column, from the values of the ID column. *)
Lemma cleaned_ids (str_missing : nat → string) (l : list Cell) :
  id_clean <$> (PyStr.strip <$> imap (astype_str str_missing) l)
  = imap (λ i x, id_clean (astype_str str_missing i x)) l.
Proof.
  rewrite <- list_fmap_compose, fmap_imap. apply imap_ext. intros i x _. cbn.
  apply id_clean_strip.
Qed.

Section numeric_facts.
Context (to_numeric : Series Cell → string → result (Series Cell)).
Context (astype_Int64 : Series Cell → result (Series Cell)).

Lemma normalize_id_column_run (str_missing : nat → string) (σ : Store) (df : ref)
    (d : DataFrame Cell) (id_col target_type : string) :
  σ !! df = Some d →
  target_type ≠ "int" →
  normalize_id_column to_numeric astype_Int64 str_missing df id_col target_type σ
  = (inr (length σ),
     σ ++ [match df_getitem d id_col with
           | inr s => df_setitem d id_col
                        (mkSeries object
                           (Str <$> imap (λ i x, id_clean (astype_str str_missing i x))
                                      (values s)))
           | inl _ => d
           end]).
Proof.
  intros Hd%lookup_total_Some Htype. unfold normalize_id_column.
  rewrite bind_run, copy_run, Hd, bind_run, load_run, lookup_total_fresh.
  case_decide as Hcol.
  { by rewrite ret_run, (df_getitem_absent d id_col Hcol). }
  destruct (df_columns_getitem d id_col Hcol) as [s Hs].
  rewrite bind_run, getitem_run, lookup_total_fresh, Hs.
  rewrite decide_False by done.
  rewrite bind_run, setitem_run, lookup_total_fresh, insert_fresh, ret_run.
  by rewrite cleaned_ids.
Qed.

(** With a target type other than ["int"], [normalize_id_column] returns
    a copy of the table in which every value of the ID column is a string
    without any comma or white space: for a value that is not missing, its
    string form with its commas and white space removed; for a missing
    value, the string that [astype(str)] makes of it, cleaned likewise.
    Nothing else is changed: same rows, same columns in the same order,
    every other column as it was.  A table without the ID column is
    returned as an unchanged copy.  The input table stays as it was. *)
Theorem normalize_id_column_cleans (str_missing : nat → string) (σ : Store) (df : ref)
    (d : DataFrame Cell) (id_col target_type : string) :
  σ !! df = Some d →
  target_type ≠ "int" →
  ∃ d',
    normalize_id_column to_numeric astype_Int64 str_missing df id_col target_type σ
      = (inr (length σ), σ ++ [d'])
    ∧ (σ ++ [d']) !! df = Some d
    ∧ nrows d' = nrows d
    ∧ df_columns d' = df_columns d
    ∧ (∀ c, c ≠ id_col → df_getitem d' c = df_getitem d c)
    ∧ (id_col ∉ df_columns d → d' = d)
    ∧ (∀ s, df_getitem d id_col = inr s →
         ∃ ids, df_getitem d' id_col = inr (mkSeries object (Str <$> ids))
           ∧ length ids = length (values s)
           ∧ (∀ i x, values s !! i = Some x → isna x = false →
                ids !! i = Some (id_clean (py_str x)))
           ∧ (∀ i, values s !! i = Some NA → ids !! i = Some (id_clean (str_missing i)))
           ∧ Forall (λ r, all_chars (λ a, negb (is_filler ","%char a)) r = true) ids).
Proof.
  intros Hd Htype.
  rewrite (normalize_id_column_run str_missing σ df d id_col target_type Hd Htype).
  eexists. split; [done|]. split; [by apply lookup_app_l_Some|].
  destruct (df_getitem d id_col) as [e|s] eqn:Hs.
  - by split_and!.
  - pose proof (df_getitem_inr_columns d id_col s Hs) as Hin.
    split_and!.
    + done.
    + rewrite df_columns_setitem. by rewrite decide_True.
    + intros c Hc. by rewrite df_getitem_setitem, decide_False.
    + by intros Hnin.
    + intros s' [= <-]. eexists. split; [by rewrite df_getitem_setitem, decide_True|].
      split_and!.
      * by rewrite length_imap.
      * intros i x Hx Hna. rewrite list_lookup_imap, Hx. cbn. by destruct x.
      * intros i Hx. by rewrite list_lookup_imap, Hx.
      * apply Forall_forall. intros r (i & Hi)%list_elem_of_lookup_1.
        rewrite list_lookup_imap in Hi.
        destruct (values s !! i) as [x|]; [|done]. injection Hi as <-.
        apply id_clean_no_filler.
Qed.

(** Normalizing twice is normalizing once: on the table that
    [normalize_id_column] returned, the same call returns a copy that is
    equal to it, whatever the string forms of missing values are. *)
Theorem normalize_id_column_idempotent (str_missing str_missing' : nat → string)
    (σ σ1 : Store) (df r1 : ref) (d : DataFrame Cell) (id_col target_type : string) :
  σ !! df = Some d →
  target_type ≠ "int" →
  normalize_id_column to_numeric astype_Int64 str_missing df id_col target_type σ
    = (inr r1, σ1) →
  ∃ d1,
    σ1 !! r1 = Some d1
    ∧ normalize_id_column to_numeric astype_Int64 str_missing' r1 id_col target_type σ1
      = (inr (length σ1), σ1 ++ [d1]).
Proof.
  intros Hd Htype Hrun.
  rewrite (normalize_id_column_run str_missing σ df d id_col target_type Hd Htype) in Hrun.
  injection Hrun as <- <-.
  eexists. split; [by apply list_lookup_middle|].
  rewrite (normalize_id_column_run str_missing' _ _ _ id_col target_type
             (list_lookup_middle σ [] _ _ eq_refl) Htype).
  do 3 f_equal. destruct (df_getitem d id_col) as [e|s] eqn:Hs.
  - by rewrite Hs.
  - rewrite df_getitem_setitem, decide_True by done. cbn [values].
    assert (imap (λ i x, id_clean (astype_str str_missing' i x))
              (Str <$> imap (λ i x, id_clean (astype_str str_missing i x)) (values s))
            = imap (λ i x, id_clean (astype_str str_missing i x)) (values s)) as ->.
    { apply list_eq. intros i.
      rewrite !list_lookup_imap, list_lookup_fmap, list_lookup_imap.
      destruct (values s !! i) as [x|]; [|done]. cbn. by rewrite id_clean_idemp. }
    unfold df_setitem. cbn [nrows cols]. by rewrite set_column_idemp.
Qed.

End numeric_facts.

(** * Numeric coercion, parts of the day, column guessing, padding *)

Section coercion.
Context (to_numeric : Series Cell → string → result (Series Cell)).

Lemma coerce_loop_run (σ : Store) (errors : string) (numeric_columns : list string)
    (d : DataFrame Cell) :
  ∃ res d',
    foldM (λ _ c,
             d ← load (length σ);
             if decide (c ∈ df_columns d) then
               s ← getitem (length σ) c;
               t ← lift (to_numeric s errors);
               setitem (length σ) c t
             else mret ())
      () numeric_columns (σ ++ [d])
    = (res, σ ++ [d'])
    ∧ nrows d' = nrows d
    ∧ df_columns d' = df_columns d
    ∧ (∀ c, c ∉ numeric_columns → df_getitem d' c = df_getitem d c)
    ∧ ((∀ s, ∃ t, to_numeric s errors = inr t) → res = inr ())
    ∧ (NoDup numeric_columns → res = inr () →
       ∀ c s, c ∈ numeric_columns → df_getitem d c = inr s →
         ∃ t, to_numeric s errors = inr t ∧ df_getitem d' c = inr t).
Proof.
  revert d. induction numeric_columns as [|c cs IH]; intros d.
  { exists (inr ()), d. split_and!; try done. by intros _ _ c s ?%elem_of_nil. }
  cbn [foldM]. rewrite bind_run, bind_run, load_run, lookup_total_fresh.
  destruct (decide (c ∈ df_columns d)) as [Hc|Hc].
  - destruct (df_columns_getitem d c Hc) as [s Hs].
    rewrite bind_run, getitem_run, lookup_total_fresh, Hs, bind_run, lift_run.
    destruct (to_numeric s errors) as [e|t] eqn:Ht.
    { exists (inl e), d. split_and!; try done.
      intros Htotal. destruct (Htotal s) as [t Ht']. by rewrite Ht in Ht'. }
    rewrite setitem_run, lookup_total_fresh, insert_fresh.
    destruct (IH (df_setitem d c t)) as (res & d' & Hrun & Hrows & Hcols & Hget & Htot & Hval).
    exists res, d'. split_and!.
    + done.
    + by rewrite Hrows.
    + by rewrite Hcols, df_columns_setitem, decide_True.
    + intros c' Hc'. rewrite Hget by (intros ?; apply Hc'; by right).
      rewrite df_getitem_setitem, decide_False; [done|]. intros ->. apply Hc'. by left.
    + done.
    + intros [Hnin Hnd]%NoDup_cons Hres c' s' Hc' Hs'.
      apply elem_of_cons in Hc' as [->|Hc'].
      * rewrite Hs in Hs'. injection Hs' as <-. exists t. split; [done|].
        by rewrite Hget, df_getitem_setitem, decide_True.
      * apply (Hval Hnd Hres c' s' Hc').
        rewrite df_getitem_setitem, decide_False; [done|]. by intros ->.
  - rewrite ret_run.
    destruct (IH d) as (res & d' & Hrun & Hrows & Hcols & Hget & Htot & Hval).
    exists res, d'. split_and!; try done.
    + intros c' Hc'. apply Hget. intros ?. apply Hc'. by right.
    + intros [Hnin Hnd]%NoDup_cons Hres c' s' Hc' Hs'.
      apply elem_of_cons in Hc' as [->|Hc']; [|by apply (Hval Hnd Hres c' s')].
      destruct Hc. by eapply df_getitem_inr_columns.
Qed.

(** [coerce_numeric_columns] works on a copy and changes nothing but the
    listed columns that the table has: listed columns that are absent are
    skipped without error, the rows, the column labels and their order
    stay, and every column that is not listed keeps its values.  When no
    conversion raises, the copy is returned; a listed column then holds
    the conversion of its values. *)
Theorem coerce_numeric_columns_frame (σ : Store) (df : ref) (d : DataFrame Cell)
    (numeric_columns : list string) (errors : string) :
  σ !! df = Some d →
  ∃ res d',
    coerce_numeric_columns to_numeric df numeric_columns errors σ = (res, σ ++ [d'])
    ∧ (σ ++ [d']) !! df = Some d
    ∧ nrows d' = nrows d
    ∧ df_columns d' = df_columns d
    ∧ (∀ c, c ∉ numeric_columns → df_getitem d' c = df_getitem d c)
    ∧ ((∀ s, ∃ t, to_numeric s errors = inr t) → res = inr (length σ))
    ∧ (NoDup numeric_columns → res = inr (length σ) →
       ∀ c s, c ∈ numeric_columns → df_getitem d c = inr s →
         ∃ t, to_numeric s errors = inr t ∧ df_getitem d' c = inr t).
Proof.
  intros Hd. unfold coerce_numeric_columns.
  rewrite bind_run, copy_run, (lookup_total_Some _ _ _ Hd), bind_run.
  destruct (coerce_loop_run σ errors numeric_columns d)
    as (res & d' & Hrun & Hrows & Hcols & Hget & Htot & Hval).
  rewrite Hrun.
  exists (match res with inr _ => inr (length σ) | inl e => inl e end), d'.
  split_and!; try done.
  - by destruct res.
  - by apply lookup_app_l_Some.
  - intros Htotal. by rewrite (Htot Htotal).
  - intros Hnd Hres. apply Hval; [done|]. by destruct res as [|[]].
Qed.

End coercion.

(** The hours of [_part_of_day]: an integer hour is in the morning from 5
    to 11, in the afternoon from 12 to 16, in the evening from 17 to 20,
    and at night otherwise, whether or not it is an hour of the day; it is
    never unknown, which is the label of a missing hour alone. *)
Theorem part_of_day_hours (h : Z) :
  (_part_of_day (Int h) = inr "morning" ↔ (5 ≤ h < 12)%Z)
  ∧ (_part_of_day (Int h) = inr "afternoon" ↔ (12 ≤ h < 17)%Z)
  ∧ (_part_of_day (Int h) = inr "evening" ↔ (17 ≤ h < 21)%Z)
  ∧ (_part_of_day (Int h) = inr "night" ↔ (h < 5 ∨ 21 ≤ h)%Z)
  ∧ (∀ x, _part_of_day x = inr "unknown" ↔ x = NA).
Proof.
  assert (∀ x, _part_of_day x = inr "unknown" ↔ x = NA) as Hunknown.
  { intros [|s|z]; cbn [_part_of_day]; [done|done|].
    split; [|done]. by repeat case_match. }
  split_and!; [| | | |done]; cbn [_part_of_day];
    destruct (Z.leb_spec 5 h), (Z.ltb_spec h 12), (Z.leb_spec 12 h), (Z.ltb_spec h 17),
      (Z.leb_spec 17 h), (Z.ltb_spec h 21); cbn [andb];
    (split; [intros [=]; lia|intros ?; first [done|lia]]).
Qed.

(** [guess_col] returns the first candidate that is a column of the
    table, and [None] exactly when no candidate is one. *)
Theorem guess_col_first {A} (df : DataFrame A) (candidates : list string) :
  (∀ c, guess_col df candidates = Some c
        ↔ ∃ pre post, candidates = pre ++ c :: post
                      ∧ c ∈ df_columns df
                      ∧ Forall (λ x, x ∉ df_columns df) pre)
  ∧ (guess_col df candidates = None ↔ Forall (λ x, x ∉ df_columns df) candidates).
Proof.
  induction candidates as [|x candidates [IHs IHn]]; cbn [guess_col].
  { split; [|done]. intros c. split; [done|]. by intros ([|??] & ? & ? & _). }
  destruct (decide (x ∈ df_columns df)) as [Hx|Hx].
  - split.
    + intros c. split.
      * intros [= <-]. by exists [], candidates.
      * intros (pre & post & Heq & Hc & Hpre). destruct pre as [|y pre].
        -- by injection Heq as ->.
        -- injection Heq as -> _. by apply Forall_cons in Hpre as [? _].
    + split; [done|]. by intros [? _]%Forall_cons.
  - split.
    + intros c. rewrite IHs. split.
      * intros (pre & post & -> & Hc & Hpre). exists (x :: pre), post.
        split_and!; [done..|]. by apply Forall_cons.
      * intros (pre & post & Heq & Hc & Hpre). destruct pre as [|y pre].
        -- injection Heq as -> _. done.
        -- injection Heq as -> ->. apply Forall_cons in Hpre as [_ Hpre].
           by exists pre, post.
    + rewrite IHn, Forall_cons. tauto.
Qed.

(** Padding then zipping loses nothing: the lists [_align_lists] returns
    all have the length of the longest input list, and the tuples line 118
    builds from them are, for every position below that length, the
    entries of the input lists at that position, [None] where a list is
    too short. *)
Theorem align_lists_then_zip (lists : list (list string)) :
  length (_align_lists lists) = length lists
  ∧ Forall (λ P, length P = max_list (length <$> lists)) (_align_lists lists)
  ∧ (∀ i L, lists !! i = Some L →
       ∃ P, _align_lists lists !! i = Some P ∧ take (length L) P = Some <$> L
            ∧ drop (length L) P = replicate (max_list (length <$> lists) - length L) None)
  ∧ zip_star (_align_lists lists)
    = aligned_tuple lists <$> seq 0 (max_list (length <$> lists)).
Proof.
  split_and!.
  - unfold _align_lists. by rewrite length_fmap.
  - apply align_lists_rect.
  - intros i L HL. eexists. split.
    + unfold _align_lists. by rewrite list_lookup_fmap, HL.
    + cbn. rewrite <- (length_fmap Some L) at 1 3.
      by rewrite take_app_length, drop_app_length.
  - apply zip_star_align_lists.
Qed.

(** * The further statements on sample tables *)

Lemma padding_row_tuples_witness :
  ∃ lists tuples,
    row_lists accidents ["Security_measures"; "User_of_security_measures"] "," 1 = inr lists
    ∧ row_tuples accidents ["Security_measures"; "User_of_security_measures"] "," false 1
      = inr tuples
    ∧ tuples = aligned_tuple lists <$> seq 0 (max_list (length <$> lists))
    ∧ length tuples = max_list (length <$> lists)
    ∧ Forall (λ t, length t = 2) tuples
    ∧ ∀ q L p tok, lists !! q = Some L → L !! p = Some tok →
        ∃ t, tuples !! p = Some t ∧ t !! q = Some (Some tok).
Proof.
  apply (padding_row_tuples accidents ["Security_measures"; "User_of_security_measures"]
           "," 1).
  - exact wf_frame_accidents.
  - discriminate.
  - apply (proj1 (Forall_forall (λ c, c ∈ df_columns accidents) _)). compute_done.
  - simpl. lia.
Defined.

Lemma strict_agrees_with_padding_witness :
  explode_aligned_columns 0 ["User_of_security_measures"; "Sex"] "," false true [accidents]
  = explode_aligned_columns 0 ["User_of_security_measures"; "Sex"] "," false false [accidents].
Proof.
  apply (strict_agrees_with_padding [accidents] 0 accidents).
  - reflexivity.
  - intros i lists Hlists. apply (lengths_of_rect lists 2).
    destruct i as [|[|i]]; vm_compute in Hlists; [| |discriminate Hlists];
      injection Hlists as <-; repeat constructor.
Defined.

Lemma explode_returns_witness :
  ∃ out,
    explode_aligned_columns 0 ["Security_measures"; "User_of_security_measures"] ","
      false false [accidents]
    = (inr out, [accidents] ++ [accidents]).
Proof.
  apply (explode_returns [accidents] 0 accidents).
  - reflexivity.
  - exact wf_frame_accidents.
  - discriminate.
  - compute_done.
  - apply (proj1 (Forall_forall (λ c, c ∈ df_columns accidents) _)). compute_done.
  - discriminate.
  - by left.
Defined.

Lemma explode_first_row_empty_raises_witness :
  ∃ n, 1 ≤ n
    ∧ explode_aligned_columns 0 ["A"; "B"] "," true false [hollow_pair]
      = (inl (ValueError (ShapeMismatch (n, 1) (n, 2))), [hollow_pair] ++ [hollow_pair]).
Proof.
  apply (explode_first_row_empty_raises [hollow_pair] 0 hollow_pair ["A"; "B"] "," false).
  - reflexivity.
  - discriminate.
  - intros i Hi. exists []. destruct i as [|i]; [reflexivity|simpl in Hi; lia].
  - simpl. lia.
  - reflexivity.
Defined.

Lemma explode_result_shape_witness :
  ∃ counts : list nat,
    length counts = 2
    ∧ (∀ i, i < 2 →
         ∃ l, row_tuples gappy ["A"; "B"] "," false i = inr l
           ∧ counts !! i = Some (max 1 (length l)))
    ∧ nrows gappy_kept = sum_list counts
    ∧ df_columns gappy_kept = filter (λ k, k ≠ "_combined") (df_columns gappy)
    ∧ wf_frame gappy_kept.
Proof.
  apply (explode_result_shape [gappy] ([gappy] ++ [gappy]) 0 gappy ["A"; "B"] "," true false
           gappy_kept).
  - reflexivity.
  - exact wf_frame_gappy.
  - compute_done.
  - reflexivity.
Defined.

Lemma explode_cells_witness :
  ∃ counts : list nat,
    length counts = 2
    ∧ (∀ k, k < 2 →
         ∃ lk, row_tuples gappy ["A"; "B"] "," false k = inr lk
           ∧ counts !! k = Some (max 1 (length lk)))
    ∧ sum_list (take 0 counts) + 1 < 3
    ∧ (∀ c s x, df_getitem gappy c = inr s → c ≠ "_combined" → c ∉ ["A"; "B"] →
         values s !! 0 = Some x →
         ∃ s', df_getitem gappy_kept c = inr s'
               ∧ values s' !! (sum_list (take 0 counts) + 1) = Some (Scalar x))
    ∧ (∀ q c v, ["A"; "B"] !! q = Some c → c ≠ "_combined" →
         [Some "y"; None] !! q = Some v →
         ∃ s', df_getitem gappy_kept c = inr s'
               ∧ values s' !! (sum_list (take 0 counts) + 1) = Some (of_field v)).
Proof.
  apply (explode_cells [gappy] ([gappy] ++ [gappy]) 0 gappy ["A"; "B"] "," true false
           gappy_kept 0 1 [[Some "x"; Some "u"]; [Some "y"; None]] [Some "y"; None]).
  - reflexivity.
  - exact wf_frame_gappy.
  - compute_done.
  - reflexivity.
  - simpl. lia.
  - reflexivity.
  - reflexivity.
Defined.

Lemma keep_empty_rows_without_empty_rows_witness :
  explode_aligned_columns 0 ["Security_measures"; "User_of_security_measures"] ","
    true false [accidents]
  = explode_aligned_columns 0 ["Security_measures"; "User_of_security_measures"] ","
      false false [accidents].
Proof.
  apply (keep_empty_rows_without_empty_rows [accidents] 0 accidents).
  - reflexivity.
  - exact wf_frame_accidents.
  - intros i l Hi Hrow.
    destruct i as [|[|i]]; [| |simpl in Hi; lia];
      vm_compute in Hrow; injection Hrow as <-; discriminate.
Defined.

Lemma tokens_hold_no_delimiter_witness :
  Forall (λ t, ¬ PyStr.occurs ","%char t ∧ Token t) ["Seat Belt"; "Helmet"].
Proof.
  apply (tokens_hold_no_delimiter (Str " Seat Belt, ,Helmet,") ","%char). reflexivity.
Defined.

Lemma tokenize_join_idempotent_witness :
  _split_to_list (Str (PyStr.join "," ["Seat Belt"; "Helmet"])) ","
  = inr ["Seat Belt"; "Helmet"].
Proof.
  apply (tokenize_join_idempotent (Str " Seat Belt, ,Helmet,") ","%char). reflexivity.
Defined.

Lemma detect_monotone_in_min_share_witness :
  ∃ flagged flagged',
    detect_multivalue_columns 0 None "," (1 # 100) [hollow] = (inr flagged, [hollow])
    ∧ detect_multivalue_columns 0 None "," (3 # 4) [hollow] = (inr flagged', [hollow])
    ∧ flagged' `sublist_of` flagged
    ∧ flagged `sublist_of` ["A"; "B"].
Proof.
  apply (detect_monotone_in_min_share [hollow] 0 hollow None "," (1 # 100) (3 # 4)).
  - reflexivity.
  - apply (proj1 (Forall_forall (λ c, c ∈ df_columns hollow) _)). compute_done.
  - unfold Qle. simpl. lia.
Defined.

Lemma detect_extreme_thresholds_witness :
  (∀ c, (0 <= column_share hollow "," c)%Q ∧ (column_share hollow "," c <= 1)%Q)
  ∧ ((0 <= 0)%Q →
     detect_multivalue_columns 0 None "," 0 [hollow] = (inr ["A"; "B"], [hollow]))
  ∧ ((1 < 0)%Q →
     detect_multivalue_columns 0 None "," 0 [hollow] = (inr [], [hollow])).
Proof.
  apply (detect_extreme_thresholds [hollow] 0 hollow None "," 0).
  - reflexivity.
  - apply (proj1 (Forall_forall (λ c, c ∈ df_columns hollow) _)). compute_done.
Defined.

Lemma detect_missing_candidate_witness :
  detect_multivalue_columns 0 (Some (["B"] ++ "Z" :: ["A"])) "," (1 # 100) [hollow]
  = (inl (KeyError "Z"), [hollow]).
Proof.
  apply (detect_missing_candidate [hollow] 0 hollow ["B"] ["A"] "Z" "," (1 # 100)).
  - reflexivity.
  - intros c ->%list_elem_of_singleton. compute_done.
  - compute_done.
Defined.

Lemma one_hot_indicator_has_ones_witness :
  length (filter (λ v, v = Int 1) (values (indicator [["a"; "b"; "a"]; ["a"]; []] "a")))
  = length (filter (λ L, "a" ∈ L) [["a"; "b"; "a"]; ["a"]; []])
  ∧ 1 ≤ length (filter (λ v, v = Int 1) (values (indicator [["a"; "b"; "a"]; ["a"]; []] "a")))
  ∧ length (filter (λ v, v = Int 1) (values (indicator [["a"; "b"; "a"]; ["a"]; []] "a")))
    ≤ occurrences "a" (mjoin [["a"; "b"; "a"]; ["a"]; []])
  ∧ (2 ≤ Z.of_nat (occurrences "a" (mjoin [["a"; "b"; "a"]; ["a"]; []])))%Z.
Proof.
  apply (one_hot_indicator_has_ones [["a"; "b"; "a"]; ["a"]; []] 2 "a").
  apply elem_of_kept_tokens. exists 3. split; [reflexivity|lia].
Defined.


Lemma one_hot_missing_column_witness :
  one_hot_multivalue_columns 0 ([] ++ "Z" :: ["X"]) "," 2 None [tagged]
    = (inl (KeyError "Z"), [tagged] ++ [tagged])
  ∧ ([tagged] ++ [tagged]) !! 0 = Some tagged.
Proof.
  apply (one_hot_missing_column [tagged] 0 tagged [] ["X"] "Z" "," 2 None tagged).
  - reflexivity.
  - reflexivity.
  - compute_done.
Defined.

Lemma normalize_id_column_cleans_witness :
  ∃ d',
    normalize_id_column (λ s _, inr s) inr (λ _, "None") 0 "ID_accident" "string" [raw_ids]
      = (inr 1, [raw_ids] ++ [d'])
    ∧ ([raw_ids] ++ [d']) !! 0 = Some raw_ids
    ∧ nrows d' = 2
    ∧ df_columns d' = ["ID_accident"; "Sex"]
    ∧ (∀ c, c ≠ "ID_accident" → df_getitem d' c = df_getitem raw_ids c)
    ∧ ("ID_accident" ∉ df_columns raw_ids → d' = raw_ids)
    ∧ (∀ s, df_getitem raw_ids "ID_accident" = inr s →
         ∃ ids, df_getitem d' "ID_accident" = inr (mkSeries object (Str <$> ids))
           ∧ length ids = length (values s)
           ∧ (∀ i x, values s !! i = Some x → isna x = false →
                ids !! i = Some (id_clean (py_str x)))
           ∧ (∀ i, values s !! i = Some NA → ids !! i = Some (id_clean "None"))
           ∧ Forall (λ r, all_chars (λ a, negb (is_filler ","%char a)) r = true) ids).
Proof.
  apply (normalize_id_column_cleans (λ s _, inr s) inr (λ _, "None") [raw_ids] 0 raw_ids
           "ID_accident" "string").
  - reflexivity.
  - discriminate.
Defined.

Lemma normalize_id_column_idempotent_witness :
  ∃ d1,
    [raw_ids; clean_ids] !! 1 = Some d1
    ∧ normalize_id_column (λ s _, inr s) inr (λ _, "nan") 1 "ID_accident" "string"
        [raw_ids; clean_ids]
      = (inr 2, [raw_ids; clean_ids] ++ [d1]).
Proof.
  apply (normalize_id_column_idempotent (λ s _, inr s) inr (λ _, "None") (λ _, "nan")
           [raw_ids] [raw_ids; clean_ids] 0 1 raw_ids "ID_accident" "string").
  - reflexivity.
  - discriminate.
  - reflexivity.
Defined.

Lemma coerce_numeric_columns_frame_witness :
  ∃ res d',
    coerce_numeric_columns (λ s _, inr s) 0 _NUMERIC_SUGGESTED "coerce" [accidents]
      = (res, [accidents] ++ [d'])
    ∧ ([accidents] ++ [d']) !! 0 = Some accidents
    ∧ nrows d' = 2
    ∧ df_columns d' = df_columns accidents
    ∧ (∀ c, c ∉ _NUMERIC_SUGGESTED → df_getitem d' c = df_getitem accidents c)
    ∧ ((∀ s : Series Cell, ∃ t, (inr s : result (Series Cell)) = inr t) → res = inr 1)
    ∧ (NoDup _NUMERIC_SUGGESTED → res = inr 1 →
       ∀ c s, c ∈ _NUMERIC_SUGGESTED → df_getitem accidents c = inr s →
         ∃ t, (inr s : result (Series Cell)) = inr t ∧ df_getitem d' c = inr t).
Proof.
  apply (coerce_numeric_columns_frame (λ s _, inr s) [accidents] 0 accidents
           _NUMERIC_SUGGESTED "coerce").
  reflexivity.
Defined.

